(** * mrf_yzzy: swapping the Y and Z axes of a third-dimension MRF

    A shallow embedding of [src/mrf_yzzy.cpp].  The program is one [main]
    that talks to GDAL; the embedding keeps its shape and its names:

    - C strings are [string]; C [int]s are [Z] (signed overflow is undefined
      in C++, so the model is exact as long as the values stay in range);
      the [size_t] product of line 168 wraps modulo [2^64];
    - every call into GDAL or CPL that has an effect, and every line
      printed, is recorded as an [event]; a run yields the list of its events
      in program order and an [outcome];
    - what GDAL answers (handles, sizes, metadata, whether [malloc]
      succeeds) is read from a record of answers, [GDAL]; a handle may be
      null, and the program never looks;
    - the three chunk loops are [for_loop]s with fuel, the loops that count
      [0 .. n-1] are maps over [seqZ 0 n];
    - [exec] gives the calls their meaning on a store of rasters and a
      buffer, so that a run can be followed from a volume to its transpose.

    The definitions come first: the program, the store, sample volumes, and
    the predicates the statements are made of.  The properties follow: facts
    about loops, about runs, and then the statements about the program,
    numbered as the claims they settle. *)

From Stdlib Require Import Ascii String ZArith Lia.
From stdpp Require Import gmap strings list pretty.

Local Open Scope string_scope.
Local Open Scope list_scope.
Local Open Scope Z_scope.

(** ** C strings *)

Definition toupper (c : ascii) : ascii :=
  let n := nat_of_ascii c in
  if ((97 <=? n) && (n <=? 122))%nat then ascii_of_nat (n - 32) else c.

(** [EQUAL(a, b)]: comparison without regard to case. *)
Fixpoint EQUAL (a b : string) : bool :=
  match a, b with
  | EmptyString, EmptyString => true
  | String x a', String y b' =>
      if Ascii.eqb (toupper x) (toupper y) then EQUAL a' b' else false
  | _, _ => false
  end.

(** [STARTS_WITH_CI(a, b)]: [b] is a prefix of [a], without regard to case. *)
Fixpoint STARTS_WITH_CI (a b : string) : bool :=
  match b with
  | EmptyString => true
  | String y b' =>
      match a with
      | String x a' =>
          if Ascii.eqb (toupper x) (toupper y) then STARTS_WITH_CI a' b' else false
      | EmptyString => false
      end
  end.

Definition isspace (c : ascii) : bool :=
  let n := nat_of_ascii c in
  ((n =? 32) || ((9 <=? n) && (n <=? 13)))%nat.

Definition digit_of (c : ascii) : option Z :=
  let n := Z.of_nat (nat_of_ascii c) in
  if (48 <=? n) && (n <=? 57) then Some (n - 48) else None.

Fixpoint atoi_digits (acc : Z) (s : string) : Z :=
  match s with
  | String c s' =>
      match digit_of c with
      | Some d => atoi_digits (10 * acc + d) s'
      | None => acc
      end
  | EmptyString => acc
  end.

Fixpoint skip_space (s : string) : string :=
  match s with
  | String c s' => if isspace c then skip_space s' else s
  | EmptyString => s
  end.

(** [atoi]: leading blanks, an optional sign, then the digits up to the first
    character that is not one; [0] when there is no digit. *)
Definition atoi (s : string) : Z :=
  match skip_space s with
  | String "-" s' => - atoi_digits 0 s'
  | String "+" s' => atoi_digits 0 s'
  | s' => atoi_digits 0 s'
  end.

(** The text after the first ["="], as [strstr(s, "=") + 1]. *)
Fixpoint after_equal (s : string) : string :=
  match s with
  | String "=" s' => s'
  | String _ s' => after_equal s'
  | EmptyString => EmptyString
  end.

(** [%d] and [%llu]. *)
Definition dec (n : Z) : string := pretty n.

Definition tab : string := String (ascii_of_nat 9) EmptyString.

(** ** CPL string lists *)

Definition drop_str (n : nat) (s : string) : string :=
  substring n (String.length s - n) s.

(** [CSLFetchNameValue]: the value of the first entry [name=value] or
    [name:value] whose name matches without regard to case; [None] is the
    null pointer. *)
Fixpoint CSLFetchNameValue (l : list string) (name : string) : option string :=
  match l with
  | [] => None
  | s :: l' =>
      let n := String.length name in
      if STARTS_WITH_CI s name &&
         match String.get n s with
         | Some c => Ascii.eqb c "=" || Ascii.eqb c ":"
         | None => false
         end
      then Some (drop_str (S n) s)
      else CSLFetchNameValue l' name
  end.

Definition CSLAddString (l : list string) (s : string) : list string := l ++ [s].

Definition CSLAddNameValue (l : list string) (name value : string) : list string :=
  l ++ [name +:+ "=" +:+ value].

(** ** The interface to GDAL *)

(** A dataset handle is named by a string; [None] is the null handle. *)
Definition GDALDatasetH : Type := option string.
Definition GDALDataType : Type := Z.

Inductive GDALRWFlag := GF_Read | GF_Write.

Inductive outcome :=
| Exit (code : Z)        (* [return code] from [main], or [exit(code)] *)
| Fault (what : string)  (* abnormal end: uncaught exception, null dereference *)
| OutOfFuel.             (* the model ran out of fuel: the loop is still going *)

Section Program.

(** [double] values are only moved around, except for the one product and
    quotient of line 87. *)
Context {double : Type}.
Variable of_int : Z -> double.
Variables fmul fdiv : double -> double -> double.

(** What GDAL answers.  Band handles are a dataset handle and a band
    number. *)
Record GDAL := {
  GDALGetDriverByName : string -> bool;
  GDALGeneralCmdLineProcessor : list string -> Z * list string;
  GDALOpen : string -> GDALDatasetH;
  GDALGetDriverShortName : string -> string;
  GDALGetProjectionRef : string -> string;
  GDALGetMetadata : string -> string -> list string;
  GDALGetRasterCount : string -> Z;
  GDALGetRasterBandXSize : string -> Z -> Z;
  GDALGetRasterBandYSize : string -> Z -> Z;
  GDALGetGeoTransform : string -> list double;
  GDALGetRasterNoDataValue : string -> Z -> option double;
  GDALGetRasterStatistics : string -> Z -> option (double * double * double * double);
  GDALGetBlockSize : string -> Z -> Z * Z;
  GDALGetRasterDataType : string -> Z -> GDALDataType;
  GDALGetDataTypeSizeBytes : GDALDataType -> Z;
  GDALCreate : string -> Z -> Z -> Z -> GDALDataType -> list string -> GDALDatasetH;
  malloc : Z -> bool
}.

(** The calls that have an effect, and the lines printed. *)
Inductive event :=
| Cerr (line : string)
| Cout (line : string)
| CPLError (msg : string)
| Open (name : string) (h : GDALDatasetH)
| Close (h : GDALDatasetH)
| Create (name : string) (xs ys nb : Z) (t : GDALDataType) (opts : list string)
         (h : GDALDatasetH)
| SetRasterNoDataValue (h : GDALDatasetH) (band : Z) (v : double)
| SetRasterStatistics (h : GDALDatasetH) (band : Z) (mn mx mean sd : double)
| SetProjection (h : GDALDatasetH) (wkt : string)
| SetGeoTransform (h : GDALDatasetH) (g : list double)
| DatasetRasterIO (h : GDALDatasetH) (rw : GDALRWFlag)
                  (xoff yoff xsize ysize : Z)
                  (buf : Z)  (* offset of the data pointer in the buffer, in bytes *)
                  (bufxsize bufysize : Z) (t : GDALDataType) (nbands : Z)
                  (pixelspace linespace bandspace : Z).

(** ** [Usage] *)

Definition Usage (message : option string) (retcode : Z) : list event * Z :=
  (match message with Some m => [Cerr m] | None => [] end ++
   [ Cerr "mrf_yzzy transposes the data in a 3rD MRF by swapping the Y and Z axis";
     Cerr "Usage:";
     Cerr "mrf_yzzy [-z ZPageSize] [-v] [-g] in.mrf out.mrf";
     Cerr "";
     Cerr (tab +:+ "-z ZPageSize : Set the output Y pagesize");
     Cerr (tab +:+ "-v : verbose");
     Cerr (tab +:+ "-g copies the input projection and the area info, which will be wrong anyhow") ],
   retcode).

(** ** [main], lines 24 to 163: arguments and source description *)

Record options := {
  o_verbose : bool;
  o_geo : bool;
  o_psz : Z;
  o_fnames : list string
}.

(** Lines 42 to 54.  [-z] as the last argument reads [argv[nArgc]], the
    terminating null pointer, and hands it to [atoi]: [None]. *)
Fixpoint parse_args (args : list string) (o : options) : option options :=
  match args with
  | [] => Some o
  | a :: rest =>
      if EQUAL a "-z" then
        match rest with
        | v :: rest' =>
            parse_args rest' {| o_verbose := o_verbose o; o_geo := o_geo o;
                                o_psz := atoi v; o_fnames := o_fnames o |}
        | [] => None
        end
      else if EQUAL a "-v" then
        parse_args rest {| o_verbose := true; o_geo := o_geo o;
                           o_psz := o_psz o; o_fnames := o_fnames o |}
      else if EQUAL a "-g" then
        parse_args rest {| o_verbose := o_verbose o; o_geo := true;
                           o_psz := o_psz o; o_fnames := o_fnames o |}
      else
        parse_args rest {| o_verbose := o_verbose o; o_geo := o_geo o;
                           o_psz := o_psz o; o_fnames := o_fnames o ++ [a] |}
  end.

(** Lines 111 to 138: the source metadata sorted into creation options and
    free form options. *)
Fixpoint filter_metadata (md copt freeopt : list string) : list string * list string :=
  match md with
  | [] => (copt, freeopt)
  | s :: md' =>
      if STARTS_WITH_CI s "COMPRESSION=" then
        filter_metadata md' (copt ++ ["COMPRESS=" +:+ after_equal s]) freeopt
      else if STARTS_WITH_CI s "ZSLICE=" || STARTS_WITH_CI s "ZSIZE="
              || STARTS_WITH_CI s "V2=" then
        filter_metadata md' copt freeopt
      else if STARTS_WITH_CI s "V1=" || STARTS_WITH_CI s "GZ="
              || STARTS_WITH_CI s "ZSTD=" || STARTS_WITH_CI s "RAWZ="
              || STARTS_WITH_CI s "DEFLATE=" || STARTS_WITH_CI s "LERC_PREC=" then
        filter_metadata md' copt (CSLAddString freeopt s)
      else
        filter_metadata md' (CSLAddString copt s) freeopt
  end.

(** Lines 141 to 146. *)
Fixpoint join_freeopt (fopt : string) (freeopt : list string) : string :=
  match freeopt with
  | [] => fopt
  | s :: l =>
      join_freeopt ((if (0 <? String.length fopt)%nat then fopt +:+ " " else fopt) +:+ s) l
  end.

(** Lines 108 to 155. *)
Definition creation_options (md : list string) (pszx psz ysz : Z) : list string :=
  let '(copt, freeopt) := filter_metadata md [] [] in
  let fopt := join_freeopt "" freeopt in
  let copt := if (0 <? String.length fopt)%nat
              then CSLAddNameValue copt "OPTIONS" fopt else copt in
  copt ++ ["BLOCKXSIZE=" +:+ dec pszx] ++ ["BLOCKYSIZE=" +:+ dec psz]
       ++ ["ZSIZE=" +:+ dec ysz].

(** The local variables of [main] that are live at line 165. *)
Record locals := {
  verbose : bool;
  geo : bool;
  psz : Z;
  SourceName : string;
  TargetName : string;
  gt : list double;
  projection : string;
  zsz : Z;
  csz : Z;
  xsz : Z;
  ysz : Z;
  nodata : option double;                              (* bHasNoData, nd *)
  stats : option (double * double * double * double);  (* bHasStats, min_v .. stdd_v *)
  pszx : Z;
  pszy : Z;
  dt : GDALDataType;
  dtsz : Z;
  copt : list string
}.

(** Line 87: [gt[5] *= double(ysz) / double(zsz)]. *)
Definition scale_gt (g : list double) (ysz zsz : Z) : list double :=
  match g !! 5%nat with
  | Some g5 => <[5%nat := fmul g5 (fdiv (of_int ysz) (of_int zsz))]> g
  | None => g
  end.

(** Lines 73 to 155, for an opened source [h] whose [ZSIZE] reads [zs]. *)
Definition describe_source (G : GDAL) (o : options) (src tgt h zs : string) : locals :=
  let md := GDALGetMetadata G h "IMAGE_STRUCTURE" in
  let zsz := atoi zs in
  let xsz := GDALGetRasterBandXSize G h 1 in
  let ysz := GDALGetRasterBandYSize G h 1 in
  let '(pszx, pszy) := GDALGetBlockSize G h 1 in
  let dt := GDALGetRasterDataType G h 1 in
  let psz := if o_psz o =? 0 then pszx else o_psz o in
  {| verbose := o_verbose o; geo := o_geo o; psz := psz;
     SourceName := src; TargetName := tgt;
     gt := scale_gt (GDALGetGeoTransform G h) ysz zsz;
     projection := GDALGetProjectionRef G h;
     zsz := zsz; csz := GDALGetRasterCount G h; xsz := xsz; ysz := ysz;
     nodata := GDALGetRasterNoDataValue G h 1;
     stats := GDALGetRasterStatistics G h 1;
     pszx := pszx; pszy := pszy; dt := dt;
     dtsz := GDALGetDataTypeSizeBytes G dt;
     copt := creation_options md pszx psz ysz |}.

(** ** [main], lines 165 to 267: the chunk loops *)

(** [size_t] products wrap. *)
Definition to_size_t (n : Z) : Z := n mod 2 ^ 64.

(** Line 168. *)
Definition BSZ (L : locals) : Z :=
  to_size_t (to_size_t (to_size_t (to_size_t (to_size_t (csz L) * to_size_t (psz L))
                                   * to_size_t (pszy L))
                        * to_size_t (pszx L))
             * to_size_t (dtsz L)).

(** Lines 171 to 174, the input strides. *)
Definition pix_stride (L : locals) : Z := dtsz L.
Definition line_stride (L : locals) : Z := pszx L * pix_stride L.
Definition z_stride (L : locals) : Z := pszy L * line_stride L.
Definition band_stride (L : locals) : Z := psz L * z_stride L.

(** ["%s:MRF:Z%d"] *)
Definition slice_name (base : string) (z : Z) : string :=
  base +:+ ":MRF:Z" +:+ dec z.

(** [v[i]] *)
Definition at_index (v : list GDALDatasetH) (i : Z) : GDALDatasetH :=
  default None (v !! Z.to_nat i).

(** [for (int s = start; s < bound; s += step) body], with as many passes
    as there is fuel; a body that stops the run stops the loop. *)
Fixpoint for_loop (fuel : nat) (bound step : Z)
    (body : Z -> list event * option outcome) (start : Z)
    : list event * option outcome :=
  if start <? bound then
    match fuel with
    | O => ([], Some OutOfFuel)
    | S fuel' =>
        let '(t, r) := body start in
        match r with
        | Some o => (t, Some o)
        | None =>
            let '(t', r') := for_loop fuel' bound step body (start + step) in
            (t ++ t', r')
        end
    end
  else ([], None).

Section Loops.

Variable G : GDAL.
Variable L : locals.

(** Lines 192 to 197: the source slices of one Z chunk. *)
Definition open_slice (startz z : Z) : GDALDatasetH * list event :=
  let SName := slice_name (SourceName L) (startz + z) in
  let h := GDALOpen G SName in
  (h, [Open SName h]).

(** Lines 203 to 217: one destination slice; its metadata goes to the band
    that [GDALGetRasterBand(h, 1)] returns. *)
Definition create_slice (starty z : Z) : GDALDatasetH * list event :=
  let DName := slice_name (TargetName L) (starty + z) in
  let h := GDALCreate G DName (xsz L) (zsz L) (csz L) (dt L) (copt L) in
  (h,
   [Create DName (xsz L) (zsz L) (csz L) (dt L) (copt L) h]
   ++ match nodata L with
      | Some nd => [SetRasterNoDataValue h 1 nd]
      | None => []
      end
   ++ match stats L with
      | Some (min_v, max_v, mean_v, stdd_v) =>
          [SetRasterStatistics h 1 min_v max_v mean_v stdd_v]
      | None => []
      end
   ++ (if geo L then [SetProjection h (projection L); SetGeoTransform h (gt L)]
       else [])).

(** The read of lines 234 to 239, into slot [z] of the buffer. *)
Definition read_call (h : GDALDatasetH) (startx starty dx dy z : Z) : event :=
  DatasetRasterIO h GF_Read startx starty dx dy
    (z_stride L * z) dx dy (dt L) (csz L)
    (pix_stride L) (line_stride L) (band_stride L).

(** The write of lines 250 to 255, from line [endz] of the buffer. *)
Definition write_call (h : GDALDatasetH) (startx startz dx dz endz : Z) : event :=
  DatasetRasterIO h GF_Write startx startz dx dz
    (endz * line_stride L) dx dz (dt L) (csz L)
    (pix_stride L) (z_stride L) (band_stride L).

(** Lines 226 to 240. *)
Definition read_cublock (inh : list GDALDatasetH)
    (startx starty dx dy dz : Z) : list event :=
  (fun z => read_call (at_index inh z) startx starty dx dy z) <$> seqZ 0 dz.

(** Lines 243 to 256. *)
Definition write_cublock (outh : list GDALDatasetH)
    (startx startz dx dy dz : Z) : list event :=
  (fun endz => write_call (at_index outh endz) startx startz dx dz endz) <$> seqZ 0 dy.

(** Line 222. *)
Definition progress_line (startx starty startz : Z) : string :=
  "Processing " +:+ dec startx +:+ "," +:+ dec starty +:+ "," +:+ dec startz.

(** Lines 220 to 257, one pass of the body. *)
Definition x_body (inh outh : list GDALDatasetH)
    (starty startz dy dz startx : Z) : list event * option outcome :=
  let dx := Z.min (pszx L) (xsz L - starty) in
  ([Cout (progress_line startx starty startz)]
   ++ read_cublock inh startx starty dx dy dz
   ++ write_cublock outh startx startz dx dy dz,
   None).

Definition x_loop (fuel : nat) (inh outh : list GDALDatasetH)
    (starty startz dy dz : Z) : list event * option outcome :=
  for_loop fuel (xsz L) (pszx L) (x_body inh outh starty startz dy dz) 0.

(** Lines 199 to 261, one pass of the body.  [vector<GDALDatasetH> outh(dy)]
    with a negative [dy] asks for more than [max_size()] elements and
    throws. *)
Definition y_body (inner : nat) (inh : list GDALDatasetH)
    (startz dz starty : Z) : list event * option outcome :=
  let dy := Z.min (pszy L) (ysz L - starty) in
  if dy <? 0 then ([], Some (Fault "std::length_error"))
  else
    let created := create_slice starty <$> seqZ 0 dy in
    let outh := fst <$> created in
    let t_create := concat (snd <$> created) in
    let '(t_x, r_x) := x_loop inner inh outh starty startz dy dz in
    match r_x with
    | Some r => (t_create ++ t_x, Some r)
    | None => (t_create ++ t_x ++ (Close <$> outh), None)
    end.

Definition y_loop (fuel : nat) (inh : list GDALDatasetH)
    (startz dz : Z) : list event * option outcome :=
  for_loop fuel (ysz L) (pszy L) (y_body fuel inh startz dz) 0.

(** Lines 188 to 264, one pass of the body. *)
Definition z_body (inner : nat) (startz : Z) : list event * option outcome :=
  let dz := Z.min (psz L) (zsz L - startz) in
  if dz <? 0 then ([], Some (Fault "std::length_error"))
  else
    let opened := open_slice startz <$> seqZ 0 dz in
    let inh := fst <$> opened in
    let t_open := concat (snd <$> opened) in
    let '(t_y, r_y) := y_loop inner inh startz dz in
    match r_y with
    | Some r => (t_open ++ t_y, Some r)
    | None => (t_open ++ t_y ++ (Close <$> inh), None)
    end.

Definition z_loop (fuel : nat) : list event * option outcome :=
  for_loop fuel (zsz L) (psz L) (z_body fuel) 0.

(** Lines 167 to 267. *)
Definition transpose (fuel : nat) : list event * outcome :=
  if negb (malloc G (BSZ L)) then
    let '(t, r) := Usage (Some ("Failed to allocate buffer of size " +:+ dec (BSZ L))) 3 in
    (t, Exit r)
  else
    let t_v := if verbose L
               then [Cout ("Using an " +:+ dec (BSZ L) +:+ " sized buffer")] else [] in
    let '(t, r) := z_loop fuel in
    (t_v ++ t, match r with Some r => r | None => Exit 0 end).

End Loops.

(** ** [main] *)

(** Lines 25 to 28 and 35. *)
Definition no_options : options :=
  {| o_verbose := false; o_geo := false; o_psz := 0; o_fnames := [] |}.

(** Lines 157 to 163. *)
Definition list_options (L : locals) : list event :=
  if verbose L then Cout <$> copt L else [].

(** Lines 59 to 267, for the two file names. *)
Definition convert (G : GDAL) (fuel : nat) (o : options) (src tgt : string)
    : list event * outcome :=
  match GDALOpen G src with
  | None =>
      ([Open src None;
        CPLError ("Can't open source file " +:+ src +:+ " for reading")],
       Exit 0)
  | Some h =>
      if negb (EQUAL (GDALGetDriverShortName G h) "MRF") then
        let '(t, r) := Usage (Some "Input file is not MRF") 2 in
        (Open src (Some h) :: t, Exit r)
      else
        match CSLFetchNameValue (GDALGetMetadata G h "IMAGE_STRUCTURE") "ZSIZE" with
        | None =>
            let '(t, r) := Usage (Some "Source is not a 3-rd dimension MRF") 2 in
            (Open src (Some h) :: t, Exit r)
        | Some zs =>
            let L := describe_source G o src tgt h zs in
            let '(t, r) := transpose G L fuel in
            (Open src (Some h) :: list_options L ++ Close (Some h) :: t, r)
        end
  end.

Definition main (G : GDAL) (fuel : nat) (argv : list string) : list event * outcome :=
  if negb (GDALGetDriverByName G "MRF") then
    let '(t, r) := Usage (Some "MRF driver not found") 1 in (t, Exit r)
  else
    let '(nArgc, argv) := GDALGeneralCmdLineProcessor G argv in
    if nArgc <? 1 then ([], Exit (- nArgc))
    else
      match parse_args (drop 1 (take (Z.to_nat nArgc) argv)) no_options with
      | None => ([], Fault "atoi(NULL)")
      | Some o =>
          match o_fnames o with
          | [src; tgt] => convert G fuel o src tgt
          | _ => let '(t, r) := Usage None 1 in (t, Exit r)
          end
      end.

(** ** What the calls do to the store

    The raster store (GDAL and its MRF driver) is not part of this program.
    The definitions below give the part of its contract the transposition
    relies on, so that a run can be followed from a source volume to the
    slices it leaves behind.  A raster holds one element per band, row and
    column; the buffer holds elements at byte offsets. *)

Context {V : Type}.

Record raster := {
  r_xsize : Z;
  r_ysize : Z;
  r_count : Z;
  r_cells : gmap (Z * Z * Z) V   (* band from 1, row, column *)
}.

Record state := {
  datasets : gmap string raster;
  buffer : gmap Z V
}.

Definition put {K} `{Countable K} (k : K) (v : option V) (m : gmap K V) : gmap K V :=
  match v with
  | Some x => <[k := x]> m
  | None => delete k m
  end.

(** Band, row and column of every element of a window, relative to it. *)
Definition window_cells (nbands ysize xsize : Z) : list (Z * Z * Z) :=
  b ← seqZ 0 nbands; j ← seqZ 0 ysize; i ← seqZ 0 xsize; [(b, j, i)].

Definition window_ok (r : raster) (xoff yoff xsize ysize nbands : Z) : bool :=
  (1 <=? xsize) && (1 <=? ysize) && (0 <=? xoff) && (0 <=? yoff)
  && (xoff + xsize <=? r_xsize r) && (yoff + ysize <=? r_ysize r)
  && (nbands <=? r_count r).

(** Modelled from the spec: the strided block read of the raster store
    ([GDALDatasetRasterIO] with [GF_Read], which is not in this program).
    The element at column [i], row [j] and band [c] of the window goes to
    [data + i * pixelspace + j * linespace + c * bandspace]. *)
Definition read_window (r : raster) (xoff yoff xsize ysize buf nbands
    pixelspace linespace bandspace : Z) (b : gmap Z V) : gmap Z V :=
  foldl (fun b '(c, j, i) =>
           put (buf + i * pixelspace + j * linespace + c * bandspace)
               (r_cells r !! (c + 1, yoff + j, xoff + i)) b)
        b (window_cells nbands ysize xsize).

(** Modelled from the spec: the strided block write of the raster store
    ([GDALDatasetRasterIO] with [GF_Write]), symmetric to the read. *)
Definition write_window (b : gmap Z V) (xoff yoff xsize ysize buf nbands
    pixelspace linespace bandspace : Z) (r : raster) : raster :=
  {| r_xsize := r_xsize r; r_ysize := r_ysize r; r_count := r_count r;
     r_cells :=
       foldl (fun cells '(c, j, i) =>
                put (c + 1, yoff + j, xoff + i)
                    (b !! (buf + i * pixelspace + j * linespace + c * bandspace)) cells)
             (r_cells r) (window_cells nbands ysize xsize) |}.

(** Modelled from the spec: what the raster store does on the calls of a
    run ([GDALCreate] and [GDALDatasetRasterIO], which are not in this
    program).  A strided read or write moves its window when the handle is
    not null, the window is not empty and lies inside the raster, and the
    buffer extents are those of the window; otherwise the call fails or is
    skipped and moves nothing.  The slices of an MRF live in the same
    files: creating a slice again keeps what it holds.  The other calls
    move no element. *)
Definition exec (s : state) (ev : event) : state :=
  match ev with
  | Create _ xs ys nb _ _ (Some h) =>
      let cells := match datasets s !! h with
                   | Some r => r_cells r
                   | None => ∅
                   end in
      {| datasets := <[h := {| r_xsize := xs; r_ysize := ys; r_count := nb;
                               r_cells := cells |}]> (datasets s);
         buffer := buffer s |}
  | DatasetRasterIO (Some h) rw xoff yoff xsize ysize buf bufxsize bufysize _ nbands
                    pixelspace linespace bandspace =>
      match datasets s !! h with
      | Some r =>
          if window_ok r xoff yoff xsize ysize nbands
             && (bufxsize =? xsize) && (bufysize =? ysize)
          then
            match rw with
            | GF_Read =>
                {| datasets := datasets s;
                   buffer := read_window r xoff yoff xsize ysize buf nbands
                               pixelspace linespace bandspace (buffer s) |}
            | GF_Write =>
                {| datasets := <[h := write_window (buffer s) xoff yoff xsize ysize buf
                                        nbands pixelspace linespace bandspace r]>
                                 (datasets s);
                   buffer := buffer s |}
            end
          else s
      | None => s
      end
  | _ => s
  end.

Definition run_events (s : state) (t : list event) : state := foldl exec s t.

(** The value of a slice at a band, row and column, if it has one. *)
Definition voxel (s : state) (slice : string) (band row col : Z) : option V :=
  r ← datasets s !! slice; r_cells r !! (band, row, col).

End Program.

(** ** Sample stores

    Concrete answers and volumes, with [Z] for the doubles and for the
    elements, on which the definitions above can be run. *)

Record sample := {
  s_md : list string;              (* IMAGE_STRUCTURE metadata *)
  s_count : Z;
  s_xsize : Z;
  s_ysize : Z;
  s_block : Z * Z;
  s_dtsz : Z;
  s_nodata : option Z;
  s_stats : option (Z * Z * Z * Z);
  s_opens : string -> bool;        (* the names [GDALOpen] can open *)
  s_creates : string -> bool;      (* the names [GDALCreate] can create *)
  s_heap : Z                       (* the largest block [malloc] grants *)
}.

Definition answers (s : sample) : @GDAL Z :=
  {| GDALGetDriverByName := fun n => String.eqb n "MRF";
     GDALGeneralCmdLineProcessor := fun argv => (Z.of_nat (length argv), argv);
     GDALOpen := fun n => if s_opens s n then Some n else None;
     GDALGetDriverShortName := fun _ => "MRF";
     GDALGetProjectionRef := fun _ => "";
     GDALGetMetadata := fun _ _ => s_md s;
     GDALGetRasterCount := fun _ => s_count s;
     GDALGetRasterBandXSize := fun _ _ => s_xsize s;
     GDALGetRasterBandYSize := fun _ _ => s_ysize s;
     GDALGetGeoTransform := fun _ => [0; 1; 0; 0; 0; -1];
     GDALGetRasterNoDataValue := fun _ _ => s_nodata s;
     GDALGetRasterStatistics := fun _ _ => s_stats s;
     GDALGetBlockSize := fun _ _ => s_block s;
     GDALGetRasterDataType := fun _ _ => 1;
     GDALGetDataTypeSizeBytes := fun _ => s_dtsz s;
     GDALCreate := fun n _ _ _ _ _ => if s_creates s n then Some n else None;
     malloc := fun n => n <=? s_heap s |}.

Definition run_main (s : sample) (fuel : nat) (argv : list string)
    : list (@event Z) * outcome :=
  main id Z.mul Z.div (answers s) fuel argv.

Definition always (_ : string) : bool := true.
Definition never (_ : string) : bool := false.

(** The slices of a volume whose voxel at column [x], row [y], slice [z] and
    band [b] (from 1) is [f x y z b]. *)
Definition slice_raster (xs ys nb : Z) (f : Z -> Z -> Z -> Z) : @raster Z :=
  {| r_xsize := xs; r_ysize := ys; r_count := nb;
     r_cells :=
       list_to_map ((fun '(b, j, i) => ((b + 1, j, i), f i j (b + 1)))
                    <$> window_cells nb ys xs) |}.

Definition volume (name : string) (xs ys zs nb : Z) (f : Z -> Z -> Z -> Z -> Z)
    : @state Z :=
  {| datasets :=
       list_to_map ((fun z => (slice_name name z,
                               slice_raster xs ys nb (fun x y b => f x y z b)))
                    <$> seqZ 0 zs);
     buffer := ∅ |}.

(** The scenario of the specification: 8 by 6 by 4, one band of bytes,
    4 by 4 tiles. *)
Definition scenario : sample :=
  {| s_md := ["COMPRESSION=LERC"; "ZSIZE=4"; "LERC_PREC=0.5"];
     s_count := 1; s_xsize := 8; s_ysize := 6; s_block := (4, 4); s_dtsz := 1;
     s_nodata := Some 0; s_stats := Some (0, 255, 17, 3);
     s_opens := always; s_creates := always; s_heap := 2 ^ 40 |}.

(** A volume taller than it is wide: 4 by 8 by 1, 4 by 4 tiles. *)
Definition tall : sample :=
  {| s_md := ["ZSIZE=1"];
     s_count := 1; s_xsize := 4; s_ysize := 8; s_block := (4, 4); s_dtsz := 1;
     s_nodata := None; s_stats := None;
     s_opens := always; s_creates := always; s_heap := 2 ^ 40 |}.

Definition tall_voxels (x y z b : Z) : Z := 1000 * z + 10 * y + x + 1.

(** What the first pass creates from [tall]: 4 by 1 rasters, [ZSIZE=8],
    tiles of [BLOCKXSIZE=4] by [BLOCKYSIZE=4]. *)
Definition tall_transposed : sample :=
  {| s_md := ["ZSIZE=8"];
     s_count := 1; s_xsize := 4; s_ysize := 1; s_block := (4, 4); s_dtsz := 1;
     s_nodata := None; s_stats := None;
     s_opens := always; s_creates := always; s_heap := 2 ^ 40 |}.

(** Two bands with a no-data value and statistics: 4 by 1 by 1. *)
Definition two_bands : sample :=
  {| s_md := ["ZSIZE=1"];
     s_count := 2; s_xsize := 4; s_ysize := 1; s_block := (4, 4); s_dtsz := 1;
     s_nodata := Some 7; s_stats := Some (0, 255, 17, 3);
     s_opens := always; s_creates := always; s_heap := 2 ^ 40 |}.

(** A source that cannot be opened. *)
Definition missing : sample :=
  {| s_md := ["ZSIZE=1"];
     s_count := 1; s_xsize := 4; s_ysize := 8; s_block := (4, 4); s_dtsz := 1;
     s_nodata := None; s_stats := None;
     s_opens := never; s_creates := always; s_heap := 2 ^ 40 |}.

(** A source whose depth reads 0, and one that has no depth. *)
Definition flat : sample :=
  {| s_md := ["COMPRESSION=LERC"; "ZSIZE=0"];
     s_count := 1; s_xsize := 8; s_ysize := 6; s_block := (4, 4); s_dtsz := 1;
     s_nodata := None; s_stats := None;
     s_opens := always; s_creates := always; s_heap := 2 ^ 40 |}.

Definition no_depth : sample :=
  {| s_md := ["COMPRESSION=LERC"];
     s_count := 1; s_xsize := 8; s_ysize := 6; s_block := (4, 4); s_dtsz := 1;
     s_nodata := None; s_stats := None;
     s_opens := always; s_creates := always; s_heap := 2 ^ 40 |}.

(** The scenario, with slices that cannot be opened and cannot be created:
    only the source itself opens. *)
Definition broken : sample :=
  {| s_md := ["COMPRESSION=LERC"; "ZSIZE=4"; "LERC_PREC=0.5"];
     s_count := 1; s_xsize := 8; s_ysize := 6; s_block := (4, 4); s_dtsz := 1;
     s_nodata := Some 0; s_stats := None;
     s_opens := String.eqb "in.mrf"; s_creates := never; s_heap := 2 ^ 40 |}.

(** [tall], with an allocator that would grant any size. *)
Definition generous : sample :=
  {| s_md := ["ZSIZE=1"];
     s_count := 1; s_xsize := 4; s_ysize := 8; s_block := (4, 4); s_dtsz := 1;
     s_nodata := None; s_stats := None;
     s_opens := always; s_creates := always; s_heap := 2 ^ 64 |}.

Definition back_argv : list string := ["mrf_yzzy"; "out.mrf"; "back.mrf"].

Definition negative_argv : list string :=
  ["mrf_yzzy"; "-z"; "-1"; "in.mrf"; "out.mrf"].

(** The local variables of [main] on a sample, for the two file names
    [in.mrf] and [out.mrf] and a [ZSIZE] that reads [zs]. *)
Definition sample_options (z : Z) : options :=
  {| o_verbose := false; o_geo := false; o_psz := z;
     o_fnames := ["in.mrf"; "out.mrf"] |}.

Definition sample_locals (s : sample) (z : Z) (zs : string) : @locals Z :=
  describe_source id Z.mul Z.div (answers s) (sample_options z)
    "in.mrf" "out.mrf" "in.mrf" zs.

Definition plain_argv : list string := ["mrf_yzzy"; "in.mrf"; "out.mrf"].

(** The same with [-v]. *)
Definition verbose_locals (s : sample) (zs : string) : @locals Z :=
  describe_source id Z.mul Z.div (answers s)
    {| o_verbose := true; o_geo := false; o_psz := 0;
       o_fnames := ["in.mrf"; "out.mrf"] |}
    "in.mrf" "out.mrf" "in.mrf" zs.

(** More samples. *)

(** [tall], with an allocator that grants nothing. *)
Definition cramped : sample :=
  {| s_md := ["ZSIZE=1"];
     s_count := 1; s_xsize := 4; s_ysize := 8; s_block := (4, 4); s_dtsz := 1;
     s_nodata := None; s_stats := None;
     s_opens := always; s_creates := always; s_heap := 0 |}.

(** The scenario, with metadata of every kind. *)
Definition tagged : sample :=
  {| s_md := ["V1=1"; "compression=LERC"; "ZSIZE=4"; "GZ=1"; "ZSLICE=2"; "NOCOPY=true"];
     s_count := 1; s_xsize := 8; s_ysize := 6; s_block := (4, 4); s_dtsz := 1;
     s_nodata := Some 0; s_stats := None;
     s_opens := always; s_creates := always; s_heap := 2 ^ 40 |}.

(** The local variables of [main] on a sample, run with [-g]. *)
Definition geo_locals (s : sample) (zs : string) : @locals Z :=
  describe_source id Z.mul Z.div (answers s)
    {| o_verbose := false; o_geo := true; o_psz := 0;
       o_fnames := ["in.mrf"; "out.mrf"] |}
    "in.mrf" "out.mrf" "in.mrf" zs.

(** The options after [-v a]. *)
Definition some_flags : options :=
  {| o_verbose := true; o_geo := false; o_psz := 0; o_fnames := ["a"] |}.

(** The answers of the scenario, without the MRF driver. *)
Definition no_driver : @GDAL Z :=
  let G := answers scenario in
  {| GDALGetDriverByName := fun _ => false;
     GDALGeneralCmdLineProcessor := GDALGeneralCmdLineProcessor G;
     GDALOpen := GDALOpen G;
     GDALGetDriverShortName := GDALGetDriverShortName G;
     GDALGetProjectionRef := GDALGetProjectionRef G;
     GDALGetMetadata := GDALGetMetadata G;
     GDALGetRasterCount := GDALGetRasterCount G;
     GDALGetRasterBandXSize := GDALGetRasterBandXSize G;
     GDALGetRasterBandYSize := GDALGetRasterBandYSize G;
     GDALGetGeoTransform := GDALGetGeoTransform G;
     GDALGetRasterNoDataValue := GDALGetRasterNoDataValue G;
     GDALGetRasterStatistics := GDALGetRasterStatistics G;
     GDALGetBlockSize := GDALGetBlockSize G;
     GDALGetRasterDataType := GDALGetRasterDataType G;
     GDALGetDataTypeSizeBytes := GDALGetDataTypeSizeBytes G;
     GDALCreate := GDALCreate G;
     malloc := malloc G |}.

(** A source with depth and columns, and no rows. *)
Definition rowless : sample :=
  {| s_md := ["ZSIZE=2"];
     s_count := 1; s_xsize := 4; s_ysize := 0; s_block := (4, 4); s_dtsz := 1;
     s_nodata := None; s_stats := None;
     s_opens := always; s_creates := always; s_heap := 2 ^ 40 |}.


(** ** Statements about runs *)

Section Statements.

Context {double : Type}.




(** The calls that create a slice. *)
Definition is_create (ev : @event double) : Prop :=
  match ev with Create _ _ _ _ _ _ _ => True | _ => False end.

(** A metadata call that puts the values of the source's first band on
    band 1. *)
Definition first_band_metadata (L : @locals double) (ev : @event double) : Prop :=
  match ev with
  | SetRasterNoDataValue _ band v => band = 1 /\ nodata L = Some v
  | SetRasterStatistics _ band mn mx mean sd =>
      band = 1 /\ stats L = Some (mn, mx, mean, sd)
  | _ => True
  end.

(** A call that moves no element of the slice [slice]: it is made on
    another handle, or its window is empty. *)
Definition moves_nothing (slice : string) (ev : @event double) : bool :=
  match ev with
  | DatasetRasterIO (Some h) _ _ _ xsize ysize _ _ _ _ _ _ _ _ =>
      negb (String.eqb h slice) || (xsize <? 1) || (ysize <? 1)
  | _ => true
  end.

(** The extents of the windows as the loops compute them: a read at row
    [yoff] of a source slice is [min(pszx, xsz - yoff)] wide and
    [min(pszy, ysz - yoff)] high; a write at row [yoff] of a destination
    slice is [min(psz, zsz - yoff)] high. *)
Definition code_extents (L : @locals double) (ev : @event double) : Prop :=
  match ev with
  | DatasetRasterIO _ GF_Read _ yoff xsize ysize _ _ _ _ _ _ _ _ =>
      xsize = Z.min (pszx L) (xsz L - yoff) /\ ysize = Z.min (pszy L) (ysz L - yoff)
  | DatasetRasterIO _ GF_Write _ yoff _ ysize _ _ _ _ _ _ _ _ =>
      ysize = Z.min (psz L) (zsz L - yoff)
  | _ => True
  end.


(** Nothing on [cout] but the coordinates of a chunk. *)
Definition only_progress (ev : @event double) : Prop :=
  match ev with
  | Cout line => exists startx starty startz, line = progress_line startx starty startz
  | _ => True
  end.

(** Chunk sizes with which the loops advance. *)
Definition positive_chunks (L : @locals double) : Prop :=
  0 < psz L /\ 0 < pszy L /\ 0 < pszx L.

(** Fuel for as many passes as an axis is long. *)
Definition enough_fuel (L : @locals double) (fuel : nat) : Prop :=
  xsz L <= Z.of_nat fuel /\ ysz L <= Z.of_nat fuel /\ zsz L <= Z.of_nat fuel.

(** The handles of the chunk that starts at [startz], and of the chunk that
    starts at [starty]. *)
Definition chunk_inh (G : @GDAL double) (L : @locals double) (startz : Z)
    : list GDALDatasetH :=
  fst <$> (open_slice G L startz <$> seqZ 0 (Z.min (psz L) (zsz L - startz))).

Definition chunk_outh (G : @GDAL double) (L : @locals double) (starty : Z)
    : list GDALDatasetH :=
  fst <$> (create_slice G L starty <$> seqZ 0 (Z.min (pszy L) (ysz L - starty))).

(** The arguments parse to the options [o]. *)
Definition parsed (G : @GDAL double) (argv : list string) (o : options) : Prop :=
  GDALGetDriverByName G "MRF" = true
  /\ 1 <= (GDALGeneralCmdLineProcessor G argv).1
  /\ parse_args (drop 1 (take (Z.to_nat (GDALGeneralCmdLineProcessor G argv).1)
                               (GDALGeneralCmdLineProcessor G argv).2))
                no_options = Some o.

End Statements.

(** ** The transposition, stated

    What it means for a run to transpose a volume [s0]: the destination
    slice [y] holds at band [c], row [z] and column [x] what the source
    slice [z] holds at band [c], row [y] and column [x]. *)

Section Transposed.

Context {double V : Type}.
Variables (G : @GDAL double) (L : @locals double) (s0 : @state V).

Definition src_slice (z : Z) : string := slice_name (SourceName L) z.
Definition dst_slice (y : Z) : string := slice_name (TargetName L) y.

(** Every open and every create succeeds, and a handle is the name it was
    obtained with. *)
Definition named_handles : Prop :=
  (forall n, GDALOpen G n = Some n)
  /\ (forall n xs ys nb t o, GDALCreate G n xs ys nb t o = Some n).

(** The store holds the slices of the source, with the extents the run
    has read from it. *)
Definition source_volume : Prop :=
  forall z, 0 <= z < zsz L ->
    exists r, datasets s0 !! src_slice z = Some r
              /\ r_xsize r = xsz L /\ r_ysize r = ysz L /\ r_count r = csz L.

(** No slice of the destination is a slice of the source. *)
Definition apart : Prop := forall z y, src_slice z <> dst_slice y.

(** On every chunk that is visited, [min(pszx, xsz - starty)] is the extent
    that remains on the X axis. *)
Definition dx_agrees : Prop :=
  forall i j, 0 <= i -> 0 <= j -> i * pszx L < xsz L -> j * pszy L < ysz L ->
    Z.min (pszx L) (xsz L - j * pszy L) = Z.min (pszx L) (xsz L - i * pszx L).

(** The voxel at [x], [y], [z] and band [c] (from 0) has arrived. *)
Definition good (st : @state V) (y z x c : Z) : Prop :=
  voxel st (dst_slice y) (c + 1) z x = voxel s0 (src_slice z) (c + 1) y x.

(** The voxels that are behind the loops when they stand at the chunk
    [sz], [sy], [sx]. *)
Definition done_upto (sz sy sx y z x : Z) : Prop :=
  (0 <= x < xsz L /\ 0 <= y < ysz L /\ 0 <= z < zsz L)
  /\ (z < sz \/ (z < sz + psz L /\ (y < sy \/ (y < sy + pszy L /\ x < sx)))).

(** The slices of the source are as they were. *)
Definition intact (st : @state V) : Prop :=
  forall z, 0 <= z < zsz L -> datasets st !! src_slice z = datasets s0 !! src_slice z.

Definition progress (sz sy sx : Z) (st : @state V) : Prop :=
  intact st
  /\ forall y z x c, done_upto sz sy sx y z x -> 0 <= c < csz L -> good st y z x c.

(** A slice that exists with the extents of the destination. *)
Definition shaped (st : @state V) (n : string) : Prop :=
  exists r, datasets st !! n = Some r
            /\ r_xsize r = xsz L /\ r_ysize r = zsz L /\ r_count r = csz L.

(** The byte offset of the element of slot [z], band [c], line [j] and
    column [i] of the buffer. *)
Definition off (z c j i : Z) : Z :=
  z_stride L * z + i * pix_stride L + j * line_stride L + c * band_stride L.

End Transposed.

(** ** The arguments and the metadata, stated *)

(** The options after a run of arguments none of which is [-z]. *)
Definition flags_of (args : list string) (o : options) : options :=
  {| o_verbose := o_verbose o || existsb (fun a => EQUAL a "-v") args;
     o_geo := o_geo o || existsb (fun a => EQUAL a "-g") args;
     o_psz := o_psz o;
     o_fnames := o_fnames o
                 ++ List.filter (fun a => negb (EQUAL a "-v" || EQUAL a "-g")) args |}.

(** The metadata entries that lines 116 to 118 leave out, and those that
    lines 124 to 129 take as free form options. *)
Definition is_dropped (s : string) : bool :=
  STARTS_WITH_CI s "ZSLICE=" || STARTS_WITH_CI s "ZSIZE=" || STARTS_WITH_CI s "V2=".

Definition is_free (s : string) : bool :=
  STARTS_WITH_CI s "V1=" || STARTS_WITH_CI s "GZ=" || STARTS_WITH_CI s "ZSTD="
  || STARTS_WITH_CI s "RAWZ=" || STARTS_WITH_CI s "DEFLATE="
  || STARTS_WITH_CI s "LERC_PREC=".

(** ** Readings of a run *)

Section Readings.

Context {double : Type}.
Implicit Types (ev : @event double) (t : list (@event double)).

(** The handles that [GDALOpen] and [GDALCreate] have returned, and the
    handles that [GDALClose] was called with, in the order of the calls. *)
Definition obtained t : list GDALDatasetH :=
  omap (fun ev => match ev with
                  | Open _ h => Some h
                  | Create _ _ _ _ _ _ h => Some h
                  | _ => None
                  end) t.

Definition closed t : list GDALDatasetH :=
  omap (fun ev => match ev with Close h => Some h | _ => None end) t.

(** The names [GDALOpen] and [GDALCreate] were called with. *)
Definition opened t : list string :=
  omap (fun ev => match ev with Open n _ => Some n | _ => None end) t.

Definition created t : list string :=
  omap (fun ev => match ev with Create n _ _ _ _ _ _ => Some n | _ => None end) t.

(** The lines a run prints on [cout], in their order. *)
Definition printed (t : list (@event double)) : list string :=
  omap (fun ev => match ev with Cout l => Some l | _ => None end) t.

(** The number of passes of a loop that goes from 0 to [bound] by
    [step]. *)
Definition passes (bound step : Z) : Z := (bound + step - 1) / step.

End Readings.


(** ** Where the events of a run come from *)

Section Origins.

Context {double : Type}.

(** How a loop can stop a run: not at all, by the exception of a vector
    of negative length, or by the fuel of the model. *)
Definition loop_result (r : option outcome) : Prop :=
  r = None \/ r = Some (Fault "std::length_error") \/ r = Some OutOfFuel.

(** The calls that georeference a slice. *)
Definition is_georef (ev : @event double) : Prop :=
  match ev with
  | SetProjection _ _ | SetGeoTransform _ _ => True
  | _ => False
  end.

(** A strided read or write. *)
Definition is_io (ev : @event double) : Prop :=
  match ev with
  | DatasetRasterIO _ _ _ _ _ _ _ _ _ _ _ _ _ _ => True
  | _ => False
  end.

(** Where the events of the chunk loops come from: the block that opens
    the source slices of a Z chunk or the calls that close them, the block
    that creates the destination slices of a Y chunk or the calls that
    close them, or the pass of the X loop for a chunk. *)
Definition from_y_chunk (G : @GDAL double) (L : @locals double)
    (startz starty : Z) (ev : @event double) : Prop :=
  let dz := Z.min (psz L) (zsz L - startz) in
  let dy := Z.min (pszy L) (ysz L - starty) in
  (exists z, 0 <= z < dy /\ ev ∈ (create_slice G L starty z).2)
  \/ (exists h, h ∈ chunk_outh G L starty /\ ev = Close h)
  \/ (exists i : nat,
        0 < xsz L /\ Z.of_nat i * pszx L < xsz L
        /\ ev ∈ (x_body L (chunk_inh G L startz) (chunk_outh G L starty)
                   starty startz dy dz (Z.of_nat i * pszx L)).1).

Definition from_z_chunk (G : @GDAL double) (L : @locals double)
    (startz : Z) (ev : @event double) : Prop :=
  let dz := Z.min (psz L) (zsz L - startz) in
  (exists z, 0 <= z < dz /\ ev ∈ (open_slice G L startz z).2)
  \/ (exists h, h ∈ chunk_inh G L startz /\ ev = Close h)
  \/ (exists j : nat,
        0 < ysz L /\ Z.of_nat j * pszy L < ysz L
        /\ 0 <= Z.min (pszy L) (ysz L - Z.of_nat j * pszy L)
        /\ from_y_chunk G L startz (Z.of_nat j * pszy L) ev).

(** The calls that are made on a slice of the destination or with the
    buffer: they are made inside the chunk loops only. *)
Definition slice_call (ev : @event double) : Prop :=
  match ev with
  | Create _ _ _ _ _ _ _ | SetRasterNoDataValue _ _ _
  | SetRasterStatistics _ _ _ _ _ _ | SetProjection _ _ | SetGeoTransform _ _
  | DatasetRasterIO _ _ _ _ _ _ _ _ _ _ _ _ _ _ => True
  | _ => False
  end.

(** The projection and the transform a slice is georeferenced with are
    those the run holds. *)
Definition georef_of (L : @locals double) (ev : @event double) : Prop :=
  match ev with
  | SetProjection _ wkt => wkt = projection L
  | SetGeoTransform _ g => g = gt L
  | _ => True
  end.



End Origins.

(** * Properties *)

(** Membership in a concrete list of events, and facts that compute. *)
Ltac in_list :=
  apply list_elem_of_In; vm_compute; repeat (first [left; reflexivity | right]).

Ltac not_in_list H :=
  apply list_elem_of_In in H; vm_compute in H;
  repeat (destruct H as [H|H]; [discriminate H|]); destruct H.

Ltac calc :=
  first [ reflexivity
        | vm_compute; reflexivity
        | vm_compute; discriminate
        | vm_compute; intros ?; discriminate ].

(** Whether a text that starts with a given literal starts with
    another. *)
Ltac known_prefix :=
  repeat match goal with
  | |- context [STARTS_WITH_CI (?p +:+ ?x) ?q] =>
      let b := eval lazy in (STARTS_WITH_CI (p +:+ x) q) in
      match b with
      | true => change (STARTS_WITH_CI (p +:+ x) q) with true
      | false => change (STARTS_WITH_CI (p +:+ x) q) with false
      end
  end.

(** ** The string helpers on small inputs *)

Example atoi_examples :
  atoi "42" = 42 /\ atoi " -7x" = -7 /\ atoi "abc" = 0 /\ atoi "" = 0 /\ atoi "0" = 0.
Proof. repeat split; reflexivity. Qed.

Example dec_examples : dec 512 = "512" /\ dec (-3) = "-3" /\ dec 0 = "0".
Proof. repeat split; vm_compute; reflexivity. Qed.

Example fetch_examples :
  CSLFetchNameValue ["COMPRESSION=LERC"; "zsize=12"] "ZSIZE" = Some "12" /\
  CSLFetchNameValue ["COMPRESSION=LERC"; "ZSIZES=12"] "ZSIZE" = None.
Proof. split; reflexivity. Qed.

(** ** Loops *)

Section LoopFacts.

Context {double : Type}.
Implicit Types (body : Z -> list (@event double) * option outcome).

Lemma for_loop_ext fuel bound step body body' start :
  (forall s, body s = body' s) ->
  for_loop fuel bound step body start = for_loop fuel bound step body' start.
Proof.
  intros E. revert start.
  induction fuel as [|fuel IH]; intros start; simpl; [done|].
  rewrite E. destruct (start <? bound); [|done].
  destruct (body' start) as [t [o|]]; [done|]. by rewrite IH.
Qed.

(** What holds of every event of every pass holds of every event of the
    loop. *)
Lemma for_loop_Forall (P : @event double -> Prop) fuel bound step body start :
  (forall s, Forall P (body s).1) ->
  Forall P (for_loop fuel bound step body start).1.
Proof.
  intros HP. revert start.
  induction fuel as [|fuel IH]; intros start; simpl;
    (destruct (start <? bound); [|constructor]); [constructor|].
  specialize (HP start). specialize (IH (start + step)).
  destruct (body start) as [t [o|]]; simpl in *; [done|].
  destruct (for_loop fuel bound step body (start + step)) as [t' r'].
  simpl in *. by apply Forall_app.
Qed.

(** Every event of the loop is an event of one of its passes. *)
Lemma for_loop_elem_inv fuel bound step body start ev :
  ev ∈ (for_loop fuel bound step body start).1 ->
  exists n : nat, start + Z.of_nat n * step < bound
                  /\ ev ∈ (body (start + Z.of_nat n * step)).1.
Proof.
  revert start.
  induction fuel as [|fuel IH]; intros start; simpl;
    (destruct (start <? bound) eqn:Hlt; [|by intros ?%elem_of_nil]);
    [by intros ?%elem_of_nil|].
  apply Z.ltb_lt in Hlt.
  specialize (IH (start + step)).
  destruct (body start) as [t r] eqn:Hb.
  assert (ev ∈ t -> exists n : nat,
             start + Z.of_nat n * step < bound
             /\ ev ∈ (body (start + Z.of_nat n * step)).1) as H0.
  { intros Hin. exists 0%nat.
    replace (start + Z.of_nat 0 * step) with start by lia.
    rewrite Hb. done. }
  destruct r as [o|]; simpl; [done|].
  destruct (for_loop fuel bound step body (start + step)) as [t' r'].
  simpl in *. intros [Hin|Hin]%elem_of_app; [by apply H0|].
  destruct (IH Hin) as (n & Hn & Hev).
  exists (S n).
  replace (start + Z.of_nat (S n) * step)
    with (start + step + Z.of_nat n * step) by lia.
  done.
Qed.

(** Every event of the loop comes from a pass all of whose events are
    events of the loop. *)
Lemma for_loop_elem_block fuel bound step body start ev :
  ev ∈ (for_loop fuel bound step body start).1 ->
  exists s, ev ∈ (body s).1 /\
    forall ev', ev' ∈ (body s).1 -> ev' ∈ (for_loop fuel bound step body start).1.
Proof.
  revert start.
  induction fuel as [|fuel IH]; intros start; simpl;
    (destruct (start <? bound); [|by intros ?%elem_of_nil]);
    [by intros ?%elem_of_nil|].
  specialize (IH (start + step)).
  destruct (body start) as [t r] eqn:Hb.
  destruct r as [o|]; simpl.
  { intros Hin. exists start. rewrite Hb. done. }
  destruct (for_loop fuel bound step body (start + step)) as [t' r'].
  simpl in *. intros [Hin|Hin]%elem_of_app.
  - exists start. rewrite Hb. split; [done|].
    intros ev' H'. apply elem_of_app. by left.
  - destruct (IH Hin) as (s & Hs & Hincl). exists s. split; [done|].
    intros ev' H'. apply elem_of_app. right. by apply Hincl.
Qed.

(** With a positive step and passes that do not stop the run, the loop
    comes to its end within [bound - start] passes. *)
Lemma for_loop_done fuel bound step body start :
  0 < step ->
  (forall s, s < bound -> (body s).2 = None) ->
  bound - start <= Z.of_nat fuel ->
  (for_loop fuel bound step body start).2 = None.
Proof.
  intros Hstep Hb. revert start.
  induction fuel as [|fuel IH]; intros start Hf; simpl;
    (destruct (start <? bound) eqn:Hlt; [|done]); apply Z.ltb_lt in Hlt; [lia|].
  specialize (Hb start Hlt). specialize (IH (start + step)).
  destruct (body start) as [t r]; simpl in *; subst r.
  destruct (for_loop fuel bound step body (start + step)) as [t' r'].
  simpl in *. apply IH. lia.
Qed.

(** The pass number [n] is reached, and its events are events of the loop. *)
Lemma for_loop_reach fuel bound step body start (n : nat) ev :
  0 < step ->
  (forall s, s < bound -> (body s).2 = None) ->
  start + Z.of_nat n * step < bound ->
  (n < fuel)%nat ->
  ev ∈ (body (start + Z.of_nat n * step)).1 ->
  ev ∈ (for_loop fuel bound step body start).1.
Proof.
  intros Hstep Hb. revert start n.
  induction fuel as [|fuel IH]; intros start n Hlt Hf Hev; simpl; [lia|].
  assert (start < bound) as Hs by nia.
  pose proof (Hb start Hs) as Hb0.
  apply Z.ltb_lt in Hs. rewrite Hs.
  destruct (body start) as [t r] eqn:Hbs; simpl in *; subst r.
  destruct (for_loop fuel bound step body (start + step)) as [t' r'] eqn:Hl.
  simpl. apply elem_of_app.
  destruct n as [|n].
  - left. replace (start + Z.of_nat 0 * step) with start in Hev by lia.
    by rewrite Hbs in Hev.
  - right. replace t' with (for_loop fuel bound step body (start + step)).1
      by (by rewrite Hl).
    apply (IH _ n); [lia|lia|].
    replace (start + step + Z.of_nat n * step)
      with (start + Z.of_nat (S n) * step) by lia.
    done.
Qed.

(** How the loop ends depends on how its passes end, not on their
    events. *)
Lemma for_loop_outcome_ext fuel bound step body body' start :
  (forall s, (body s).2 = (body' s).2) ->
  (for_loop fuel bound step body start).2 = (for_loop fuel bound step body' start).2.
Proof.
  intros E. revert start.
  induction fuel as [|fuel IH]; intros start; simpl;
    (destruct (start <? bound); [|done]); [done|].
  specialize (E start). specialize (IH (start + step)).
  destruct (body start) as [t r], (body' start) as [t' r'].
  cbn [snd] in E. subst r'. destruct r as [o|]; [done|].
  destruct (for_loop fuel bound step body (start + step)),
           (for_loop fuel bound step body' (start + step)).
  done.
Qed.

End LoopFacts.

(** ** The chunk loops, event by event *)

Section RunFacts.

Context {double : Type}.
Implicit Types (G : @GDAL double) (L : @locals double) (P : @event double -> Prop).

Lemma Forall_blocks {A} P (f : A -> GDALDatasetH * list (@event double)) (l : list A) :
  (forall x, Forall P (f x).2) -> Forall P (concat (snd <$> (f <$> l))).
Proof.
  intros H. induction l as [|x l IH]; simpl; [constructor|].
  apply Forall_app. split; [apply H|apply IH].
Qed.

Lemma Forall_closes P (l : list GDALDatasetH) :
  (forall h, P (Close h)) -> Forall P (Close <$> l).
Proof. intros H. apply Forall_fmap, Forall_forall. intros h _. apply H. Qed.

(** What holds of the events of every block of calls holds of every event of
    the three loops. *)
Lemma z_loop_Forall P G L fuel :
  (forall startz z, Forall P (open_slice G L startz z).2) ->
  (forall starty z, Forall P (create_slice G L starty z).2) ->
  (forall inh outh starty startz startx,
      Forall P (x_body L inh outh starty startz
                  (Z.min (pszy L) (ysz L - starty))
                  (Z.min (psz L) (zsz L - startz)) startx).1) ->
  (forall h, P (Close h)) ->
  Forall P (z_loop G L fuel).1.
Proof.
  intros Hopen Hcreate Hx Hclose.
  assert (forall inner inh startz, Forall P
            (y_loop G L inner inh startz (Z.min (psz L) (zsz L - startz))).1) as Hy.
  { intros inner inh startz. apply for_loop_Forall. intros starty. unfold y_body.
    destruct (_ <? 0); [constructor|].
    match goal with |- context [x_loop ?a ?b ?c ?d ?e ?f ?g ?h] =>
      assert (Forall P (x_loop a b c d e f g h).1) as Hxl
        by (apply for_loop_Forall; intros startx; apply Hx);
      destruct (x_loop a b c d e f g h) as [t_x [r|]] end;
    cbn [fst snd] in *; rewrite ?Forall_app; repeat split;
      try done; try (by apply Forall_blocks); by apply Forall_closes. }
  apply for_loop_Forall. intros startz. unfold z_body.
  destruct (_ <? 0); [constructor|].
  match goal with |- context [y_loop ?a ?b ?c ?d ?e ?f] =>
    pose proof (Hy c d e) as Hyl;
    destruct (y_loop a b c d e f) as [t_y [r|]] end;
  cbn [fst snd] in *; rewrite ?Forall_app; repeat split;
    try done; try (by apply Forall_blocks); by apply Forall_closes.
Qed.

Lemma elem_of_blocks {A} (f : A -> GDALDatasetH * list (@event double)) (l : list A) ev :
  ev ∈ concat (snd <$> (f <$> l)) <-> exists x, x ∈ l /\ ev ∈ (f x).2.
Proof.
  induction l as [|x l IH]; simpl.
  - split; [by intros ?%elem_of_nil|]. by intros (x & ?%elem_of_nil & _).
  - rewrite elem_of_app, IH. split.
    + intros [H|(y & Hy & H)]; [exists x|exists y]; split; try done.
      * apply elem_of_cons. by left.
      * apply elem_of_cons. by right.
    + intros (y & [->|Hy]%elem_of_cons & H); [by left|]. right. by exists y.
Qed.

Lemma x_loop_no_create L fuel inh outh starty startz dy dz ev :
  ev ∈ (x_loop L fuel inh outh starty startz dy dz).1 -> ~ is_create ev.
Proof.
  intros (n & _ & Hin)%for_loop_elem_inv. unfold x_body in Hin. cbn [fst] in Hin.
  apply elem_of_cons in Hin as [->|Hin]; [by intros []|].
  apply elem_of_app in Hin as [Hin|Hin];
    apply list_elem_of_fmap in Hin as (z & -> & _); by intros [].
Qed.

(** A [Create] event of a run comes with the whole block of calls that
    creates its slice. *)
Lemma create_block G L fuel ev :
  is_create ev ->
  ev ∈ (z_loop G L fuel).1 ->
  exists starty z,
    ev ∈ (create_slice G L starty z).2 /\
    forall ev', ev' ∈ (create_slice G L starty z).2 -> ev' ∈ (z_loop G L fuel).1.
Proof.
  intros Hc (startz & Hin & Hz)%for_loop_elem_block.
  unfold z_body in Hin, Hz. cbv zeta in Hin, Hz.
  destruct (_ <? 0); [by apply elem_of_nil in Hin|].
  assert (ev ∈ (y_loop G L fuel
             (fst <$> (open_slice G L startz <$>
                         seqZ 0 (Z.min (psz L) (zsz L - startz))))
             startz (Z.min (psz L) (zsz L - startz))).1
          /\ forall ev', ev' ∈ (y_loop G L fuel
             (fst <$> (open_slice G L startz <$>
                         seqZ 0 (Z.min (psz L) (zsz L - startz))))
             startz (Z.min (psz L) (zsz L - startz))).1 ->
             ev' ∈ (z_loop G L fuel).1) as [Hy Hyz].
  { destruct (y_loop _ _ _ _ _ _) as [t_y [r|]]; cbn [fst] in *.
    - split.
      + apply elem_of_app in Hin as [Hin|Hin]; [|done].
        apply elem_of_blocks in Hin as (z & _ & Hin). cbn in Hin.
        apply list_elem_of_singleton in Hin. subst ev. destruct Hc.
      + intros ev' H'. apply Hz, elem_of_app. by right.
    - split.
      + apply elem_of_app in Hin as [Hin|Hin].
        { apply elem_of_blocks in Hin as (z & _ & Hin). cbn in Hin.
          apply list_elem_of_singleton in Hin. subst ev. destruct Hc. }
        apply elem_of_app in Hin as [Hin|Hin]; [done|].
        apply list_elem_of_fmap in Hin as (h & -> & _). destruct Hc.
      + intros ev' H'. apply Hz, elem_of_app. right. apply elem_of_app. by left. }
  clear Hin Hz.
  apply for_loop_elem_block in Hy as (starty & Hin & Hy).
  unfold y_body in Hin, Hy. cbv zeta in Hin, Hy.
  destruct (_ <? 0); [by apply elem_of_nil in Hin|].
  exists starty.
  destruct (x_loop _ _ _ _ _ _ _ _) as [t_x r] eqn:Hx.
  assert (ev ∉ t_x) as Hnx.
  { intros H. eapply x_loop_no_create; [|exact Hc]. rewrite Hx. exact H. }
  assert (ev ∈ concat (snd <$> (create_slice G L starty <$>
             seqZ 0 (Z.min (pszy L) (ysz L - starty))))) as Hcr.
  { destruct r as [r|]; cbn [fst] in Hin;
      apply elem_of_app in Hin as [Hin|Hin]; try done.
    apply elem_of_app in Hin as [Hin|Hin]; [done|].
    apply list_elem_of_fmap in Hin as (h & -> & _). destruct Hc. }
  pose proof Hcr as Hcr'.
  apply elem_of_blocks in Hcr' as (z & Hzin & Hev).
  exists z. split; [done|].
  intros ev' H'. apply Hyz, Hy.
  assert (ev' ∈ concat (snd <$> (create_slice G L starty <$>
             seqZ 0 (Z.min (pszy L) (ysz L - starty))))) as H''.
  { apply elem_of_blocks. by exists z. }
  destruct r as [r|]; cbn [fst]; apply elem_of_app; by left.
Qed.

Lemma Usage_Forall P message retcode :
  (forall l, P (Cerr l)) -> Forall P (@Usage double message retcode).1.
Proof.
  intros H. unfold Usage. simpl. apply Forall_app. split.
  - destruct message; repeat constructor; apply H.
  - repeat constructor; apply H.
Qed.

Lemma transpose_Forall P G L fuel :
  (forall l, P (Cerr l)) ->
  (forall l, P (Cout l)) ->
  Forall P (z_loop G L fuel).1 ->
  Forall P (transpose G L fuel).1.
Proof.
  intros Herr Hout Hz. unfold transpose.
  destruct (negb _).
  - pose proof (Usage_Forall P
      (Some ("Failed to allocate buffer of size " +:+ dec (BSZ L))) 3 Herr) as HU.
    destruct (Usage _ _) as [t r]. exact HU.
  - destruct (z_loop G L fuel) as [t r]. simpl in *.
    apply Forall_app. split; [|done].
    destruct (verbose L); repeat constructor. apply Hout.
Qed.

Lemma transpose_trace G L fuel :
  (transpose G L fuel).1 =
  if malloc G (BSZ L) then
    (if verbose L then [Cout ("Using an " +:+ dec (BSZ L) +:+ " sized buffer")] else [])
    ++ (z_loop G L fuel).1
  else (Usage (Some ("Failed to allocate buffer of size " +:+ dec (BSZ L))) 3).1.
Proof.
  unfold transpose. destruct (malloc G (BSZ L)); cbn [negb].
  - by destruct (z_loop G L fuel).
  - by destruct (Usage _ _).
Qed.

Lemma create_in_transpose G L fuel ev :
  is_create ev ->
  ev ∈ (transpose G L fuel).1 ->
  malloc G (BSZ L) = true /\ ev ∈ (z_loop G L fuel).1.
Proof.
  intros Hc. rewrite transpose_trace. destruct (malloc G (BSZ L)).
  - intros [Hin|Hin]%elem_of_app; [|done].
    destruct (verbose L); [|by apply elem_of_nil in Hin].
    apply list_elem_of_singleton in Hin. subst ev. destruct Hc.
  - intros Hin. exfalso.
    pose proof (Usage_Forall (fun ev => ~ is_create ev)
      (Some ("Failed to allocate buffer of size " +:+ dec (BSZ L))) 3) as HU.
    rewrite Forall_forall in HU. eapply HU; [|exact Hin|exact Hc].
    intros l [].
Qed.

Lemma z_loop_in_transpose G L fuel ev :
  malloc G (BSZ L) = true ->
  ev ∈ (z_loop G L fuel).1 -> ev ∈ (transpose G L fuel).1.
Proof.
  intros Hm Hin. rewrite transpose_trace, Hm. apply elem_of_app. by right.
Qed.

(** *** The windows and the buffer *)

(** The extents every call of a run is made with.  The width of a read
    follows the row it starts at, not the column. *)
Lemma extents_of_run G L fuel :
  Forall (code_extents L) (transpose G L fuel).1.
Proof.
  apply transpose_Forall; [done|done|].
  apply z_loop_Forall.
  - intros. repeat constructor.
  - intros. unfold create_slice. cbn [snd].
    destruct (nodata L), (stats L) as [[[[? ?] ?] ?]|], (geo L);
      repeat constructor.
  - intros. unfold x_body. cbn [fst]. constructor; [done|].
    apply Forall_app. split; apply Forall_fmap, Forall_forall; intros z _; cbn; done.
  - done.
Qed.


(** *** The size of the buffer *)

Lemma to_size_t_mul a b :
  to_size_t (to_size_t a * to_size_t b) = to_size_t (a * b).
Proof. unfold to_size_t. by rewrite <- Z.mul_mod by (vm_compute; discriminate). Qed.

Lemma BSZ_wraps L :
  BSZ L = (csz L * psz L * pszy L * pszx L * dtsz L) mod 2 ^ 64.
Proof.
  unfold BSZ.
  rewrite (to_size_t_mul (csz L) (psz L)).
  rewrite (to_size_t_mul (csz L * psz L) (pszy L)).
  rewrite (to_size_t_mul (csz L * psz L * pszy L) (pszx L)).
  by rewrite (to_size_t_mul (csz L * psz L * pszy L * pszx L) (dtsz L)).
Qed.


(** With a negative page size, and strides and a band count that fit an
    [int], the size that is asked of [malloc] is at least [2^63]. *)
Lemma BSZ_negative_psz L :
  psz L < 0 -> 0 < pszy L -> 0 < pszx L -> 0 < dtsz L ->
  0 < csz L < 2 ^ 31 -> - 2 ^ 31 <= band_stride L ->
  2 ^ 63 <= BSZ L.
Proof.
  unfold band_stride, z_stride, line_stride, pix_stride.
  intros Hz Hy Hx He Hc Hb. rewrite BSZ_wraps.
  set (K := - (psz L * (pszy L * (pszx L * dtsz L)))) in *.
  assert (0 < K <= 2 ^ 31) as HK by (unfold K; nia).
  replace (csz L * psz L * pszy L * pszx L * dtsz L)
    with (2 ^ 64 - csz L * K + (-1) * 2 ^ 64) by (unfold K; lia).
  rewrite Z_mod_plus_full, Z.mod_small; nia.
Qed.

(** *** Termination and the shape of a pass *)

Lemma x_loop_done L fuel inh outh starty startz dy dz :
  0 < pszx L -> xsz L <= Z.of_nat fuel ->
  (x_loop L fuel inh outh starty startz dy dz).2 = None.
Proof. intros Hp Hf. apply for_loop_done; [done|done|lia]. Qed.

Lemma y_body_pass G L fuel inh startz dz starty :
  0 < pszx L -> 0 <= pszy L -> xsz L <= Z.of_nat fuel -> starty <= ysz L ->
  y_body G L fuel inh startz dz starty =
  (concat (snd <$> (create_slice G L starty <$>
                      seqZ 0 (Z.min (pszy L) (ysz L - starty))))
   ++ (x_loop L fuel inh (chunk_outh G L starty) starty startz
         (Z.min (pszy L) (ysz L - starty)) dz).1
   ++ (Close <$> chunk_outh G L starty),
   None).
Proof.
  intros Hx Hy Hf Hs. unfold y_body, chunk_outh.
  destruct (_ <? 0) eqn:Hneg; [apply Z.ltb_lt in Hneg; lia|].
  match goal with |- context [x_loop ?a ?b ?c ?d ?e ?f ?g ?h] =>
    pose proof (x_loop_done a b c d e f g h Hx Hf) as Hd;
    destruct (x_loop a b c d e f g h) as [t_x r] end.
  cbn [fst snd] in *. by subst r.
Qed.

Lemma y_loop_done G L fuel inh startz dz :
  0 < pszx L -> 0 < pszy L ->
  xsz L <= Z.of_nat fuel -> ysz L <= Z.of_nat fuel ->
  (y_loop G L fuel inh startz dz).2 = None.
Proof.
  intros Hx Hy Hfx Hfy. apply for_loop_done; [done| |lia].
  intros s Hs. rewrite y_body_pass; [done|done|lia|done|lia].
Qed.

Lemma z_body_pass G L fuel startz :
  positive_chunks L -> enough_fuel L fuel -> startz <= zsz L ->
  z_body G L fuel startz =
  (concat (snd <$> (open_slice G L startz <$>
                      seqZ 0 (Z.min (psz L) (zsz L - startz))))
   ++ (y_loop G L fuel (chunk_inh G L startz) startz
         (Z.min (psz L) (zsz L - startz))).1
   ++ (Close <$> chunk_inh G L startz),
   None).
Proof.
  intros (Hz & Hy & Hx) (Hfx & Hfy & Hfz) Hs. unfold z_body, chunk_inh.
  destruct (_ <? 0) eqn:Hneg; [apply Z.ltb_lt in Hneg; lia|].
  match goal with |- context [y_loop ?a ?b ?c ?d ?e ?f] =>
    pose proof (y_loop_done a b c d e f Hx Hy Hfx Hfy) as Hd;
    destruct (y_loop a b c d e f) as [t_y r] end.
  cbn [fst snd] in *. by subst r.
Qed.

Lemma z_loop_done G L fuel :
  positive_chunks L -> enough_fuel L fuel -> (z_loop G L fuel).2 = None.
Proof.
  intros Hp Hf. apply for_loop_done; [apply Hp| |destruct Hf as (_ & _ & ?); lia].
  intros s Hs. rewrite z_body_pass; [done|done|done|lia].
Qed.

(** With positive chunk sizes a run ends, and the only thing that can go
    wrong on the way is the allocation of the buffer. *)
Lemma transpose_outcome G L fuel :
  positive_chunks L -> enough_fuel L fuel ->
  (transpose G L fuel).2 = if malloc G (BSZ L) then Exit 0 else Exit 3.
Proof.
  intros Hp Hf. unfold transpose.
  destruct (malloc G (BSZ L)); cbn [negb].
  - pose proof (z_loop_done G L fuel Hp Hf) as Hd.
    destruct (z_loop G L fuel) as [t r]. cbn [snd] in *. by subst r.
  - done.
Qed.

(** *** The calls of a chunk are calls of the run *)

Section Reach.

Variables (G : @GDAL double) (L : @locals double) (fuel : nat).
Hypothesis Hpos : positive_chunks L.
Hypothesis Hfuel : enough_fuel L fuel.

Lemma pass_in_fuel (n : nat) step bound :
  0 < step -> Z.of_nat n * step < bound -> bound <= Z.of_nat fuel -> (n < fuel)%nat.
Proof. intros. nia. Qed.

(** The chunk of the Z loop number [k]. *)
Lemma z_chunk_in_run (k : nat) ev :
  Z.of_nat k * psz L < zsz L ->
  ev ∈ (z_body G L fuel (Z.of_nat k * psz L)).1 ->
  ev ∈ (z_loop G L fuel).1.
Proof.
  destruct Hpos as (Hz & Hy & Hx). destruct Hfuel as (Hfx & Hfy & Hfz).
  intros Hk Hev. unfold z_loop.
  apply (for_loop_reach _ _ _ _ _ k); [done| |lia| |done].
  - intros s Hs. rewrite z_body_pass; [done|done|done|lia].
  - by apply (pass_in_fuel k (psz L) (zsz L)).
Qed.

(** The chunk of the Y loop number [j], inside the Z chunk number [k]. *)
Lemma y_chunk_in_run (k j : nat) ev :
  Z.of_nat k * psz L < zsz L ->
  Z.of_nat j * pszy L < ysz L ->
  ev ∈ (y_body G L fuel (chunk_inh G L (Z.of_nat k * psz L)) (Z.of_nat k * psz L)
          (Z.min (psz L) (zsz L - Z.of_nat k * psz L)) (Z.of_nat j * pszy L)).1 ->
  ev ∈ (z_loop G L fuel).1.
Proof.
  destruct Hpos as (Hz & Hy & Hx). destruct Hfuel as (Hfx & Hfy & Hfz).
  intros Hk Hj Hev. apply (z_chunk_in_run k); [done|].
  rewrite z_body_pass; [|done|done|lia]. cbn [fst].
  apply elem_of_app. right. apply elem_of_app. left.
  unfold y_loop.
  apply (for_loop_reach _ _ _ _ _ j); [done| |lia| |done].
  - intros s Hs. rewrite y_body_pass; [done|done|lia|done|lia].
  - by apply (pass_in_fuel j (pszy L) (ysz L)).
Qed.

(** The chunk of the X loop number [i], inside the Y chunk number [j] and
    the Z chunk number [k]. *)
Lemma x_chunk_in_run (k j i : nat) ev :
  Z.of_nat k * psz L < zsz L ->
  Z.of_nat j * pszy L < ysz L ->
  Z.of_nat i * pszx L < xsz L ->
  ev ∈ (x_body L (chunk_inh G L (Z.of_nat k * psz L))
          (chunk_outh G L (Z.of_nat j * pszy L))
          (Z.of_nat j * pszy L) (Z.of_nat k * psz L)
          (Z.min (pszy L) (ysz L - Z.of_nat j * pszy L))
          (Z.min (psz L) (zsz L - Z.of_nat k * psz L))
          (Z.of_nat i * pszx L)).1 ->
  ev ∈ (z_loop G L fuel).1.
Proof.
  destruct Hpos as (Hz & Hy & Hx). destruct Hfuel as (Hfx & Hfy & Hfz).
  intros Hk Hj Hi Hev. apply (y_chunk_in_run k j); [done|done|].
  rewrite y_body_pass; [|done|lia|done|lia]. cbn [fst].
  apply elem_of_app. right. apply elem_of_app. left.
  unfold x_loop.
  apply (for_loop_reach _ _ _ _ _ i); [done|done|lia| |done].
  by apply (pass_in_fuel i (pszx L) (xsz L)).
Qed.

(** The same, with the chunks numbered in [Z]. *)
Lemma z_chunk_of (k : Z) ev :
  0 <= k -> k * psz L < zsz L ->
  ev ∈ (z_body G L fuel (k * psz L)).1 ->
  ev ∈ (z_loop G L fuel).1.
Proof.
  intros H0. rewrite <- (Z2Nat.id k H0). apply z_chunk_in_run.
Qed.

Lemma y_chunk_of (k j : Z) ev :
  0 <= k -> 0 <= j ->
  k * psz L < zsz L -> j * pszy L < ysz L ->
  ev ∈ (y_body G L fuel (chunk_inh G L (k * psz L)) (k * psz L)
          (Z.min (psz L) (zsz L - k * psz L)) (j * pszy L)).1 ->
  ev ∈ (z_loop G L fuel).1.
Proof.
  intros Hk Hj. rewrite <- (Z2Nat.id k Hk), <- (Z2Nat.id j Hj).
  apply y_chunk_in_run.
Qed.

Lemma x_chunk_of (k j i : Z) ev :
  0 <= k -> 0 <= j -> 0 <= i ->
  k * psz L < zsz L -> j * pszy L < ysz L -> i * pszx L < xsz L ->
  ev ∈ (x_body L (chunk_inh G L (k * psz L)) (chunk_outh G L (j * pszy L))
          (j * pszy L) (k * psz L)
          (Z.min (pszy L) (ysz L - j * pszy L))
          (Z.min (psz L) (zsz L - k * psz L))
          (i * pszx L)).1 ->
  ev ∈ (z_loop G L fuel).1.
Proof.
  intros Hk Hj Hi.
  rewrite <- (Z2Nat.id k Hk), <- (Z2Nat.id j Hj), <- (Z2Nat.id i Hi).
  apply x_chunk_in_run.
Qed.

End Reach.

(** *** The handles a chunk works with *)

Lemma at_index_fmap (f : Z -> GDALDatasetH * list (@event double)) start n z :
  0 <= z < n ->
  at_index (fst <$> (f <$> seqZ start n)) z = (f (start + z)).1.
Proof.
  intros Hz. unfold at_index.
  rewrite !list_lookup_fmap, lookup_seqZ_lt by lia.
  cbn. by rewrite Z2Nat.id by lia.
Qed.

Lemma at_index_opened G L startz z :
  0 <= z < Z.min (psz L) (zsz L - startz) ->
  at_index (chunk_inh G L startz) z = GDALOpen G (slice_name (SourceName L) (startz + z)).
Proof.
  intros Hz. unfold chunk_inh.
  rewrite (at_index_fmap (open_slice G L startz)) by done.
  by rewrite Z.add_0_l.
Qed.

Lemma at_index_created G L starty z :
  0 <= z < Z.min (pszy L) (ysz L - starty) ->
  at_index (chunk_outh G L starty) z =
  GDALCreate G (slice_name (TargetName L) (starty + z))
    (xsz L) (zsz L) (csz L) (dt L) (copt L).
Proof.
  intros Hz. unfold chunk_outh.
  rewrite (at_index_fmap (create_slice G L starty)) by done.
  by rewrite Z.add_0_l.
Qed.

(** An index and the chunk it falls in. *)
Lemma chunk_of_index n step bound :
  0 < step -> 0 <= n < bound ->
  0 <= n / step /\ n / step * step < bound
  /\ n / step * step + n mod step = n
  /\ 0 <= n mod step < Z.min step (bound - n / step * step).
Proof.
  intros Hs Hn.
  pose proof (Z.div_mod n step ltac:(lia)).
  pose proof (Z.mod_pos_bound n step Hs).
  pose proof (Z.div_pos n step ltac:(lia) Hs).
  repeat split; nia.
Qed.

(** *** Every slice handle is used as it was returned *)

(** Whatever [GDALOpen] returns for the source slice [k] is recorded, read
    from in the first X and Y chunk, and closed; whatever [GDALCreate]
    returns for the destination slice [y] is recorded, written to in the
    first X and Z chunk, and closed. *)
Lemma handles_in_run G L fuel (k y : Z) :
  positive_chunks L -> enough_fuel L fuel ->
  0 < xsz L -> 0 <= k < zsz L -> 0 <= y < ysz L ->
  let T := (z_loop G L fuel).1 in
  let h_in := GDALOpen G (slice_name (SourceName L) k) in
  let h_out := GDALCreate G (slice_name (TargetName L) y)
                 (xsz L) (zsz L) (csz L) (dt L) (copt L) in
  (Open (slice_name (SourceName L) k) h_in ∈ T
   /\ read_call L h_in 0 0 (Z.min (pszx L) (xsz L)) (Z.min (pszy L) (ysz L))
                 (k mod psz L) ∈ T
   /\ Close h_in ∈ T)
  /\ (Create (slice_name (TargetName L) y) (xsz L) (zsz L) (csz L) (dt L) (copt L)
              h_out ∈ T
      /\ write_call L h_out 0 0 (Z.min (pszx L) (xsz L - y / pszy L * pszy L))
                     (Z.min (psz L) (zsz L)) (y mod pszy L) ∈ T
      /\ Close h_out ∈ T).
Proof.
  intros Hpos Hfuel Hx Hk Hy. cbv zeta.
  pose proof Hpos as (Hpz & Hpy & Hpx).
  destruct (chunk_of_index k (psz L) (zsz L) Hpz Hk) as (Hk0 & Hk1 & Hk2 & Hk3).
  destruct (chunk_of_index y (pszy L) (ysz L) Hpy Hy) as (Hy0 & Hy1 & Hy2 & Hy3).
  split; [split; [|split]|split; [|split]].
  - apply (z_chunk_of G L fuel Hpos Hfuel (k / psz L)); [done|done|].
    rewrite z_body_pass; [|done|done|lia]. cbn [fst].
    apply elem_of_app. left. apply elem_of_blocks.
    exists (k mod psz L). split; [apply elem_of_seqZ; lia|].
    unfold open_slice. cbn [snd]. rewrite Hk2. apply list_elem_of_singleton. done.
  - apply (x_chunk_of G L fuel Hpos Hfuel (k / psz L) 0 0); try lia.
    unfold x_body. cbn [fst].
    apply elem_of_cons. right. apply elem_of_app. left.
    unfold read_cublock. apply list_elem_of_fmap.
    exists (k mod psz L). split; [|apply elem_of_seqZ; lia].
    rewrite at_index_opened by lia. rewrite Hk2.
    unfold read_call. f_equal; lia.
  - apply (z_chunk_of G L fuel Hpos Hfuel (k / psz L)); [done|done|].
    rewrite z_body_pass; [|done|done|lia]. cbn [fst].
    apply elem_of_app. right. apply elem_of_app. right.
    apply list_elem_of_fmap_2.
    rewrite <- Hk2 at 1. rewrite <- at_index_opened by lia.
    unfold at_index.
    destruct (chunk_inh G L (k / psz L * psz L) !! Z.to_nat (k mod psz L))
      as [h|] eqn:Hl.
    + cbn. by apply list_elem_of_lookup_2 in Hl.
    + apply lookup_ge_None in Hl. unfold chunk_inh in Hl.
      rewrite !length_fmap, length_seqZ in Hl. lia.
  - apply (y_chunk_of G L fuel Hpos Hfuel 0 (y / pszy L)); try lia.
    rewrite y_body_pass; [|done|lia| apply Hfuel |lia]. cbn [fst].
    apply elem_of_app. left. apply elem_of_blocks.
    exists (y mod pszy L). split; [apply elem_of_seqZ; lia|].
    unfold create_slice. cbn [snd]. rewrite Hy2. apply elem_of_cons. by left.
  - apply (x_chunk_of G L fuel Hpos Hfuel 0 (y / pszy L) 0); try lia.
    unfold x_body. cbn [fst].
    apply elem_of_cons. right. apply elem_of_app. right.
    unfold write_cublock. apply list_elem_of_fmap.
    exists (y mod pszy L). split; [|apply elem_of_seqZ; lia].
    rewrite at_index_created by lia. rewrite Hy2.
    unfold write_call. f_equal; lia.
  - apply (y_chunk_of G L fuel Hpos Hfuel 0 (y / pszy L)); try lia.
    rewrite y_body_pass; [|done|lia| apply Hfuel |lia]. cbn [fst].
    apply elem_of_app. right. apply elem_of_app. right.
    apply list_elem_of_fmap_2.
    rewrite <- Hy2 at 1. rewrite <- at_index_created by lia.
    unfold at_index.
    destruct (chunk_outh G L (y / pszy L * pszy L) !! Z.to_nat (y mod pszy L))
      as [h|] eqn:Hl.
    + cbn. by apply list_elem_of_lookup_2 in Hl.
    + apply lookup_ge_None in Hl. unfold chunk_outh in Hl.
      rewrite !length_fmap, length_seqZ in Hl. lia.
Qed.

(** *** The handles do not steer the run *)

Lemma y_loop_outcome_ext G G' L fuel inh inh' startz dz :
  (y_loop G L fuel inh startz dz).2 = (y_loop G' L fuel inh' startz dz).2.
Proof.
  apply for_loop_outcome_ext. intros starty. unfold y_body.
  destruct (_ <? 0); [done|].
  match goal with
  | |- context [x_loop L fuel inh ?o ?a ?b ?c ?d] =>
      match goal with
      | |- context [x_loop L fuel inh' ?o' a b c d] =>
          assert ((x_loop L fuel inh o a b c d).2 = (x_loop L fuel inh' o' a b c d).2)
            as E by (by apply for_loop_outcome_ext);
          destruct (x_loop L fuel inh o a b c d) as [t r],
                   (x_loop L fuel inh' o' a b c d) as [t' r']
      end
  end.
  cbn [snd] in E. subst r'. by destruct r.
Qed.

Lemma z_loop_outcome_ext G G' L fuel :
  (z_loop G L fuel).2 = (z_loop G' L fuel).2.
Proof.
  apply for_loop_outcome_ext. intros startz. unfold z_body.
  destruct (_ <? 0); [done|].
  match goal with
  | |- context [y_loop G L fuel ?i ?a ?b] =>
      match goal with
      | |- context [y_loop G' L fuel ?i' a b] =>
          pose proof (y_loop_outcome_ext G G' L fuel i i' a b) as E;
          destruct (y_loop G L fuel i a b) as [t r],
                   (y_loop G' L fuel i' a b) as [t' r']
      end
  end.
  cbn [snd] in E. subst r'. by destruct r.
Qed.

(** Whatever the opens and the creates return, a run ends the same way. *)
Lemma outcome_ignores_handles G G' L fuel :
  malloc G' (BSZ L) = malloc G (BSZ L) ->
  (transpose G' L fuel).2 = (transpose G L fuel).2.
Proof.
  intros Hm. unfold transpose. rewrite Hm.
  destruct (malloc G (BSZ L)); cbn [negb]; [|done].
  pose proof (z_loop_outcome_ext G G' L fuel) as E.
  destruct (z_loop G L fuel) as [t r], (z_loop G' L fuel) as [t' r'].
  cbn [snd] in *. by subst r'.
Qed.

(** *** From [main] to the loops *)

Lemma main_parsed of_int fmul fdiv G fuel argv o src tgt :
  parsed G argv o -> o_fnames o = [src; tgt] ->
  main of_int fmul fdiv G fuel argv = convert of_int fmul fdiv G fuel o src tgt.
Proof.
  intros (Hd & Hn & Hp) Hf. unfold main. rewrite Hd. cbn [negb].
  destruct (GDALGeneralCmdLineProcessor G argv) as [nArgc argv'].
  cbn [fst snd] in *.
  destruct (nArgc <? 1) eqn:Hlt; [apply Z.ltb_lt in Hlt; lia|].
  by rewrite Hp, Hf.
Qed.

End RunFacts.

(** ** The store

    What a strided read and a strided write leave in the buffer and in a
    raster. *)

Section StoreFacts.
Context {double V : Type}.
Implicit Types (st : @state V) (ev : @event double).

Lemma lookup_put {K} `{Countable K} (k k' : K) (v : option V) (m : gmap K V) :
  put k v m !! k' = if decide (k = k') then v else m !! k'.
Proof.
  unfold put. destruct v as [x|].
  - rewrite lookup_insert. by case_decide.
  - rewrite lookup_delete. by case_decide.
Qed.

(** A fold of [put]s leaves at a key the value that was put there, when no
    other value was put at the same key. *)
Lemma foldl_put_in {K A} `{Countable K} (key : A -> K) (val : A -> option V)
    (l : list A) (m : gmap K V) (a : A) :
  a ∈ l ->
  (forall a', a' ∈ l -> key a' = key a -> val a' = val a) ->
  foldl (fun m a => put (key a) (val a) m) m l !! key a = val a.
Proof.
  induction l as [|b l IH] using rev_ind; [by intros ?%elem_of_nil|].
  intros Hin Hsame. rewrite foldl_snoc, lookup_put.
  case_decide as E.
  - apply Hsame; [|done]. apply elem_of_app. right. by apply list_elem_of_singleton.
  - apply IH.
    + apply elem_of_app in Hin as [?|Hb]; [done|].
      apply list_elem_of_singleton in Hb. by subst.
    + intros a' Ha'. apply Hsame. apply elem_of_app. by left.
Qed.

Lemma foldl_put_notin {K A} `{Countable K} (key : A -> K) (val : A -> option V)
    (l : list A) (m : gmap K V) (k : K) :
  (forall a, a ∈ l -> key a <> k) ->
  foldl (fun m a => put (key a) (val a) m) m l !! k = m !! k.
Proof.
  induction l as [|b l IH] using rev_ind; [done|].
  intros Hn. rewrite foldl_snoc, lookup_put.
  case_decide as E.
  - exfalso. apply (Hn b); [|done]. apply elem_of_app. right.
    by apply list_elem_of_singleton.
  - apply IH. intros a Ha. apply Hn. apply elem_of_app. by left.
Qed.

(** The elements of a window. *)
Lemma elem_of_window_cells nbands ysize xsize c j i :
  (c, j, i) ∈ window_cells nbands ysize xsize <->
  0 <= c < nbands /\ 0 <= j < ysize /\ 0 <= i < xsize.
Proof.
  unfold window_cells.
  rewrite list_elem_of_bind. setoid_rewrite list_elem_of_bind.
  setoid_rewrite list_elem_of_bind. setoid_rewrite list_elem_of_ret.
  setoid_rewrite elem_of_seqZ. split.
  - intros (c' & (j' & (i' & E & Hi) & Hj) & Hc). inversion E; subst. lia.
  - intros (Hc & Hj & Hi). exists c. split; [|lia]. exists j. split; [|lia].
    exists i. split; [done|lia].
Qed.

Lemma foldl_ext {A B} (f g : A -> B -> A) (l : list B) (a : A) :
  (forall x y, f x y = g x y) -> foldl f a l = foldl g a l.
Proof.
  intros E. revert a. induction l as [|y l IH]; intros a; simpl; [done|].
  by rewrite E, IH.
Qed.

(** What a strided read leaves in the buffer. *)
Lemma read_window_in (r : @raster V) xoff yoff xsize ysize buf nbands pix line band b c j i :
  0 <= c < nbands -> 0 <= j < ysize -> 0 <= i < xsize ->
  (forall c' j' i', 0 <= c' < nbands -> 0 <= j' < ysize -> 0 <= i' < xsize ->
     buf + i' * pix + j' * line + c' * band = buf + i * pix + j * line + c * band ->
     c' = c /\ j' = j /\ i' = i) ->
  read_window r xoff yoff xsize ysize buf nbands pix line band b
    !! (buf + i * pix + j * line + c * band)
  = r_cells r !! (c + 1, yoff + j, xoff + i).
Proof.
  intros Hc Hj Hi Hinj. unfold read_window.
  set (key := fun a : Z * Z * Z => let '(c, j, i) := a in buf + i * pix + j * line + c * band).
  set (val := fun a : Z * Z * Z =>
                let '(c, j, i) := a in r_cells r !! (c + 1, yoff + j, xoff + i)).
  rewrite (foldl_ext _ (fun b a => put (key a) (val a) b)) by (by intros ? [[? ?] ?]).
  apply (foldl_put_in key val _ _ (c, j, i)).
  - by apply elem_of_window_cells.
  - intros [[c' j'] i'] Hin E. apply elem_of_window_cells in Hin as (? & ? & ?).
    destruct (Hinj c' j' i') as (-> & -> & ->); done.
Qed.

Lemma read_window_notin (r : @raster V) xoff yoff xsize ysize buf nbands pix line band b k :
  (forall c j i, 0 <= c < nbands -> 0 <= j < ysize -> 0 <= i < xsize ->
     buf + i * pix + j * line + c * band <> k) ->
  read_window r xoff yoff xsize ysize buf nbands pix line band b !! k = b !! k.
Proof.
  intros Hn. unfold read_window.
  set (key := fun a : Z * Z * Z => let '(c, j, i) := a in buf + i * pix + j * line + c * band).
  set (val := fun a : Z * Z * Z =>
                let '(c, j, i) := a in r_cells r !! (c + 1, yoff + j, xoff + i)).
  rewrite (foldl_ext _ (fun b a => put (key a) (val a) b)) by (by intros ? [[? ?] ?]).
  apply (foldl_put_notin key val).
  intros [[c j] i] Hin. apply elem_of_window_cells in Hin as (? & ? & ?). by apply Hn.
Qed.

(** What a strided write leaves in the raster. *)
Lemma write_window_in (b : gmap Z V) xoff yoff xsize ysize buf nbands pix line band
    (r : @raster V) c j i :
  0 <= c < nbands -> 0 <= j < ysize -> 0 <= i < xsize ->
  r_cells (write_window b xoff yoff xsize ysize buf nbands pix line band r)
    !! (c + 1, yoff + j, xoff + i)
  = b !! (buf + i * pix + j * line + c * band).
Proof.
  intros Hc Hj Hi. unfold write_window. cbn [r_cells].
  set (key := fun a : Z * Z * Z => let '(c, j, i) := a in (c + 1, yoff + j, xoff + i)).
  set (val := fun a : Z * Z * Z =>
                let '(c, j, i) := a in b !! (buf + i * pix + j * line + c * band)).
  rewrite (foldl_ext _ (fun m a => put (key a) (val a) m)) by (by intros ? [[? ?] ?]).
  apply (foldl_put_in key val _ _ (c, j, i)).
  - by apply elem_of_window_cells.
  - intros [[c' j'] i'] Hin E. inversion E.
    by replace c' with c by lia; replace j' with j by lia; replace i' with i by lia.
Qed.

Lemma write_window_notin (b : gmap Z V) xoff yoff xsize ysize buf nbands pix line band
    (r : @raster V) (k : Z * Z * Z) :
  (forall c j i, 0 <= c < nbands -> 0 <= j < ysize -> 0 <= i < xsize ->
     (c + 1, yoff + j, xoff + i) <> k) ->
  r_cells (write_window b xoff yoff xsize ysize buf nbands pix line band r) !! k
  = r_cells r !! k.
Proof.
  intros Hn. unfold write_window. cbn [r_cells].
  set (key := fun a : Z * Z * Z => let '(c, j, i) := a in (c + 1, yoff + j, xoff + i)).
  set (val := fun a : Z * Z * Z =>
                let '(c, j, i) := a in b !! (buf + i * pix + j * line + c * band)).
  rewrite (foldl_ext _ (fun m a => put (key a) (val a) m)) by (by intros ? [[? ?] ?]).
  apply (foldl_put_notin key val).
  intros [[c j] i] Hin. apply elem_of_window_cells in Hin as (? & ? & ?). by apply Hn.
Qed.

(** Mixed radix: a digit and the rest. *)
Lemma digit_inj n a q a' q' :
  0 <= a < n -> 0 <= a' < n -> a + n * q = a' + n * q' -> a = a' /\ q = q'.
Proof.
  intros Ha Ha' E.
  assert (q = q') as -> by (destruct (Z.lt_trichotomy q q') as [?|[?|?]]; nia).
  split; [lia|done].
Qed.

(** Offsets in a buffer of full chunks name their element. *)
Lemma offset_inj e px py pz z c j i z' c' j' i' :
  0 < e ->
  0 <= i < px -> 0 <= i' < px -> 0 <= j < py -> 0 <= j' < py ->
  0 <= z < pz -> 0 <= z' < pz ->
  py * (px * e) * z + i * e + j * (px * e) + c * (pz * (py * (px * e)))
  = py * (px * e) * z' + i' * e + j' * (px * e) + c' * (pz * (py * (px * e))) ->
  z' = z /\ c' = c /\ j' = j /\ i' = i.
Proof.
  intros He Hi Hi' Hj Hj' Hz Hz' E.
  assert (e * (i + px * (j + py * (z + pz * c)))
          = e * (i' + px * (j' + py * (z' + pz * c')))) as E0 by lia.
  apply Z.mul_cancel_l in E0; [|lia].
  apply digit_inj in E0 as [-> E0]; [|done|done].
  apply digit_inj in E0 as [-> E0]; [|done|done].
  apply digit_inj in E0 as [-> ->]; done.
Qed.

End StoreFacts.


(** ** The transposition

    The run transposes the volume whenever the X extent of line 221 is the
    extent that remains on the X axis. *)

Section Transposition.

Context {double V : Type}.
Variables (G : @GDAL double) (L : @locals double) (s0 : @state V).
Implicit Types (st : @state V).

Hypothesis Hnamed : named_handles G.
Hypothesis Hsrc : source_volume L s0.
Hypothesis Hapart : apart L.
Hypothesis Hpos : positive_chunks L.
Hypothesis Hesz : 0 < dtsz L.

(** The events of a trace take effect one after the other. *)
Lemma run_events_app st (t1 t2 : list (@event double)) :
  run_events st (t1 ++ t2) = run_events (run_events st t1) t2.
Proof. apply foldl_app. Qed.

(** Closing and opening handles moves nothing. *)
Lemma run_events_closes st (l : list GDALDatasetH) :
  run_events st (@Close double <$> l) = st.
Proof. revert st. induction l as [|h l IH]; intros st; [done|]. apply IH. Qed.

Lemma run_events_opens st sz (l : list Z) :
  run_events st (concat (snd <$> (open_slice G L sz <$> l))) = st.
Proof. revert st. induction l as [|h l IH]; intros st; [done|]. apply IH. Qed.

(** Two indexes make two names. *)
Lemma slice_name_inj base : Inj (=) (=) (slice_name base).
Proof.
  intros z z' E. unfold slice_name in E.
  apply (inj (String.app base)) in E.
  apply (inj (String.app ":MRF:Z")) in E.
  by apply (inj pretty) in E.
Qed.

Lemma window_ok_true (r : @raster V) xoff yoff xsize ysize nbands :
  1 <= xsize -> 1 <= ysize -> 0 <= xoff -> 0 <= yoff ->
  xoff + xsize <= r_xsize r -> yoff + ysize <= r_ysize r -> nbands <= r_count r ->
  window_ok r xoff yoff xsize ysize nbands = true.
Proof.
  intros. unfold window_ok.
  repeat (apply andb_true_intro; split); apply Z.leb_le; lia.
Qed.

(** Inside a chunk, two elements have two offsets. *)
Lemma off_inj z c j i z' c' j' i' :
  0 <= i < pszx L -> 0 <= i' < pszx L -> 0 <= j < pszy L -> 0 <= j' < pszy L ->
  0 <= z < psz L -> 0 <= z' < psz L ->
  off L z c j i = off L z' c' j' i' ->
  z' = z /\ c' = c /\ j' = j /\ i' = i.
Proof.
  unfold off, band_stride, z_stride, line_stride, pix_stride.
  intros. by apply (offset_inj (dtsz L) (pszx L) (pszy L) (psz L)).
Qed.

(** After the reads of a chunk the rasters are as they were, and the buffer
    holds at [off z c j i] the element at band [c], row [sy + j] and column
    [sx + i] of the source slice [sz + z]. *)
Lemma reads_effect sz sy sx dx dy (zs : list Z) st :
  intact L s0 st ->
  0 <= sz -> 0 <= sy -> 0 <= sx ->
  1 <= dx <= pszx L -> 1 <= dy <= pszy L ->
  sx + dx <= xsz L -> sy + dy <= ysz L ->
  (forall z, z ∈ zs -> 0 <= z < Z.min (psz L) (zsz L - sz)) ->
  let st' := run_events st
               ((fun z => read_call L (at_index (chunk_inh G L sz) z) sx sy dx dy z)
                <$> zs) in
  datasets st' = datasets st
  /\ (forall z c j i, z ∈ zs -> 0 <= c < csz L -> 0 <= j < dy -> 0 <= i < dx ->
        buffer st' !! off L z c j i
        = voxel s0 (src_slice L (sz + z)) (c + 1) (sy + j) (sx + i))
  /\ (forall k,
        (forall z c j i, z ∈ zs -> 0 <= c < csz L -> 0 <= j < dy -> 0 <= i < dx ->
                         off L z c j i <> k) ->
        buffer st' !! k = buffer st !! k).
Proof.
  intros Hint Hsz Hsy Hsx Hdx Hdy Hxs Hys. revert st Hint.
  induction zs as [|z0 zs IH]; intros st Hint Hzs; cbv zeta.
  { cbn. split; [done|]. split; [|done]. by intros ? ? ? ? ?%elem_of_nil. }
  assert (0 <= z0 < Z.min (psz L) (zsz L - sz)) as Hz0
    by (apply Hzs, elem_of_cons; by left).
  destruct (Hsrc (sz + z0)) as (r & Hr & Hrx & Hry & Hrc); [lia|].
  assert (datasets st !! src_slice L (sz + z0) = Some r) as Hr'
    by (rewrite Hint by lia; done).
  rewrite fmap_cons.
  set (ev := read_call L (at_index (chunk_inh G L sz) z0) sx sy dx dy z0).
  change (run_events st (ev :: ?t)) with (run_events (exec st ev) t).
  assert (exec st ev =
          {| datasets := datasets st;
             buffer := read_window r sx sy dx dy (z_stride L * z0) (csz L)
                         (pix_stride L) (line_stride L) (band_stride L) (buffer st) |})
    as Hex.
  { unfold ev, read_call. rewrite at_index_opened by done.
    destruct Hnamed as [Ho _]. rewrite Ho. unfold exec.
    fold (src_slice L (sz + z0)). rewrite Hr'.
    rewrite window_ok_true by lia. by rewrite !Z.eqb_refl. }
  rewrite Hex. clear Hex.
  match goal with |- context [run_events ?s _] => set (st1 := s) end.
  destruct (IH st1) as (Hd & Hb & Hf).
  { intros z Hz. cbn. by apply Hint. }
  { intros z Hz. apply Hzs, elem_of_cons. by right. }
  split; [by rewrite Hd|]. split.
  - intros z c j i Hz Hc Hj Hi.
    destruct (decide (z ∈ zs)) as [Hin|Hnin]; [by apply Hb|].
    apply elem_of_cons in Hz as [->|?]; [|done].
    rewrite Hf.
    + cbn [buffer st1]. unfold off.
      rewrite read_window_in; try done.
      * unfold voxel. fold (src_slice L (sz + z0)). by rewrite Hr.
      * intros c' j' i' Hc' Hj' Hi' E.
        destruct (off_inj z0 c j i z0 c' j' i') as (_ & ? & ? & ?); try lia.
        unfold off. lia.
    + intros z' c' j' i' Hz' Hc' Hj' Hi' E.
      destruct (off_inj z0 c j i z' c' j' i') as (-> & _); try lia.
      * specialize (Hzs z' ltac:(apply elem_of_cons; by right)). lia.
      * done.
  - intros k Hk. rewrite Hf.
    + cbn [buffer st1]. apply read_window_notin.
      intros c j i Hc Hj Hi. apply (Hk z0 c j i); try done.
      apply elem_of_cons. by left.
    + intros z c j i Hz. apply Hk. apply elem_of_cons. by right.
Qed.

(** After the writes of a chunk the buffer is as it was, the slice
    [sy + e] holds in the window what the buffer holds on its line [e], and
    nothing else has changed. *)
Lemma writes_effect sz sy sx dx dz (ys : list Z) st :
  NoDup ys ->
  0 <= sz -> 0 <= sy -> 0 <= sx ->
  1 <= dx -> 1 <= dz -> sx + dx <= xsz L -> sz + dz <= zsz L ->
  (forall e, e ∈ ys -> 0 <= e < Z.min (pszy L) (ysz L - sy)) ->
  (forall e, e ∈ ys ->
     exists r, datasets st !! dst_slice L (sy + e) = Some r
               /\ r_xsize r = xsz L /\ r_ysize r = zsz L /\ r_count r = csz L) ->
  let st' := run_events st
               ((fun endz =>
                   write_call L (at_index (chunk_outh G L sy) endz) sx sz dx dz endz)
                <$> ys) in
  buffer st' = buffer st
  /\ (forall n, (forall e, e ∈ ys -> n <> dst_slice L (sy + e)) ->
                datasets st' !! n = datasets st !! n)
  /\ (forall e, e ∈ ys ->
        exists r r',
          datasets st !! dst_slice L (sy + e) = Some r
          /\ datasets st' !! dst_slice L (sy + e) = Some r'
          /\ r_xsize r' = r_xsize r /\ r_ysize r' = r_ysize r /\ r_count r' = r_count r
          /\ (forall c zr i, 0 <= c < csz L -> 0 <= zr < dz -> 0 <= i < dx ->
                r_cells r' !! (c + 1, sz + zr, sx + i) = buffer st !! off L zr c e i)
          /\ (forall k,
                (forall c zr i, 0 <= c < csz L -> 0 <= zr < dz -> 0 <= i < dx ->
                                (c + 1, sz + zr, sx + i) <> k) ->
                r_cells r' !! k = r_cells r !! k)).
Proof.
  intros Hnd Hsz Hsy Hsx Hdx Hdz Hxs Hzs. revert st.
  induction Hnd as [|e0 ys Hnin Hnd IH]; intros st Hys Hready; cbv zeta.
  { cbn. split; [done|]. split; [done|]. by intros ? ?%elem_of_nil. }
  assert (0 <= e0 < Z.min (pszy L) (ysz L - sy)) as He0
    by (apply Hys, elem_of_cons; by left).
  destruct (Hready e0) as (r & Hr & Hrx & Hry & Hrc); [apply elem_of_cons; by left|].
  rewrite fmap_cons.
  set (ev := write_call L (at_index (chunk_outh G L sy) e0) sx sz dx dz e0).
  change (run_events st (ev :: ?t)) with (run_events (exec st ev) t).
  set (r0 := write_window (buffer st) sx sz dx dz (e0 * line_stride L) (csz L)
               (pix_stride L) (z_stride L) (band_stride L) r).
  assert (exec st ev =
          {| datasets := <[dst_slice L (sy + e0) := r0]> (datasets st);
             buffer := buffer st |}) as Hex.
  { unfold ev, write_call. rewrite at_index_created by done.
    destruct Hnamed as [_ Hc]. rewrite Hc. unfold exec.
    fold (dst_slice L (sy + e0)). rewrite Hr.
    rewrite window_ok_true by lia. by rewrite !Z.eqb_refl. }
  rewrite Hex. clear Hex.
  match goal with |- context [run_events ?s _] => set (st1 := s) end.
  assert (forall e, e ∈ ys -> dst_slice L (sy + e) <> dst_slice L (sy + e0)) as Hne.
  { intros e He E. apply slice_name_inj in E. assert (e = e0) by lia. by subst. }
  destruct (IH st1) as (Hb & Hf & Hw).
  { intros e He. apply Hys, elem_of_cons. by right. }
  { intros e He. cbn [datasets st1]. rewrite lookup_insert_ne by (intros E; by apply (Hne e)).
    apply Hready, elem_of_cons. by right. }
  split; [by rewrite Hb|]. split.
  - intros n Hn. rewrite Hf.
    + cbn [datasets st1]. rewrite lookup_insert_ne; [done|].
      intros E. apply (Hn e0); [apply elem_of_cons; by left|done].
    + intros e He. apply Hn, elem_of_cons. by right.
  - intros e He. apply elem_of_cons in He as [->|He].
    + exists r, r0. split; [done|]. split.
      { rewrite Hf; [cbn [datasets st1]; by rewrite lookup_insert_eq|].
        intros e He E. by apply (Hne e). }
      split; [done|]. split; [done|]. split; [done|]. split.
      * intros c zr i Hc Hzr Hi. unfold r0. rewrite write_window_in by done.
        f_equal. unfold off. lia.
      * intros k Hk. unfold r0. by apply write_window_notin.
    + destruct (Hw e He) as (r1 & r' & Hr1 & Hr'' & Hx & Hy & Hc & Hin & Hout).
      cbn [datasets st1] in Hr1.
      rewrite lookup_insert_ne in Hr1 by (intros E; by apply (Hne e)).
      exists r1, r'. repeat split; try done.
Qed.

(** Creating a slice gives it its extents and keeps what it holds. *)
Lemma create_effect sy e st :
  run_events st (create_slice G L sy e).2 =
  {| datasets :=
       <[dst_slice L (sy + e) :=
           {| r_xsize := xsz L; r_ysize := zsz L; r_count := csz L;
              r_cells := match datasets st !! dst_slice L (sy + e) with
                         | Some r => r_cells r
                         | None => ∅
                         end |}]> (datasets st);
     buffer := buffer st |}.
Proof.
  unfold create_slice. cbn [snd]. destruct Hnamed as [_ Hc]. rewrite Hc.
  by destruct (nodata L), (stats L) as [[[[? ?] ?] ?]|], (geo L).
Qed.

Lemma creates_effect sy (ys : list Z) st :
  let st' := run_events st (concat (snd <$> (create_slice G L sy <$> ys))) in
  buffer st' = buffer st
  /\ (forall n b row col, voxel st' n b row col = voxel st n b row col)
  /\ (forall n, (forall e, e ∈ ys -> n <> dst_slice L (sy + e)) ->
                datasets st' !! n = datasets st !! n)
  /\ (forall n, shaped L st n -> shaped L st' n)
  /\ (forall e, e ∈ ys -> shaped L st' (dst_slice L (sy + e))).
Proof.
  revert st. induction ys as [|e0 ys IH]; intros st; cbv zeta.
  { cbn. repeat split; try done. by intros ? ?%elem_of_nil. }
  rewrite !fmap_cons. cbn [concat]. rewrite run_events_app, create_effect.
  match goal with |- context [run_events ?s _] => set (st1 := s) end.
  destruct (IH st1) as (Hb & Hv & Hf & Hs & Hr).
  assert (forall n, shaped L st n -> shaped L st1 n) as Hs1.
  { intros n (r & Hr' & ? & ? & ?). unfold shaped. cbn [datasets st1].
    destruct (decide (dst_slice L (sy + e0) = n)) as [->|].
    - rewrite lookup_insert_eq. eexists. split; [done|]. done.
    - rewrite lookup_insert_ne by done. by exists r. }
  split; [by rewrite Hb|]. split; [|split; [|split]].
  - intros n b row col. rewrite Hv. unfold voxel. cbn [datasets st1].
    destruct (decide (dst_slice L (sy + e0) = n)) as [->|].
    + rewrite lookup_insert_eq. cbn.
      destruct (datasets st !! n); cbn; [done|apply lookup_empty].
    + by rewrite lookup_insert_ne.
  - intros n Hn. rewrite Hf.
    + cbn [datasets st1]. rewrite lookup_insert_ne; [done|].
      intros E. apply (Hn e0); [apply elem_of_cons; by left|done].
    + intros e Hin. apply Hn, elem_of_cons. by right.
  - intros n Hn. by apply Hs, Hs1.
  - intros e [->|Hin]%elem_of_cons; [|by apply Hr].
    apply Hs. unfold shaped. cbn [datasets st1]. rewrite lookup_insert_eq.
    eexists. split; [done|]. done.
Qed.

Lemma voxel_lookup st n r b row col :
  datasets st !! n = Some r -> voxel st n b row col = r_cells r !! (b, row, col).
Proof. intros H. unfold voxel. by rewrite H. Qed.

Lemma voxel_same st st' n b row col :
  datasets st' !! n = datasets st !! n -> voxel st' n b row col = voxel st n b row col.
Proof. intros H. unfold voxel. by rewrite H. Qed.

(** One pass of the X loop moves the chunk it stands at, when its [dx] is
    the extent that remains on the X axis. *)
Lemma x_body_effect sz sy sx st :
  0 <= sz < zsz L -> 0 <= sy < ysz L -> 0 <= sx < xsz L ->
  Z.min (pszx L) (xsz L - sy) = Z.min (pszx L) (xsz L - sx) ->
  progress L s0 sz sy sx st ->
  (forall y, sy <= y < sy + Z.min (pszy L) (ysz L - sy) -> shaped L st (dst_slice L y)) ->
  let st' := run_events st
               (x_body L (chunk_inh G L sz) (chunk_outh G L sy) sy sz
                  (Z.min (pszy L) (ysz L - sy)) (Z.min (psz L) (zsz L - sz)) sx).1 in
  progress L s0 sz sy (sx + pszx L) st'
  /\ (forall y, shaped L st (dst_slice L y) -> shaped L st' (dst_slice L y)).
Proof.
  intros Hsz Hsy Hsx Hdx [Hint Hgood] Hready. cbv zeta.
  destruct Hpos as (Hpz & Hpy & Hpx).
  unfold x_body. cbn [fst]. rewrite Hdx.
  set (dx := Z.min (pszx L) (xsz L - sx)).
  set (dy := Z.min (pszy L) (ysz L - sy)) in *.
  set (dz := Z.min (psz L) (zsz L - sz)).
  change (run_events st ([?e] ++ ?t)) with (run_events st t).
  rewrite run_events_app. unfold read_cublock, write_cublock.
  destruct (reads_effect sz sy sx dx dy (seqZ 0 dz) st) as (Hrd & Hrb & _);
    try (unfold dx, dy; lia); [done|by intros z ?%elem_of_seqZ|].
  match goal with |- context [run_events (run_events st ?t) _] =>
    set (st1 := run_events st t) in * end.
  destruct (writes_effect sz sy sx dx dz (seqZ 0 dy) st1) as (Hwb & Hwf & Hww);
    try (unfold dx, dz; lia); [apply NoDup_seqZ|by intros e ?%elem_of_seqZ| |].
  { intros e Hin%elem_of_seqZ. unfold shaped in Hready. rewrite Hrd.
    apply Hready. lia. }
  match goal with |- context [progress L s0 _ _ _ ?s] => set (st2 := s) in * end.
  assert (forall y, ~ (sy <= y < sy + dy) ->
                    datasets st2 !! dst_slice L y = datasets st !! dst_slice L y) as Hout.
  { intros y Hy. rewrite Hwf, Hrd; [done|].
    intros e Hin%elem_of_seqZ E. apply slice_name_inj in E. lia. }
  split; [split|].
  - intros z Hz. rewrite Hwf, Hrd; [by apply Hint|].
    intros e _. apply Hapart.
  - intros y z x c ((Hx & Hy & Hz) & Hdone) Hc. unfold good.
    destruct (decide (sy <= y < sy + dy)) as [Hyin|Hyout];
      [|rewrite (voxel_same st st2) by (by apply Hout);
        apply Hgood; [|done]; split; [done|]; unfold dy in Hyout; lia].
    destruct (Hww (y - sy)) as (r & r' & Hr & Hr' & _ & _ & _ & Hin & Hnot);
      [apply elem_of_seqZ; lia|].
    replace (sy + (y - sy)) with y in Hr, Hr' by lia.
    rewrite (voxel_lookup st2 _ r') by done.
    destruct (decide ((sz <= z < sz + dz) /\ (sx <= x < sx + dx))) as [[Hzin Hxin]|Hno].
    + specialize (Hin c (z - sz) (x - sx) Hc ltac:(lia) ltac:(lia)).
      replace (sz + (z - sz)) with z in Hin by lia.
      replace (sx + (x - sx)) with x in Hin by lia.
      rewrite Hin.
      rewrite (Hrb (z - sz) c (y - sy) (x - sx)); try lia; [|apply elem_of_seqZ; lia].
      replace (sz + (z - sz)) with z by lia.
      replace (sy + (y - sy)) with y by lia.
      by replace (sx + (x - sx)) with x by lia.
    + rewrite Hnot by (intros c' zr i ? ? ? E; inversion E; lia).
      rewrite <- (voxel_lookup st1 _ r) by done.
      rewrite (voxel_same st st1) by (by rewrite Hrd).
      apply Hgood; [|done]. split; [done|]. unfold dx, dy, dz in *. lia.
  - intros y (r & Hr & Hdims).
    destruct (decide (sy <= y < sy + dy)) as [Hyin|Hyout];
      [|exists r; by rewrite Hout].
    destruct (Hww (y - sy)) as (r1 & r' & Hr1 & Hr' & Hx & Hy & Hc & _);
      [apply elem_of_seqZ; lia|].
    replace (sy + (y - sy)) with y in Hr1, Hr' by lia.
    rewrite Hrd, Hr in Hr1. inversion Hr1; subst r1.
    exists r'. split; [done|]. rewrite Hx, Hy, Hc. done.
Qed.

(** What every pass keeps, the loop keeps. *)
Lemma for_loop_inv (Inv : Z -> @state V -> Prop) fuel bound step
    (body : Z -> list (@event double) * option outcome) start st :
  0 < step ->
  bound - start <= Z.of_nat fuel ->
  (forall s st, s < bound -> Inv s st ->
     (body s).2 = None /\ Inv (s + step) (run_events st (body s).1)) ->
  Inv start st ->
  (for_loop fuel bound step body start).2 = None
  /\ exists s', bound <= s'
       /\ Inv s' (run_events st (for_loop fuel bound step body start).1).
Proof.
  intros Hstep Hf Hbody. revert start st Hf.
  induction fuel as [|fuel IH]; intros start st Hf Hinv; simpl;
    (destruct (start <? bound) eqn:Hlt;
     [apply Z.ltb_lt in Hlt|apply Z.ltb_ge in Hlt; split; [done|by exists start]]);
    [lia|].
  destruct (Hbody start st Hlt Hinv) as [Hnone Hnext].
  destruct (body start) as [t r]. cbn [fst snd] in *. subst r.
  destruct (IH (start + step) (run_events st t) ltac:(lia) Hnext) as (Hr & s' & Hs' & Hinv').
  destruct (for_loop fuel bound step body (start + step)) as [t' r'].
  cbn [fst snd] in *. split; [done|]. exists s'. split; [done|].
  by rewrite run_events_app.
Qed.

Hypothesis Hdx : dx_agrees L.

Section Fuel.

Variable fuel : nat.
Hypothesis Hfuel : enough_fuel L fuel.

(** The X loop moves a whole Y chunk of the current Z chunk. *)
Lemma x_loop_effect sz sy (j : Z) st :
  0 <= sz < zsz L -> 0 <= sy < ysz L -> 0 <= j -> sy = j * pszy L ->
  progress L s0 sz sy 0 st ->
  (forall y, sy <= y < sy + Z.min (pszy L) (ysz L - sy) -> shaped L st (dst_slice L y)) ->
  let st' := run_events st
               (x_loop L fuel (chunk_inh G L sz) (chunk_outh G L sy) sy sz
                  (Z.min (pszy L) (ysz L - sy)) (Z.min (psz L) (zsz L - sz))).1 in
  progress L s0 sz (sy + pszy L) 0 st'.
Proof.
  intros Hsz Hsy Hj Hjy Hprog Hready. cbv zeta.
  destruct Hpos as (Hpz & Hpy & Hpx). destruct Hfuel as (Hfx & Hfy & Hfz).
  unfold x_loop.
  destruct (for_loop_inv
    (fun s st => (exists i, 0 <= i /\ s = i * pszx L)
                 /\ progress L s0 sz sy s st
                 /\ (forall y, sy <= y < sy + Z.min (pszy L) (ysz L - sy) ->
                                shaped L st (dst_slice L y)))
    fuel (xsz L) (pszx L)
    (x_body L (chunk_inh G L sz) (chunk_outh G L sy) sy sz
       (Z.min (pszy L) (ysz L - sy)) (Z.min (psz L) (zsz L - sz))) 0 st)
    as (_ & s' & Hs' & _ & [Hint Hgood] & _); [done|lia| | |].
  - intros s st1 Hs ((i & Hi & ->) & Hp & Hr). split; [done|].
    destruct (x_body_effect sz sy (i * pszx L) st1) as [Hp' Hsh]; try done; [lia| |].
    { subst sy. apply Hdx; lia. }
    split; [exists (i + 1); split; [lia|lia]|]. split; [done|].
    intros y Hy. by apply Hsh, Hr.
  - split; [exists 0; lia|]. done.
  - split; [done|]. intros y z x c ((Hx & Hy & Hz) & Hd) Hc.
    apply Hgood; [|done]. split; [done|]. lia.
Qed.

(** So does a pass of the Y loop, which creates the slices first. *)
Lemma y_body_effect sz sy (j : Z) inner st :
  0 <= sz < zsz L -> 0 <= sy < ysz L -> 0 <= j -> sy = j * pszy L ->
  progress L s0 sz sy 0 st ->
  inner = fuel ->
  let st' := run_events st
               (y_body G L inner (chunk_inh G L sz) sz
                  (Z.min (psz L) (zsz L - sz)) sy).1 in
  progress L s0 sz (sy + pszy L) 0 st'.
Proof.
  intros Hsz Hsy Hj Hjy [Hint Hgood] ->. cbv zeta.
  destruct Hpos as (Hpz & Hpy & Hpx). destruct Hfuel as (Hfx & Hfy & Hfz).
  rewrite y_body_pass by lia. cbn [fst].
  rewrite !run_events_app, run_events_closes.
  destruct (creates_effect sy (seqZ 0 (Z.min (pszy L) (ysz L - sy))) st)
    as (_ & Hv & Hf & _ & Hr).
  apply (x_loop_effect sz sy j); try done.
  - split.
    + intros z Hz. rewrite Hf; [by apply Hint|]. intros e _. apply Hapart.
    + intros y z x c Hd Hc. unfold good. rewrite Hv. by apply Hgood.
  - intros y Hy. replace y with (sy + (y - sy)) by lia. apply Hr, elem_of_seqZ. lia.
Qed.

(** The Y loop moves a whole Z chunk. *)
Lemma y_loop_effect sz (k : Z) st :
  0 <= sz < zsz L -> 0 <= k -> sz = k * psz L ->
  progress L s0 sz 0 0 st ->
  let st' := run_events st
               (y_loop G L fuel (chunk_inh G L sz) sz (Z.min (psz L) (zsz L - sz))).1 in
  progress L s0 (sz + psz L) 0 0 st'.
Proof.
  intros Hsz Hk Hkz Hprog. cbv zeta.
  destruct Hpos as (Hpz & Hpy & Hpx). destruct Hfuel as (Hfx & Hfy & Hfz).
  unfold y_loop.
  destruct (for_loop_inv
    (fun s st => (exists j, 0 <= j /\ s = j * pszy L) /\ progress L s0 sz s 0 st)
    fuel (ysz L) (pszy L)
    (y_body G L fuel (chunk_inh G L sz) sz (Z.min (psz L) (zsz L - sz))) 0 st)
    as (_ & s' & Hs' & _ & [Hint Hgood]); [done|lia| | |].
  - intros s st1 Hs ((j & Hj & ->) & Hp). split.
    + rewrite y_body_pass; [done|done|lia|done|lia].
    + split; [exists (j + 1); split; [lia|lia]|].
      apply (y_body_effect sz (j * pszy L) j); try done. lia.
  - split; [exists 0; lia|]. done.
  - split; [done|]. intros y z x c ((Hx & Hy & Hz) & Hd) Hc.
    apply Hgood; [|done]. split; [done|]. lia.
Qed.

(** The Z loop moves the volume. *)
Lemma z_loop_effect :
  (z_loop G L fuel).2 = None
  /\ forall x y z c,
       0 <= x < xsz L -> 0 <= y < ysz L -> 0 <= z < zsz L -> 0 <= c < csz L ->
       good L s0 (run_events s0 (z_loop G L fuel).1) y z x c.
Proof.
  destruct Hfuel as (Hfx & Hfy & Hfz).
  unfold z_loop.
  destruct (for_loop_inv
    (fun s st => (exists k, 0 <= k /\ s = k * psz L) /\ progress L s0 s 0 0 st)
    fuel (zsz L) (psz L) (z_body G L fuel) 0 s0)
    as (Hnone & s' & Hs' & _ & [Hint Hgood]); [apply Hpos|lia| | |].
  - intros s st1 Hs ((k & Hk & ->) & Hp).
    destruct Hpos as (Hpz & Hpy & Hpx).
    rewrite z_body_pass; [|done|done|lia]. cbn [fst snd]. split; [done|].
    split; [exists (k + 1); split; [lia|lia]|].
    rewrite !run_events_app, run_events_opens, run_events_closes.
    apply (y_loop_effect (k * psz L) k); try done. lia.
  - split; [exists 0; lia|]. split; [done|].
    intros y z x c ((Hx & Hy & Hz) & Hd) _. lia.
  - split; [done|]. intros x y z c Hx Hy Hz Hc.
    apply Hgood; [|done]. split; [done|]. lia.
Qed.

End Fuel.

End Transposition.

(** Where line 221 computes the extent that remains on the X axis, the
    run is a transpose: it returns 0, and every voxel of the volume is in
    the destination with its Y and Z coordinates swapped. *)
Theorem transposed_when_dx_agrees {double V : Type}
    (G : @GDAL double) (L : @locals double) (s0 : @state V) (fuel : nat) :
  named_handles G -> source_volume L s0 -> apart L ->
  positive_chunks L -> 0 < dtsz L -> dx_agrees L ->
  enough_fuel L fuel -> malloc G (BSZ L) = true ->
  (transpose G L fuel).2 = Exit 0
  /\ forall x y z c,
       0 <= x < xsz L -> 0 <= y < ysz L -> 0 <= z < zsz L -> 0 <= c < csz L ->
       voxel (run_events s0 (transpose G L fuel).1) (dst_slice L y) (c + 1) z x
       = voxel s0 (src_slice L z) (c + 1) y x.
Proof.
  intros Hnamed Hsrc Hapart Hpos Hesz Hdx Hfuel Hm.
  split; [by rewrite transpose_outcome, Hm|].
  rewrite transpose_trace, Hm, run_events_app.
  assert (run_events s0
            (if verbose L
             then [Cout ("Using an " +:+ dec (BSZ L) +:+ " sized buffer")]
             else []) = s0) as -> by (by destruct (verbose L)).
  by apply z_loop_effect.
Qed.

(** The slices of a sample volume. *)
Lemma volume_lookup name xs ys zs nb f z :
  0 <= z < zs ->
  datasets (volume name xs ys zs nb f) !! slice_name name z
  = Some (slice_raster xs ys nb (fun x y b => f x y z b)).
Proof.
  intros Hz. unfold volume. cbn [datasets].
  apply elem_of_list_to_map_1.
  - rewrite <- list_fmap_compose.
    apply (NoDup_fmap_2 (slice_name name)), NoDup_seqZ.
  - apply (list_elem_of_fmap_2'
             (fun z => (slice_name name z,
                        slice_raster xs ys nb (fun x y b => f x y z b))) _ z);
      [apply elem_of_seqZ; lia|done].
Qed.

(** The scenario of the specification meets these conditions. *)
Example scenario_is_transposed_by_the_loops :
  let G := answers scenario in
  let L := sample_locals scenario 0 "4" in
  let s0 := volume "in.mrf" 8 6 4 1 tall_voxels in
  forall x y z,
    0 <= x < 8 -> 0 <= y < 6 -> 0 <= z < 4 ->
    voxel (run_events s0 (transpose G L 10).1) (slice_name "out.mrf" y) 1 z x
    = voxel s0 (slice_name "in.mrf" z) 1 y x.
Proof.
  cbv zeta. intros x y z Hx Hy Hz.
  set (L := sample_locals scenario 0 "4").
  assert (named_handles (answers scenario)) as H1 by (by split).
  assert (source_volume L (volume "in.mrf" 8 6 4 1 tall_voxels)) as H2.
  { intros z' Hz'. change (zsz L) with 4 in Hz'.
    exists (slice_raster 8 6 1 (fun x y b => tall_voxels x y z' b)).
    split; [by apply volume_lookup|repeat split; reflexivity]. }
  assert (apart L) as H3.
  { intros z' y' E. unfold src_slice, dst_slice, slice_name in E.
    change (SourceName L) with "in.mrf" in E. change (TargetName L) with "out.mrf" in E.
    simpl in E. discriminate E. }
  assert (positive_chunks L) as H4 by (repeat split; calc).
  assert (0 < dtsz L) as H5 by calc.
  assert (dx_agrees L) as H6.
  { intros i j Hi Hj Hix Hjy.
    change (pszx L) with 4 in *. change (pszy L) with 4 in *.
    change (xsz L) with 8 in *. change (ysz L) with 6 in *. lia. }
  assert (enough_fuel L 10) as H7 by (repeat split; calc).
  assert (malloc (answers scenario) (BSZ L) = true) as H8 by calc.
  exact (proj2 (transposed_when_dx_agrees (answers scenario) L
                  (volume "in.mrf" 8 6 4 1 tall_voxels) 10 H1 H2 H3 H4 H5 H6 H7 H8)
               x y z 0 Hx Hy Hz ltac:(done)).
Qed.

(** ** The claims *)

Section Claims.

Context {double : Type}.
Variable of_int : Z -> double.
Variables fmul fdiv : double -> double -> double.
Implicit Types (G : @GDAL double) (L : @locals double).


(** C4, as amended: the no-data value and the statistics of the source's
    first band are set on band 1 of every destination slice that is created,
    and on no other band: every metadata call of a run is made on band 1 with
    the values the run holds, every [Create] comes with these calls on the
    handle it returned, and the values the run holds are those of band 1 of
    the source. *)
Theorem C4_metadata_on_first_band_only G L (fuel : nat) :
  Forall (first_band_metadata L) (transpose G L fuel).1
  /\ (forall n xs ys nb t o h,
       Create n xs ys nb t o h ∈ (transpose G L fuel).1 ->
       (forall nd, nodata L = Some nd ->
                   SetRasterNoDataValue h 1 nd ∈ (transpose G L fuel).1)
       /\ (forall mn mx mean sd, stats L = Some (mn, mx, mean, sd) ->
              SetRasterStatistics h 1 mn mx mean sd ∈ (transpose G L fuel).1))
  /\ (forall o src tgt h zs,
        let L' := describe_source of_int fmul fdiv G o src tgt h zs in
        nodata L' = GDALGetRasterNoDataValue G h 1
        /\ stats L' = GDALGetRasterStatistics G h 1).
Proof.
  split; [|split];
    [| |intros o src tgt h zs; unfold describe_source;
        by destruct (GDALGetBlockSize G h 1)].
  - apply transpose_Forall; [done|done|].
    apply z_loop_Forall.
    + intros. repeat constructor.
    + intros. unfold create_slice. cbn [snd].
      destruct (nodata L) eqn:?, (stats L) as [[[[? ?] ?] ?]|] eqn:?, (geo L);
        repeat constructor; assumption.
    + intros. unfold x_body. cbn [fst]. constructor; [done|].
      apply Forall_app. split; apply Forall_fmap, Forall_forall; intros ? _; exact I.
    + done.
  - intros n xs ys nb t o h Hin.
    apply create_in_transpose in Hin as [Hm Hin]; [|exact I].
    apply create_block in Hin as (starty & z & Hin & Hincl); [|exact I].
    assert (h = (create_slice G L starty z).1) as ->.
    { unfold create_slice in Hin. cbn [snd] in Hin.
      apply elem_of_cons in Hin as [Hin|Hin]; [by inversion Hin|].
      exfalso.
      destruct (nodata L), (stats L) as [[[[? ?] ?] ?]|], (geo L);
        cbn in Hin; repeat (apply elem_of_cons in Hin as [Hin|Hin]; [discriminate|]);
        by apply elem_of_nil in Hin. }
    split.
    + intros nd Hnd. apply z_loop_in_transpose; [done|]. apply Hincl.
      unfold create_slice. cbn [fst snd]. rewrite Hnd.
      apply elem_of_cons. right. apply elem_of_cons. by left.
    + intros mn mx mean sd Hst. apply z_loop_in_transpose; [done|]. apply Hincl.
      unfold create_slice. cbn [fst snd]. rewrite Hst.
      apply elem_of_cons. right. apply elem_of_app. right.
      apply elem_of_cons. by left.
Qed.

(** C6: when the source cannot be opened the run reports it with
    [CPLError], creates nothing, and returns 0, the code of success. *)
Theorem C6_unopened_source_returns_zero G (fuel : nat) argv o src tgt :
  parsed G argv o -> o_fnames o = [src; tgt] ->
  GDALOpen G src = None ->
  main of_int fmul fdiv G fuel argv =
  ([Open src None; CPLError ("Can't open source file " +:+ src +:+ " for reading")],
   Exit 0).
Proof.
  intros Hp Hf Ho. rewrite (main_parsed _ _ _ _ _ _ _ _ _ Hp Hf).
  unfold convert. by rewrite Ho.
Qed.

(** C7, as amended: a source without [ZSIZE] metadata is rejected with a
    diagnostic and exit code 2 before any slice is opened or created.  A
    [ZSIZE] that is there and reads as 0 or less is not rejected: once the
    buffer is allocated the loops have nothing to do, no slice is opened or
    created, nothing is written to [cerr], and the run returns 0. *)
Theorem C7_only_a_missing_ZSIZE_is_rejected G (fuel : nat) argv o src tgt h :
  parsed G argv o -> o_fnames o = [src; tgt] ->
  GDALOpen G src = Some h ->
  EQUAL (GDALGetDriverShortName G h) "MRF" = true ->
  (CSLFetchNameValue (GDALGetMetadata G h "IMAGE_STRUCTURE") "ZSIZE" = None ->
   main of_int fmul fdiv G fuel argv =
   (Open src (Some h) :: (Usage (Some "Source is not a 3-rd dimension MRF") 2).1,
    Exit 2))
  /\ (forall zs,
        CSLFetchNameValue (GDALGetMetadata G h "IMAGE_STRUCTURE") "ZSIZE" = Some zs ->
        atoi zs <= 0 ->
        let L := describe_source of_int fmul fdiv G o src tgt h zs in
        malloc G (BSZ L) = true ->
        main of_int fmul fdiv G fuel argv =
        (Open src (Some h) :: list_options L ++ Close (Some h)
           :: (if verbose L
               then [Cout ("Using an " +:+ dec (BSZ L) +:+ " sized buffer")] else []),
         Exit 0)).
Proof.
  intros Hp Hf Ho Hd.
  rewrite (main_parsed _ _ _ _ _ _ _ _ _ Hp Hf).
  unfold convert. rewrite Ho, Hd. cbn [negb]. split.
  - intros ->. done.
  - intros zs -> Hz Hm.
    set (L := describe_source of_int fmul fdiv G o src tgt h zs) in *.
    assert (zsz L = atoi zs) as HzL.
    { unfold L, describe_source. by destruct (GDALGetBlockSize G h 1). }
    unfold transpose. rewrite Hm. cbn [negb].
    unfold z_loop.
    assert (forall body, for_loop fuel (zsz L) (psz L) body 0 = ([], None)) as ->.
    { intros body. destruct fuel; simpl;
        (destruct (0 <? zsz L) eqn:E; [apply Z.ltb_lt in E; lia|done]). }
    by rewrite app_nil_r.
Qed.

(** C8, as amended: the coordinates of every chunk that is processed are
    printed whether verbose mode is on or off.  With verbose mode off this
    is all that is printed on [cout]; verbose mode adds the list of the
    creation options and the size of the buffer. *)
Theorem C8_progress_is_printed_in_every_mode G L (fuel : nat) (k j i : Z) :
  positive_chunks L -> enough_fuel L fuel -> malloc G (BSZ L) = true ->
  0 <= k -> 0 <= j -> 0 <= i ->
  k * psz L < zsz L -> j * pszy L < ysz L -> i * pszx L < xsz L ->
  Cout (progress_line (i * pszx L) (j * pszy L) (k * psz L)) ∈ (transpose G L fuel).1
  /\ (verbose L = false ->
      list_options L = [] /\ Forall only_progress (transpose G L fuel).1)
  /\ (verbose L = true ->
      list_options L = Cout <$> copt L
      /\ Cout ("Using an " +:+ dec (BSZ L) +:+ " sized buffer")
           ∈ (transpose G L fuel).1).
Proof.
  intros Hpos Hfuel Hm Hk Hj Hi Hkz Hjy Hix. split; [|split].
  - apply z_loop_in_transpose; [done|].
    apply (x_chunk_of G L fuel Hpos Hfuel k j i); try done.
    unfold x_body. cbn [fst]. apply elem_of_cons. by left.
  - intros Hv. unfold list_options. rewrite Hv. split; [done|].
    rewrite transpose_trace, Hm, Hv. cbn [app].
    apply z_loop_Forall.
    + intros. repeat constructor.
    + intros. unfold create_slice. cbn [snd].
      destruct (nodata L), (stats L) as [[[[? ?] ?] ?]|], (geo L);
        repeat constructor.
    + intros. unfold x_body. cbn [fst]. constructor; [cbn; eauto|].
      apply Forall_app. split; apply Forall_fmap, Forall_forall; intros z _; exact I.
    + done.
  - intros Hv. unfold list_options. rewrite Hv. split; [done|].
    rewrite transpose_trace, Hm, Hv. apply elem_of_cons. by left.
Qed.

(** C9, as amended: the default replaces the page size only when it is 0,
    so a negative [-z] is kept, and nothing checks it.  It does not make the
    Z loop run for ever: the run ends at the allocation of the buffer when
    the wrapped size is refused, and otherwise in the first pass of the
    Z loop, where [dz = psz < 0] and the vector of [dz] handles cannot be
    built (with no depth at all, the loop is not entered).  With [psz],
    [pszy] and [pszx] all positive the loops come to their end. *)
Theorem C9_loops_end G L (o : options) src tgt h zs (fuel : nat) :
  (o_psz o <> 0 ->
   psz (describe_source of_int fmul fdiv G o src tgt h zs) = o_psz o)
  /\ (psz L < 0 -> (0 < fuel)%nat ->
      (transpose G L fuel).2 =
      if malloc G (BSZ L)
      then (if 0 <? zsz L then Fault "std::length_error" else Exit 0)
      else Exit 3)
  /\ (positive_chunks L -> enough_fuel L fuel ->
      (transpose G L fuel).2 = if malloc G (BSZ L) then Exit 0 else Exit 3).
Proof.
  split; [|split].
  - intros Hz. unfold describe_source. destruct (GDALGetBlockSize G h 1).
    cbn. destruct (o_psz o =? 0) eqn:E; [apply Z.eqb_eq in E; lia|done].
  - intros Hneg Hf. unfold transpose.
    destruct (malloc G (BSZ L)); cbn [negb]; [|done].
    unfold z_loop. destruct fuel as [|fuel]; [lia|]. simpl.
    destruct (0 <? zsz L) eqn:E; [|done]. apply Z.ltb_lt in E.
    unfold z_body.
    destruct (Z.min (psz L) (zsz L - 0) <? 0) eqn:E'; [done|].
    apply Z.ltb_ge in E'. lia.
  - apply transpose_outcome.
Qed.

(** C10: the handle that opening a source slice or creating a destination
    slice returns is never looked at.  When the open or the create fails,
    the null handle is what the strided read or write and the close are
    called with, and the run goes on to return 0; it ends the same way
    whatever the opens and the creates return. *)
Theorem C10_null_handles_are_used G L (fuel : nat) (k y : Z) :
  positive_chunks L -> enough_fuel L fuel -> malloc G (BSZ L) = true ->
  0 < xsz L -> 0 <= k < zsz L -> 0 <= y < ysz L ->
  (GDALOpen G (slice_name (SourceName L) k) = None ->
   Open (slice_name (SourceName L) k) None ∈ (transpose G L fuel).1
   /\ read_call L None 0 0 (Z.min (pszx L) (xsz L)) (Z.min (pszy L) (ysz L))
                 (k mod psz L) ∈ (transpose G L fuel).1
   /\ Close None ∈ (transpose G L fuel).1)
  /\ (GDALCreate G (slice_name (TargetName L) y)
                  (xsz L) (zsz L) (csz L) (dt L) (copt L) = None ->
      Create (slice_name (TargetName L) y) (xsz L) (zsz L) (csz L) (dt L) (copt L)
             None ∈ (transpose G L fuel).1
      /\ write_call L None 0 0 (Z.min (pszx L) (xsz L - y / pszy L * pszy L))
                     (Z.min (psz L) (zsz L)) (y mod pszy L) ∈ (transpose G L fuel).1
      /\ Close None ∈ (transpose G L fuel).1)
  /\ (transpose G L fuel).2 = Exit 0
  /\ (forall G', malloc G' (BSZ L) = malloc G (BSZ L) ->
                  (transpose G' L fuel).2 = (transpose G L fuel).2).
Proof.
  intros Hpos Hfuel Hm Hx Hk Hy.
  destruct (handles_in_run G L fuel k y Hpos Hfuel Hx Hk Hy)
    as ((Ho & Hr & Hc) & (Ho' & Hw & Hc')).
  split; [|split; [|split]].
  - intros E. rewrite E in Ho, Hr, Hc.
    repeat split; by apply z_loop_in_transpose.
  - intros E. rewrite E in Ho', Hw, Hc'.
    repeat split; by apply z_loop_in_transpose.
  - by rewrite transpose_outcome, Hm.
  - intros G'. apply outcome_ignores_handles.
Qed.

End Claims.


(** C4 as stated fails on a source of two bands: the slice is created with
    two bands, and the no-data value and the statistics are set on its band
    1 and never on its band 2. *)
Lemma C4_counterexample :
  let T := (run_main two_bands 10 plain_argv).1 in
  let h := Some "out.mrf:MRF:Z0" in
  Create "out.mrf:MRF:Z0" 4 1 2 1 ["BLOCKXSIZE=4"; "BLOCKYSIZE=4"; "ZSIZE=1"] h ∈ T
  /\ SetRasterNoDataValue h 1 7 ∈ T
  /\ (SetRasterNoDataValue h 2 7 ∉ T)
  /\ (SetRasterStatistics h 2 0 255 17 3 ∉ T).
Proof.
  cbv zeta. split; [in_list|]. split; [in_list|].
  split; intros H; not_in_list H.
Qed.

(** C4 on the sample of two bands. *)
Lemma C4_witness :
  let L := sample_locals two_bands 0 "1" in
  let T := (transpose (answers two_bands) L 10).1 in
  let h := Some "out.mrf:MRF:Z0" in
  (Create "out.mrf:MRF:Z0" 4 1 2 1 ["BLOCKXSIZE=4"; "BLOCKYSIZE=4"; "ZSIZE=1"] h ∈ T
   /\ nodata L = Some 7 /\ stats L = Some (0, 255, 17, 3))
  /\ Forall (first_band_metadata L) T
  /\ SetRasterNoDataValue h 1 7 ∈ T
  /\ SetRasterStatistics h 1 0 255 17 3 ∈ T.
Proof.
  cbv zeta.
  assert (Create "out.mrf:MRF:Z0" 4 1 2 1 ["BLOCKXSIZE=4"; "BLOCKYSIZE=4"; "ZSIZE=1"]
            (Some "out.mrf:MRF:Z0")
          ∈ (transpose (answers two_bands) (sample_locals two_bands 0 "1") 10).1) as H
    by in_list.
  destruct (C4_metadata_on_first_band_only id Z.mul Z.div (answers two_bands)
              (sample_locals two_bands 0 "1") 10) as (HF & HC & _).
  destruct (HC _ _ _ _ _ _ _ H) as [H1 H2].
  split; [split; [exact H|split; reflexivity]|].
  split; [exact HF|]. split; [exact (H1 7 eq_refl)|exact (H2 0 255 17 3 eq_refl)].
Defined.

(** The model on the scenario of the specification: every voxel arrives,
    the destination slice [y] holds at row [z] what the source slice [z]
    holds at row [y]. *)
Example scenario_is_transposed :
  let v := volume "in.mrf" 8 6 4 1 tall_voxels in
  let s := run_events v (run_main scenario 10 plain_argv).1 in
  forallb (fun '(z, y, x) =>
             bool_decide (voxel s (slice_name "out.mrf" y) 1 z x
                          = voxel v (slice_name "in.mrf" z) 1 y x
                          /\ is_Some (voxel v (slice_name "in.mrf" z) 1 y x)))
          (window_cells 4 6 8) = true.
Proof. vm_compute. reflexivity. Qed.

(** C1: on a volume 4 wide and 8 high with 4 by 4 tiles the run returns 0,
    and the second Y chunk is never moved: its reads and writes are made
    with [dx = min(4, 4 - 4) = 0], so the destination slices 4 to 7 are
    created and stay empty (no call of the run moves an element of slice 4),
    while the source holds a voxel for each of their cells.  The first
    Y chunk arrives. *)
Theorem C1_tall_volume_is_not_transposed :
  let v := volume "in.mrf" 4 8 1 1 tall_voxels in
  let r := run_main tall 10 plain_argv in
  let s := run_events v r.1 in
  r.2 = Exit 0
  /\ voxel v "in.mrf:MRF:Z0" 1 4 0 = Some 41
  /\ voxel s "out.mrf:MRF:Z4" 1 0 0 = None
  /\ (r_xsize <$> datasets s !! "out.mrf:MRF:Z4") = Some 4
  /\ forallb (moves_nothing "out.mrf:MRF:Z4") r.1 = true
  /\ voxel s "out.mrf:MRF:Z3" 1 0 0 = voxel v "in.mrf:MRF:Z0" 1 3 0.
Proof. cbv zeta. repeat split; vm_compute; reflexivity. Qed.

(** C2: in the same run, the read of the chunk at [startx = 0],
    [starty = 4] is made with the X extent 0, which is
    [min(pszx, xsz - starty)]; the extent that remains on the X axis there
    is [min(pszx, xsz - startx) = 4].  In every run the width of a read is
    taken from the row it starts at; [dy] and [dz] are the extents that
    remain on their own axes. *)
Theorem C2_dx_is_taken_from_starty :
  let L := sample_locals tall 0 "1" in
  read_call L (Some "in.mrf:MRF:Z0") 0 4 0 4 0 ∈ (run_main tall 10 plain_argv).1
  /\ Z.min (pszx L) (xsz L - 4) = 0
  /\ Z.min (pszx L) (xsz L - 0) = 4
  /\ forall (G : @GDAL Z) (L : @locals Z) (fuel : nat),
       Forall (code_extents L) (transpose G L fuel).1.
Proof.
  cbv zeta. split; [in_list|]. split; [reflexivity|]. split; [reflexivity|].
  apply extents_of_run.
Qed.

(** C5: the same volume, transposed and transposed again.  The first pass
    creates 4 by 1 slices with 4 by 4 tiles and [ZSIZE=8]; what the second
    pass makes of them has no voxel in rows 4 to 7, where the volume had
    some. *)
Theorem C5_round_trip_loses_voxels :
  let v := volume "in.mrf" 4 8 1 1 tall_voxels in
  let pass1 := run_main tall 10 plain_argv in
  let s1 := run_events v pass1.1 in
  let pass2 := run_main tall_transposed 10 back_argv in
  let s2 := run_events s1 pass2.1 in
  pass1.2 = Exit 0 /\ pass2.2 = Exit 0
  /\ Create "out.mrf:MRF:Z0" 4 1 1 1 ["BLOCKXSIZE=4"; "BLOCKYSIZE=4"; "ZSIZE=8"]
             (Some "out.mrf:MRF:Z0") ∈ pass1.1
  /\ voxel v "in.mrf:MRF:Z0" 1 4 0 = Some 41
  /\ voxel s2 "back.mrf:MRF:Z0" 1 4 0 = None
  /\ voxel s2 "back.mrf:MRF:Z0" 1 3 0 = voxel v "in.mrf:MRF:Z0" 1 3 0.
Proof.
  cbv zeta. split; [calc|]. split; [calc|]. split; [in_list|].
  repeat split; vm_compute; reflexivity.
Qed.

(** C6 on a source that cannot be opened. *)
Lemma C6_witness :
  parsed (answers missing) plain_argv (sample_options 0)
  /\ GDALOpen (answers missing) "in.mrf" = None
  /\ run_main missing 10 plain_argv =
     ([Open "in.mrf" None; CPLError "Can't open source file in.mrf for reading"],
      Exit 0).
Proof.
  assert (parsed (answers missing) plain_argv (sample_options 0)) as H
    by (repeat split; calc).
  split; [exact H|]. split; [reflexivity|].
  exact (C6_unopened_source_returns_zero id Z.mul Z.div (answers missing) 10
           plain_argv (sample_options 0) "in.mrf" "out.mrf" H eq_refl eq_refl).
Defined.

(** C7 as stated fails on a source whose [ZSIZE] reads 0: the run neither
    complains nor stops early, it returns 0. *)
Lemma C7_counterexample :
  CSLFetchNameValue (s_md flat) "ZSIZE" = Some "0"
  /\ atoi "0" = 0
  /\ run_main flat 10 plain_argv =
     ([Open "in.mrf" (Some "in.mrf"); Close (Some "in.mrf")], Exit 0).
Proof. repeat split; calc. Qed.

(** C7 on a source without depth and on a source of depth 0. *)
Lemma C7_witness :
  (parsed (answers no_depth) plain_argv (sample_options 0)
   /\ CSLFetchNameValue (s_md no_depth) "ZSIZE" = None
   /\ run_main no_depth 10 plain_argv =
      (Open "in.mrf" (Some "in.mrf")
         :: (Usage (Some "Source is not a 3-rd dimension MRF") 2).1,
       Exit 2))
  /\ (parsed (answers flat) plain_argv (sample_options 0)
      /\ CSLFetchNameValue (s_md flat) "ZSIZE" = Some "0"
      /\ atoi "0" <= 0
      /\ run_main flat 10 plain_argv =
         ([Open "in.mrf" (Some "in.mrf"); Close (Some "in.mrf")], Exit 0)).
Proof.
  assert (parsed (answers no_depth) plain_argv (sample_options 0)) as H1
    by (repeat split; calc).
  assert (parsed (answers flat) plain_argv (sample_options 0)) as H2
    by (repeat split; calc).
  assert (atoi "0" <= 0) as H0 by calc.
  split.
  - split; [exact H1|]. split; [reflexivity|].
    exact (proj1 (C7_only_a_missing_ZSIZE_is_rejected id Z.mul Z.div
                    (answers no_depth) 10 plain_argv (sample_options 0)
                    "in.mrf" "out.mrf" "in.mrf" H1 eq_refl eq_refl eq_refl) eq_refl).
  - split; [exact H2|]. split; [reflexivity|]. split; [exact H0|].
    exact (proj2 (C7_only_a_missing_ZSIZE_is_rejected id Z.mul Z.div
                    (answers flat) 10 plain_argv (sample_options 0)
                    "in.mrf" "out.mrf" "in.mrf" H2 eq_refl eq_refl eq_refl)
                 "0" eq_refl H0 eq_refl).
Defined.

(** C8 as stated fails in the scenario run without [-v]: the coordinates of
    the first chunk are printed. *)
Lemma C8_counterexample :
  o_verbose <$> parse_args (drop 1 plain_argv) no_options = Some false
  /\ Cout "Processing 0,0,0" ∈ (run_main scenario 10 plain_argv).1.
Proof. split; [reflexivity|in_list]. Qed.

(** C8 in the scenario, with verbose off and with verbose on: the last
    chunk, at 4,4,0. *)
Lemma C8_witness :
  let G := answers scenario in
  let L := sample_locals scenario 0 "4" in
  let Lv := verbose_locals scenario "4" in
  (verbose L = false /\ positive_chunks L /\ enough_fuel L 10
   /\ Cout "Processing 4,4,0" ∈ (transpose G L 10).1
   /\ list_options L = []
   /\ Forall only_progress (transpose G L 10).1)
  /\ (verbose Lv = true /\ positive_chunks Lv /\ enough_fuel Lv 10
      /\ Cout "Processing 4,4,0" ∈ (transpose G Lv 10).1
      /\ Cout "BLOCKXSIZE=4" ∈ list_options Lv
      /\ Cout "Using an 64 sized buffer" ∈ (transpose G Lv 10).1).
Proof.
  cbv zeta.
  assert (positive_chunks (sample_locals scenario 0 "4")) as Hp
    by (repeat split; calc).
  assert (enough_fuel (sample_locals scenario 0 "4") 10) as Hf
    by (repeat split; calc).
  assert (positive_chunks (verbose_locals scenario "4")) as Hp'
    by (repeat split; calc).
  assert (enough_fuel (verbose_locals scenario "4") 10) as Hf'
    by (repeat split; calc).
  split.
  - destruct (C8_progress_is_printed_in_every_mode (answers scenario)
                (sample_locals scenario 0 "4") 10 0 1 1 Hp Hf eq_refl
                ltac:(calc) ltac:(calc) ltac:(calc) ltac:(calc) ltac:(calc) ltac:(calc))
      as (H1 & H2 & _).
    destruct (H2 eq_refl) as [H3 H4].
    split; [reflexivity|]. split; [exact Hp|]. split; [exact Hf|].
    split; [exact H1|]. split; [exact H3|exact H4].
  - destruct (C8_progress_is_printed_in_every_mode (answers scenario)
                (verbose_locals scenario "4") 10 0 1 1 Hp' Hf' eq_refl
                ltac:(calc) ltac:(calc) ltac:(calc) ltac:(calc) ltac:(calc) ltac:(calc))
      as (H1 & _ & H2).
    destruct (H2 eq_refl) as [H3 H4].
    split; [reflexivity|]. split; [exact Hp'|]. split; [exact Hf'|].
    split; [exact H1|]. split; [|exact H4].
    rewrite H3. in_list.
Defined.

(** C9 as stated fails with [-z -1]: the page size stays at -1, the buffer
    size wraps to [2^64 - 16], the allocation is refused and the run returns
    3 before the Z loop.  An allocator that granted the buffer would let the
    run reach the loop, which stops in its first pass. *)
Lemma C9_counterexample :
  psz (sample_locals tall (-1) "1") = -1
  /\ BSZ (sample_locals tall (-1) "1") = 2 ^ 64 - 16
  /\ (run_main tall 1 negative_argv).2 = Exit 3
  /\ (run_main generous 1 negative_argv).2 = Fault "std::length_error".
Proof. repeat split; calc. Qed.

(** C9 on the tall volume, with [-z -1] and with the default page size. *)
Lemma C9_witness :
  let G := answers tall in
  (o_psz (sample_options (-1)) <> 0
   /\ psz (sample_locals tall (-1) "1") = -1)
  /\ (psz (sample_locals tall (-1) "1") < 0
      /\ (transpose G (sample_locals tall (-1) "1") 10).2 = Exit 3)
  /\ (positive_chunks (sample_locals tall 0 "1")
      /\ enough_fuel (sample_locals tall 0 "1") 10
      /\ (transpose G (sample_locals tall 0 "1") 10).2 = Exit 0).
Proof.
  cbv zeta.
  assert (o_psz (sample_options (-1)) <> 0) as Hz by calc.
  assert (psz (sample_locals tall (-1) "1") < 0) as Hn by calc.
  assert (positive_chunks (sample_locals tall 0 "1")) as Hp by (repeat split; calc).
  assert (enough_fuel (sample_locals tall 0 "1") 10) as Hf by (repeat split; calc).
  split; [split; [exact Hz|]|split; [split; [exact Hn|]|split; [exact Hp|split; [exact Hf|]]]].
  - exact (proj1 (C9_loops_end id Z.mul Z.div (answers tall)
                    (sample_locals tall 0 "1") (sample_options (-1))
                    "in.mrf" "out.mrf" "in.mrf" "1" 10) Hz).
  - exact (proj1 (proj2 (C9_loops_end id Z.mul Z.div (answers tall)
                           (sample_locals tall (-1) "1") (sample_options (-1))
                           "in.mrf" "out.mrf" "in.mrf" "1" 10)) Hn ltac:(lia)).
  - exact (proj2 (proj2 (C9_loops_end id Z.mul Z.div (answers tall)
                           (sample_locals tall 0 "1") (sample_options 0)
                           "in.mrf" "out.mrf" "in.mrf" "1" 10)) Hp Hf).
Defined.

(** C10 in the scenario when no slice can be opened or created: source
    slice 1 and destination slice 5. *)
Lemma C10_witness :
  let G := answers broken in
  let L := sample_locals broken 0 "4" in
  let T := (transpose G L 10).1 in
  (GDALOpen G "in.mrf:MRF:Z1" = None
   /\ GDALCreate G "out.mrf:MRF:Z5" 8 4 1 1 (copt L) = None)
  /\ (Open "in.mrf:MRF:Z1" None ∈ T
      /\ DatasetRasterIO None GF_Read 0 0 4 4 16 4 4 1 1 1 4 64 ∈ T
      /\ Close None ∈ T)
  /\ (Create "out.mrf:MRF:Z5" 8 4 1 1 (copt L) None ∈ T
      /\ DatasetRasterIO None GF_Write 0 0 4 4 4 4 4 1 1 1 16 64 ∈ T
      /\ Close None ∈ T)
  /\ (transpose G L 10).2 = Exit 0.
Proof.
  cbv zeta.
  assert (positive_chunks (sample_locals broken 0 "4")) as Hp by (repeat split; calc).
  assert (enough_fuel (sample_locals broken 0 "4") 10) as Hf by (repeat split; calc).
  split; [split; reflexivity|].
  destruct (C10_null_handles_are_used (answers broken) (sample_locals broken 0 "4")
              10 1 5 Hp Hf eq_refl ltac:(calc) ltac:(split; calc) ltac:(split; calc))
    as (H1 & H2 & H3 & _).
  split; [exact (H1 eq_refl)|]. split; [exact (H2 eq_refl)|exact H3].
Defined.

(** * More about the program

    Properties of the arguments, of the creation options, and of the calls
    of a run, read off [main]. *)

(** ** The arguments *)

Lemma EQUAL_cons x a y b :
  EQUAL (String x a) (String y b)
  = if Ascii.eqb (toupper x) (toupper y) then EQUAL a b else false.
Proof. reflexivity. Qed.

Lemma EQUAL_v_not_g a : EQUAL a "-v" = true -> EQUAL a "-g" = false.
Proof.
  destruct a as [|x [|y a]]; [done| |].
  - rewrite !EQUAL_cons. by destruct (Ascii.eqb _ _).
  - rewrite !EQUAL_cons.
    destruct (Ascii.eqb (toupper x) (toupper "-")); [|done].
    destruct (Ascii.eqb (toupper y) (toupper "v")) eqn:E; [|done].
    apply Ascii.eqb_eq in E. rewrite E. done.
Qed.

Lemma parse_args_cons a rest o :
  parse_args (a :: rest) o =
  if EQUAL a "-z" then
    match rest with
    | v :: rest' =>
        parse_args rest' {| o_verbose := o_verbose o; o_geo := o_geo o;
                            o_psz := atoi v; o_fnames := o_fnames o |}
    | [] => None
    end
  else if EQUAL a "-v" then
    parse_args rest {| o_verbose := true; o_geo := o_geo o;
                       o_psz := o_psz o; o_fnames := o_fnames o |}
  else if EQUAL a "-g" then
    parse_args rest {| o_verbose := o_verbose o; o_geo := true;
                       o_psz := o_psz o; o_fnames := o_fnames o |}
  else
    parse_args rest {| o_verbose := o_verbose o; o_geo := o_geo o;
                       o_psz := o_psz o; o_fnames := o_fnames o ++ [a] |}.
Proof. reflexivity. Qed.

(** Induction on an argument list, two arguments at a time where [-z]
    takes its value. *)
Lemma args_ind (P : list string -> Prop) :
  P [] ->
  (forall a, P [a]) ->
  (forall a v rest, P rest -> P (v :: rest) -> P (a :: v :: rest)) ->
  forall l, P l.
Proof.
  intros H0 H1 H2 l.
  assert (P l /\ forall a, P (a :: l)) as [H _]; [|exact H].
  induction l as [|v l [IH1 IH2]]; [by split|].
  split; [apply IH2|]. intros a. apply H2; [exact IH1|apply IH2].
Qed.

(** X1: the arguments are read from left to right, and a run of them
    that is read to its end leaves nothing behind but the options: reading
    [l1 ++ l2] is reading [l2] from the options that [l1] gives.  It holds as
    soon as [l1] is read without running past its end, that is, unless its
    last argument is a [-z] that takes its value from [l2]. *)
Theorem parse_args_app l1 l2 o o1 :
  parse_args l1 o = Some o1 -> parse_args (l1 ++ l2) o = parse_args l2 o1.
Proof.
  revert o. induction l1 as [|a|a v rest IH1 IH2] using args_ind; intros o.
  - by intros [= ->].
  - cbn [app]. rewrite !parse_args_cons.
    destruct (EQUAL a "-z"); [done|].
    destruct (EQUAL a "-v"); [by intros [= ->]|].
    destruct (EQUAL a "-g"); by intros [= ->].
  - cbn [app] in *.
    rewrite (parse_args_cons a (v :: rest)), (parse_args_cons a (v :: rest ++ l2)).
    destruct (EQUAL a "-z"); [apply IH1|].
    destruct (EQUAL a "-v"); [apply IH2|].
    destruct (EQUAL a "-g"); apply IH2.
Qed.

(** X2: reading the arguments goes wrong in one way only: their last one
    is [-z], in either case of the letter, and its value is read past the end
    of the arguments. *)
Theorem parse_args_fails_on_trailing_z args o :
  parse_args args o = None ->
  exists z, last args = Some z /\ EQUAL z "-z" = true.
Proof.
  revert o. induction args as [|a|a v rest IH1 IH2] using args_ind; intros o.
  - done.
  - rewrite parse_args_cons.
    destruct (EQUAL a "-z") eqn:E; [intros _; by exists a|].
    destruct (EQUAL a "-v"); [done|]. by destruct (EQUAL a "-g").
  - rewrite parse_args_cons.
    assert (forall o', parse_args (v :: rest) o' = None ->
              exists z, last (a :: v :: rest) = Some z /\ EQUAL z "-z" = true) as H2.
    { intros o' H. apply IH2 in H. exact H. }
    destruct (EQUAL a "-z").
    + intros H. apply IH1 in H as (z & Hl & Hz). exists z. split; [|done].
      destruct rest; [done|]. exact Hl.
    + destruct (EQUAL a "-v"); [apply H2|]. destruct (EQUAL a "-g"); apply H2.
Qed.

(** X3: arguments without a [-z] are always read to their end.  [-v] and
    [-g], in either case of the letter and wherever they stand, switch on
    verbose mode and georeferencing; nothing switches them off; the page
    size stays as it was; every other argument is a file name, and the file
    names keep their order. *)
Theorem parse_args_without_z args o :
  Forall (fun a => EQUAL a "-z" = false) args ->
  parse_args args o = Some (flags_of args o).
Proof.
  intros H. revert o. induction H as [|a args Ha _ IH]; intros o.
  - unfold flags_of. cbn. rewrite !orb_false_r, app_nil_r. by destruct o.
  - rewrite parse_args_cons, Ha.
    destruct (EQUAL a "-v") eqn:Ev.
    + rewrite IH. unfold flags_of. cbn. rewrite Ev, (EQUAL_v_not_g a Ev).
      cbn. by rewrite orb_true_r.
    + destruct (EQUAL a "-g") eqn:Eg; rewrite IH; unfold flags_of; cbn;
        rewrite Ev, Eg; cbn; [by rewrite orb_true_r|].
      by rewrite <- app_assoc.
Qed.

(** ** Readings of the loops *)

Section LoopReadings.

Context {double : Type}.
Implicit Types (body : Z -> list (@event double) * option outcome).

(** What holds of the events of every pass that is made, and of traces put
    end to end, holds of the events of the loop. *)
Lemma for_loop_fold (R : list (@event double) -> Prop) fuel bound step body start :
  R [] -> (forall t1 t2, R t1 -> R t2 -> R (t1 ++ t2)) ->
  (forall s, s < bound -> R (body s).1) ->
  R (for_loop fuel bound step body start).1.
Proof.
  intros H0 Happ Hb. revert start.
  induction fuel as [|fuel IH]; intros start; simpl;
    (destruct (start <? bound) eqn:Hlt; [|done]); [done|].
  apply Z.ltb_lt in Hlt. specialize (Hb start Hlt). specialize (IH (start + step)).
  destruct (body start) as [t [o|]]; simpl in *; [done|].
  destruct (for_loop fuel bound step body (start + step)) as [t' r'].
  simpl in *. by apply Happ.
Qed.

Section Reading.

Context {A : Type} (f : @event double -> option A).

(** Passes that each give the readings of their own chunk give, end to end,
    the readings of the whole range. *)
Lemma for_loop_chunks (g : Z -> A) fuel bound step body start :
  0 < step -> bound - start <= Z.of_nat fuel ->
  (forall s, s < bound ->
     (body s).2 = None
     /\ omap f (body s).1 = g <$> seqZ s (Z.min step (bound - s))) ->
  omap f (for_loop fuel bound step body start).1 = g <$> seqZ start (bound - start).
Proof.
  intros Hstep Hf Hb. revert start Hf.
  induction fuel as [|fuel IH]; intros start Hf; simpl;
    (destruct (start <? bound) eqn:Hlt;
     [apply Z.ltb_lt in Hlt|apply Z.ltb_ge in Hlt; by rewrite seqZ_nil by lia]);
    [lia|].
  destruct (Hb start Hlt) as [Hr Ho]. specialize (IH (start + step) ltac:(lia)).
  destruct (body start) as [t r]; simpl in *; subst r.
  destruct (for_loop fuel bound step body (start + step)) as [t' r'].
  simpl in *. rewrite omap_app, Ho, IH.
  destruct (Z.le_gt_cases step (bound - start)) as [Hle|Hgt].
  - rewrite Z.min_l by done.
    rewrite <- fmap_app, <- seqZ_app by lia. do 2 f_equal. lia.
  - rewrite Z.min_r by lia.
    by rewrite (seqZ_nil (start + step)), app_nil_r by lia.
Qed.

(** Passes that all give the same readings give them once for every
    pass. *)
Lemma for_loop_repeat (c : list A) fuel bound step body start :
  0 < step -> bound - start <= Z.of_nat fuel ->
  (forall s, s < bound -> (body s).2 = None /\ omap f (body s).1 = c) ->
  omap f (for_loop fuel bound step body start).1
  = concat (replicate (Z.to_nat ((bound - start + step - 1) / step)) c).
Proof.
  intros Hstep Hf Hb. revert start Hf.
  induction fuel as [|fuel IH]; intros start Hf; simpl;
    (destruct (start <? bound) eqn:Hlt;
     [apply Z.ltb_lt in Hlt
     |apply Z.ltb_ge in Hlt;
      assert ((bound - start + step - 1) / step <= 0) as Hq
        by (apply Z.lt_succ_r, Z.div_lt_upper_bound; lia);
      by rewrite Z2Nat.nonpos by exact Hq]);
    [lia|].
  destruct (Hb start Hlt) as [Hr Ho]. specialize (IH (start + step) ltac:(lia)).
  destruct (body start) as [t r]; simpl in *; subst r.
  destruct (for_loop fuel bound step body (start + step)) as [t' r'].
  simpl in *. rewrite omap_app, Ho, IH.
  replace (bound - start + step - 1)
    with (bound - (start + step) + step - 1 + 1 * step) by lia.
  rewrite Z.div_add by lia.
  assert (0 <= (bound - (start + step) + step - 1) / step) as Hq
    by (apply Z.div_pos; lia).
  rewrite Z2Nat.inj_add by lia. rewrite Nat.add_comm. done.
Qed.

Lemma omap_blocks (g : Z -> GDALDatasetH * list (@event double)) (c : Z -> list A) l :
  (forall x, omap f (g x).2 = c x) ->
  omap f (concat (snd <$> (g <$> l))) = l ≫= c.
Proof.
  intros H. induction l as [|x l IH]; [done|].
  cbn. rewrite omap_app, H, IH. done.
Qed.

Lemma omap_none (t : list (@event double)) :
  Forall (fun ev => f ev = None) t -> omap f t = [].
Proof. induction 1 as [|ev t H _ IH]; [done|]. cbn. by rewrite H. Qed.

End Reading.

End LoopReadings.

Section RunReadings.

Context {double : Type}.
Implicit Types (G : @GDAL double) (L : @locals double) (P : @event double -> Prop).

Lemma x_loop_Forall P L fuel inh outh starty startz dy dz :
  (forall l, P (Cout l)) ->
  (forall h rw xoff yoff xs ys buf bx by_ t nb ps ls bs,
      P (DatasetRasterIO h rw xoff yoff xs ys buf bx by_ t nb ps ls bs)) ->
  Forall P (x_loop L fuel inh outh starty startz dy dz).1.
Proof.
  intros Hc Hio. apply for_loop_Forall. intros startx. unfold x_body. cbn [fst].
  constructor; [apply Hc|].
  apply Forall_app. split; apply Forall_fmap, Forall_forall; intros z _; apply Hio.
Qed.

Lemma bind_singleton {A B} (g : A -> B) (l : list A) : l ≫= (fun x => [g x]) = g <$> l.
Proof. induction l as [|x l IH]; [done|]. cbn. by rewrite IH. Qed.

Lemma bind_nil_const {A B} (l : list A) : l ≫= (fun _ => @nil B) = [].
Proof. induction l as [|x l IH]; [done|]. cbn. by rewrite IH. Qed.

Lemma fmap_shift_seqZ {A} (g : Z -> A) s n :
  (fun z => g (s + z)) <$> seqZ 0 n = g <$> seqZ s n.
Proof.
  transitivity (g <$> seqZ (s + 0) n); [|by rewrite Z.add_0_r].
  by rewrite <- fmap_add_seqZ, <- list_fmap_compose.
Qed.

Lemma omap_closes {A} (f : @event double -> option A) (l : list GDALDatasetH) :
  (forall h, f (Close h) = None) -> omap f (Close <$> l) = [].
Proof.
  intros H. apply omap_none, Forall_fmap, Forall_forall. intros h _. apply H.
Qed.

(** *** The slices a run opens and creates *)

Lemma opened_y_loop G L fuel inh startz dz :
  opened (y_loop G L fuel inh startz dz).1 = [].
Proof.
  apply omap_none, for_loop_Forall. intros starty. unfold y_body.
  destruct (_ <? 0); [constructor|].
  match goal with |- context [x_loop ?a ?b ?c ?d ?e ?f ?g ?h] =>
    assert (Forall (fun ev => match ev with Open n _ => Some n | _ => None end = None)
              (x_loop a b c d e f g h).1) as Hxl
      by (by apply x_loop_Forall);
    destruct (x_loop a b c d e f g h) as [t_x [r|]] end;
  cbn [fst snd] in *; rewrite ?Forall_app; repeat split; try done;
    try (by apply Forall_closes);
    apply Forall_blocks; intros z; unfold create_slice; cbn [snd];
    destruct (nodata L), (stats L) as [[[[? ?] ?] ?]|], (geo L); repeat constructor.
Qed.

Lemma created_y_loop G L fuel inh startz dz :
  0 < pszx L -> 0 < pszy L ->
  xsz L <= Z.of_nat fuel -> ysz L <= Z.of_nat fuel ->
  created (y_loop G L fuel inh startz dz).1
  = slice_name (TargetName L) <$> seqZ 0 (ysz L).
Proof.
  intros Hx Hy Hfx Hfy. unfold y_loop, created.
  replace (ysz L) with (ysz L - 0) at 2 by lia.
  apply for_loop_chunks; [done|lia|].
  intros s Hs. rewrite y_body_pass; [|done|lia|done|lia]. split; [done|].
  cbn [fst]. rewrite !omap_app.
  rewrite omap_closes, app_nil_r by done.
  rewrite (omap_none _ (x_loop _ _ _ _ _ _ _ _).1) by (by apply x_loop_Forall).
  rewrite app_nil_r.
  rewrite (omap_blocks _ _ (fun z => [slice_name (TargetName L) (s + z)])).
  - by rewrite bind_singleton, (fmap_shift_seqZ (slice_name (TargetName L))).
  - intros z. unfold create_slice. cbn [snd].
    destruct (nodata L), (stats L) as [[[[? ?] ?] ?]|], (geo L); done.
Qed.

(** *** Every handle is closed *)

Lemma obtained_blocks {A} (g : A -> GDALDatasetH * list (@event double)) (l : list A) :
  (forall x, obtained (g x).2 = [(g x).1]) ->
  obtained (concat (snd <$> (g <$> l))) = fst <$> (g <$> l).
Proof.
  intros H. induction l as [|x l IH]; [done|].
  cbn. unfold obtained in *. rewrite omap_app, H, IH. done.
Qed.

Lemma closed_blocks {A} (g : A -> GDALDatasetH * list (@event double)) (l : list A) :
  (forall x, closed (g x).2 = []) ->
  closed (concat (snd <$> (g <$> l))) = [].
Proof.
  intros H. induction l as [|x l IH]; [done|].
  cbn. unfold closed in *. rewrite omap_app, H, IH. done.
Qed.

Lemma closed_closes (l : list GDALDatasetH) : closed (@Close double <$> l) = l.
Proof. induction l as [|h l IH]; [done|]. cbn. f_equal. exact IH. Qed.

Lemma obtained_closes (l : list GDALDatasetH) : obtained (@Close double <$> l) = [].
Proof. by apply omap_closes. Qed.

Lemma closed_app (t1 t2 : list (@event double)) :
  closed (t1 ++ t2) = closed t1 ++ closed t2.
Proof. apply omap_app. Qed.

Lemma obtained_app (t1 t2 : list (@event double)) :
  obtained (t1 ++ t2) = obtained t1 ++ obtained t2.
Proof. apply omap_app. Qed.

Lemma balanced_app (t1 t2 : list (@event double)) :
  closed t1 ≡ₚ obtained t1 -> closed t2 ≡ₚ obtained t2 ->
  closed (t1 ++ t2) ≡ₚ obtained (t1 ++ t2).
Proof. intros H1 H2. rewrite closed_app, obtained_app. by f_equiv. Qed.

Lemma x_loop_handles L fuel inh outh starty startz dy dz :
  closed (x_loop L fuel inh outh starty startz dy dz).1 = []
  /\ obtained (x_loop L fuel inh outh starty startz dy dz).1 = [].
Proof. split; apply omap_none; by apply x_loop_Forall. Qed.

Lemma create_slice_handles G L starty z :
  closed (create_slice G L starty z).2 = []
  /\ obtained (create_slice G L starty z).2 = [(create_slice G L starty z).1].
Proof.
  unfold create_slice. cbn [fst snd].
  destruct (nodata L), (stats L) as [[[[? ?] ?] ?]|], (geo L); done.
Qed.

Lemma balanced_y_loop G L fuel inh startz dz :
  0 < pszx L -> 0 < pszy L ->
  xsz L <= Z.of_nat fuel -> ysz L <= Z.of_nat fuel ->
  closed (y_loop G L fuel inh startz dz).1 ≡ₚ obtained (y_loop G L fuel inh startz dz).1.
Proof.
  intros Hx Hy Hfx Hfy. unfold y_loop.
  apply (for_loop_fold (fun t => closed t ≡ₚ obtained t)); [done|apply balanced_app|].
  intros s Hs. rewrite y_body_pass; [|done|lia|done|lia]. cbn [fst].
  rewrite !closed_app, !obtained_app.
  destruct (x_loop_handles L fuel inh (chunk_outh G L s) s startz
              (Z.min (pszy L) (ysz L - s)) dz) as [-> ->].
  rewrite closed_closes, obtained_closes.
  rewrite closed_blocks by apply create_slice_handles.
  rewrite obtained_blocks by apply create_slice_handles.
  by rewrite !app_nil_r.
Qed.

Lemma balanced_z_loop G L fuel :
  positive_chunks L -> enough_fuel L fuel ->
  closed (z_loop G L fuel).1 ≡ₚ obtained (z_loop G L fuel).1.
Proof.
  intros Hpos Hfuel.
  pose proof Hpos as (Hz & Hy & Hx). pose proof Hfuel as (Hfx & Hfy & Hfz).
  unfold z_loop.
  apply (for_loop_fold (fun t => closed t ≡ₚ obtained t)); [done|apply balanced_app|].
  intros s Hs. rewrite z_body_pass; [|done|done|lia]. cbn [fst].
  rewrite !closed_app, !obtained_app.
  rewrite closed_closes, obtained_closes.
  rewrite closed_blocks by done.
  rewrite obtained_blocks by done.
  rewrite (balanced_y_loop G L fuel) by done.
  rewrite app_nil_r. cbn [app]. unfold chunk_inh. apply Permutation_app_comm.
Qed.

Lemma Usage_handles message retcode :
  closed (@Usage double message retcode).1 = []
  /\ obtained (@Usage double message retcode).1 = [].
Proof. split; apply omap_none; by apply Usage_Forall. Qed.

Lemma balanced_run G L fuel :
  positive_chunks L -> enough_fuel L fuel ->
  closed (transpose G L fuel).1 ≡ₚ obtained (transpose G L fuel).1.
Proof.
  intros Hpos Hfuel. rewrite transpose_trace.
  destruct (malloc G (BSZ L)).
  - apply balanced_app; [by destruct (verbose L)|by apply balanced_z_loop].
  - by destruct (Usage_handles (Some ("Failed to allocate buffer of size " +:+ dec (BSZ L))) 3)
      as [-> ->].
Qed.

End RunReadings.

(** ** Where the events of a run come from *)

Section Anatomy.

Context {double : Type}.
Implicit Types (G : @GDAL double) (L : @locals double) (P : @event double -> Prop).
Implicit Types (body : Z -> list (@event double) * option outcome).

Lemma for_loop_entered fuel bound step body start ev :
  ev ∈ (for_loop fuel bound step body start).1 -> start < bound.
Proof.
  destruct fuel; simpl; (destruct (start <? bound) eqn:E; [by apply Z.ltb_lt in E|]);
    by intros ?%elem_of_nil.
Qed.

Lemma for_loop_result fuel bound step body start :
  (forall s, loop_result (body s).2) ->
  loop_result (for_loop fuel bound step body start).2.
Proof.
  intros Hb. revert start.
  induction fuel as [|fuel IH]; intros start; simpl;
    (destruct (start <? bound); [|by left]); [by right; right|].
  specialize (Hb start). specialize (IH (start + step)).
  destruct (body start) as [t [o|]]; simpl in *; [done|].
  by destruct (for_loop fuel bound step body (start + step)) as [t' r'].
Qed.

Lemma z_loop_result G L fuel : loop_result (z_loop G L fuel).2.
Proof.
  apply for_loop_result. intros startz. unfold z_body.
  destruct (_ <? 0); [by right; left|].
  match goal with |- context [y_loop ?a ?b ?c ?d ?e ?f] =>
    assert (loop_result (y_loop a b c d e f).2) as Hy;
    [|destruct (y_loop a b c d e f) as [t_y [r|]]; [exact Hy|by left]] end.
  apply for_loop_result. intros starty. unfold y_body.
  destruct (_ <? 0); [by right; left|].
  match goal with |- context [x_loop ?a ?b ?c ?d ?e ?f ?g ?h] =>
    assert (loop_result (x_loop a b c d e f g h).2) as Hx;
    [|destruct (x_loop a b c d e f g h) as [t_x [r|]]; [exact Hx|by left]] end.
  apply for_loop_result. intros startx. by left.
Qed.

(** How a run of the loops can end. *)
Lemma transpose_ends G L fuel :
  (transpose G L fuel).2 =
  if malloc G (BSZ L)
  then match (z_loop G L fuel).2 with Some r => r | None => Exit 0 end
  else Exit 3.
Proof.
  unfold transpose. destruct (malloc G (BSZ L)); cbn [negb]; [|done].
  by destruct (z_loop G L fuel).
Qed.

Lemma transpose_exit G L fuel c :
  (transpose G L fuel).2 = Exit c ->
  (c = 3 /\ malloc G (BSZ L) = false) \/ (c = 0 /\ malloc G (BSZ L) = true).
Proof.
  rewrite transpose_ends. destruct (malloc G (BSZ L)).
  - destruct (z_loop_result G L fuel) as [->|[->| ->]]; [|done|done].
    intros [= <-]. by right.
  - intros [= <-]. by left.
Qed.

Lemma transpose_fault G L fuel w :
  (transpose G L fuel).2 = Fault w -> w = "std::length_error".
Proof.
  rewrite transpose_ends. destruct (malloc G (BSZ L)); [|done].
  destruct (z_loop_result G L fuel) as [->|[->| ->]]; [done| |done].
  by intros [= <-].
Qed.

(** *** Where an event of the loops comes from *)

Lemma event_of_y_loop G L fuel startz ev :
  ev ∈ (y_loop G L fuel (chunk_inh G L startz) startz
          (Z.min (psz L) (zsz L - startz))).1 ->
  exists j : nat,
    0 < ysz L /\ Z.of_nat j * pszy L < ysz L
    /\ 0 <= Z.min (pszy L) (ysz L - Z.of_nat j * pszy L)
    /\ from_y_chunk G L startz (Z.of_nat j * pszy L) ev.
Proof.
  intros Hin. pose proof (for_loop_entered _ _ _ _ _ _ Hin) as H0.
  apply for_loop_elem_inv in Hin as (j & Hj & Hin). rewrite Z.add_0_l in Hj, Hin.
  exists j. split; [done|]. split; [done|].
  unfold y_body in Hin. cbv zeta in Hin.
  destruct (_ <? 0) eqn:Hneg; [by apply elem_of_nil in Hin|].
  apply Z.ltb_ge in Hneg. split; [done|].
  unfold from_y_chunk. cbv zeta.
  fold (chunk_outh G L (Z.of_nat j * pszy L)) in Hin.
  destruct (x_loop _ _ _ _ _ _ _ _) as [t_x r] eqn:Hx.
  assert (ev ∈ t_x -> exists i : nat,
             0 < xsz L /\ Z.of_nat i * pszx L < xsz L
             /\ ev ∈ (x_body L (chunk_inh G L startz)
                        (chunk_outh G L (Z.of_nat j * pszy L))
                        (Z.of_nat j * pszy L) startz
                        (Z.min (pszy L) (ysz L - Z.of_nat j * pszy L))
                        (Z.min (psz L) (zsz L - startz))
                        (Z.of_nat i * pszx L)).1) as Hxin.
  { intros H. replace t_x with (t_x, r).1 in H by done. rewrite <- Hx in H.
    pose proof (for_loop_entered _ _ _ _ _ _ H) as Hx0.
    apply for_loop_elem_inv in H as (i & Hi & H). rewrite Z.add_0_l in Hi, H.
    by exists i. }
  assert (ev ∈ concat (snd <$> (create_slice G L (Z.of_nat j * pszy L) <$>
                                  seqZ 0 (Z.min (pszy L) (ysz L - Z.of_nat j * pszy L)))) ->
          exists z, 0 <= z < Z.min (pszy L) (ysz L - Z.of_nat j * pszy L)
                    /\ ev ∈ (create_slice G L (Z.of_nat j * pszy L) z).2) as Hcin.
  { intros (z & Hz%elem_of_seqZ & H)%elem_of_blocks. exists z. split; [lia|done]. }
  destruct r as [r|]; cbn [fst] in Hin.
  - apply elem_of_app in Hin as [Hin|Hin]; [left; auto|right; right; auto].
  - apply elem_of_app in Hin as [Hin|Hin]; [left; auto|].
    apply elem_of_app in Hin as [Hin|Hin]; [right; right; auto|].
    apply list_elem_of_fmap in Hin as (h & -> & Hh). right. left. by exists h.
Qed.

Lemma event_of_z_loop G L fuel ev :
  ev ∈ (z_loop G L fuel).1 ->
  exists k : nat,
    0 < zsz L /\ Z.of_nat k * psz L < zsz L
    /\ 0 <= Z.min (psz L) (zsz L - Z.of_nat k * psz L)
    /\ from_z_chunk G L (Z.of_nat k * psz L) ev.
Proof.
  intros Hin. pose proof (for_loop_entered _ _ _ _ _ _ Hin) as H0.
  apply for_loop_elem_inv in Hin as (k & Hk & Hin). rewrite Z.add_0_l in Hk, Hin.
  exists k. split; [done|]. split; [done|].
  unfold z_body in Hin. cbv zeta in Hin.
  destruct (_ <? 0) eqn:Hneg; [by apply elem_of_nil in Hin|].
  apply Z.ltb_ge in Hneg. split; [done|].
  unfold from_z_chunk. cbv zeta.
  fold (chunk_inh G L (Z.of_nat k * psz L)) in Hin.
  destruct (y_loop _ _ _ _ _ _) as [t_y r] eqn:Hy.
  assert (ev ∈ t_y -> exists j : nat,
             0 < ysz L /\ Z.of_nat j * pszy L < ysz L
             /\ 0 <= Z.min (pszy L) (ysz L - Z.of_nat j * pszy L)
             /\ from_y_chunk G L (Z.of_nat k * psz L) (Z.of_nat j * pszy L) ev) as Hyin.
  { intros H. replace t_y with (t_y, r).1 in H by done. rewrite <- Hy in H.
    by apply event_of_y_loop in H. }
  assert (ev ∈ concat (snd <$> (open_slice G L (Z.of_nat k * psz L) <$>
                                  seqZ 0 (Z.min (psz L) (zsz L - Z.of_nat k * psz L)))) ->
          exists z, 0 <= z < Z.min (psz L) (zsz L - Z.of_nat k * psz L)
                    /\ ev ∈ (open_slice G L (Z.of_nat k * psz L) z).2) as Hoin.
  { intros (z & Hz%elem_of_seqZ & H)%elem_of_blocks. exists z. split; [lia|done]. }
  destruct r as [r|]; cbn [fst] in Hin.
  - apply elem_of_app in Hin as [Hin|Hin]; [left; auto|right; right; auto].
  - apply elem_of_app in Hin as [Hin|Hin]; [left; auto|].
    apply elem_of_app in Hin as [Hin|Hin]; [right; right; auto|].
    apply list_elem_of_fmap in Hin as (h & -> & Hh). right. left. by exists h.
Qed.

(** The events of a run of the loops that are not lines on [cout] or
    [cerr] are events of the chunk loops. *)
Lemma event_of_transpose G L fuel ev :
  ev ∈ (transpose G L fuel).1 ->
  (forall l, ev <> Cout l) -> (forall l, ev <> Cerr l) ->
  malloc G (BSZ L) = true /\ ev ∈ (z_loop G L fuel).1.
Proof.
  rewrite transpose_trace. destruct (malloc G (BSZ L)).
  - intros [Hin|Hin]%elem_of_app Hout Herr; [|done].
    destruct (verbose L); [|by apply elem_of_nil in Hin].
    apply list_elem_of_singleton in Hin. by destruct (Hout _ Hin).
  - intros Hin Hout Herr. exfalso.
    pose proof (Usage_Forall (fun ev : @event double => exists l, ev = Cerr l)
      (Some ("Failed to allocate buffer of size " +:+ dec (BSZ L))) 3) as HU.
    rewrite Forall_forall in HU. destruct (HU ltac:(eauto) _ Hin) as [l ->].
    by destruct (Herr l).
Qed.

(** Every slice that is created is a slice of the destination, with the
    extents and the options the run holds. *)
Lemma create_in_loops G L fuel ev :
  is_create ev -> ev ∈ (z_loop G L fuel).1 ->
  exists y, 0 <= y < ysz L
    /\ ev = Create (slice_name (TargetName L) y) (xsz L) (zsz L) (csz L) (dt L) (copt L)
              (GDALCreate G (slice_name (TargetName L) y)
                 (xsz L) (zsz L) (csz L) (dt L) (copt L)).
Proof.
  intros Hc (k & _ & Hk & Hdz & [H|[H|H]])%event_of_z_loop.
  - destruct H as (z & _ & Hin). unfold open_slice in Hin. cbn in Hin.
    apply list_elem_of_singleton in Hin. subst ev. destruct Hc.
  - destruct H as (h & _ & ->). destruct Hc.
  - destruct H as (j & _ & Hj & Hdy & [H|[H|H]]).
    + destruct H as (z & Hz & Hin). exists (Z.of_nat j * pszy L + z).
      split; [nia|].
      unfold create_slice in Hin. cbn [snd] in Hin.
      apply elem_of_cons in Hin as [Hin|Hin]; [done|]. exfalso.
      destruct (nodata L), (stats L) as [[[[? ?] ?] ?]|], (geo L);
        cbn in Hin; repeat (apply elem_of_cons in Hin as [Hin|Hin]; [by subst ev|]);
        by apply elem_of_nil in Hin.
    + destruct H as (h & _ & ->). destruct Hc.
    + destruct H as (i & _ & _ & Hin). exfalso. unfold x_body in Hin. cbn [fst] in Hin.
      apply elem_of_cons in Hin as [->|Hin]; [done|].
      apply elem_of_app in Hin as [Hin|Hin];
        apply list_elem_of_fmap in Hin as (z & -> & _); done.
Qed.

End Anatomy.

(** ** From [main] to the loops, event by event *)

Section MainFacts.

Context {double : Type}.
Variable of_int : Z -> double.
Variables fmul fdiv : double -> double -> double.
Implicit Types (G : @GDAL double) (L : @locals double) (P : @event double -> Prop).

Lemma slice_call_not_cout (ev : @event double) :
  slice_call ev -> (forall l, ev <> Cout l) /\ (forall l, ev <> Cerr l).
Proof. intros H. split; intros l ->; destruct H. Qed.

(** A call on a slice is made by the chunk loops, after every check of
    the arguments and of the source has passed and the buffer has been
    allocated. *)
Lemma loops_of_main G fuel argv ev :
  slice_call ev ->
  ev ∈ (main of_int fmul fdiv G fuel argv).1 ->
  exists o src tgt h zs,
    parsed G argv o /\ o_fnames o = [src; tgt]
    /\ GDALOpen G src = Some h
    /\ EQUAL (GDALGetDriverShortName G h) "MRF" = true
    /\ CSLFetchNameValue (GDALGetMetadata G h "IMAGE_STRUCTURE") "ZSIZE" = Some zs
    /\ malloc G (BSZ (describe_source of_int fmul fdiv G o src tgt h zs)) = true
    /\ ev ∈ (z_loop G (describe_source of_int fmul fdiv G o src tgt h zs) fuel).1.
Proof.
  intros Hs. unfold main.
  assert (forall m c, ev ∉ (@Usage double m c).1) as HU.
  { intros m c Hin.
    pose proof (Usage_Forall (fun ev : @event double => ~ slice_call ev) m c) as H.
    rewrite Forall_forall in H. apply (H ltac:(by intros l []) _ Hin Hs). }
  destruct (GDALGetDriverByName G "MRF") eqn:Hd; cbn [negb].
  2:{ intros Hin. exfalso. destruct (Usage _ _) as [t r] eqn:E.
      apply (HU (Some "MRF driver not found") 1). by rewrite E. }
  destruct (GDALGeneralCmdLineProcessor G argv) as [nArgc argv'] eqn:Hg.
  destruct (nArgc <? 1) eqn:Hn; [by intros ?%elem_of_nil|]. apply Z.ltb_ge in Hn.
  destruct (parse_args _ _) as [o|] eqn:Hp; [|by intros ?%elem_of_nil].
  destruct (o_fnames o) as [|src [|tgt [|x l]]] eqn:Hf;
    try (intros Hin; exfalso; destruct (Usage _ _) as [t r] eqn:E;
         apply (HU None 1); by rewrite E).
  unfold convert.
  destruct (GDALOpen G src) as [h|] eqn:Ho.
  2:{ cbn [fst]. intros Hin. exfalso.
      repeat (apply elem_of_cons in Hin as [->|Hin]; [destruct Hs|]).
      by apply elem_of_nil in Hin. }
  destruct (EQUAL (GDALGetDriverShortName G h) "MRF") eqn:He; cbn [negb].
  2:{ intros Hin. exfalso. destruct (Usage _ _) as [t r] eqn:E. cbn [fst] in Hin.
      apply elem_of_cons in Hin as [->|Hin]; [destruct Hs|].
      apply (HU (Some "Input file is not MRF") 2). by rewrite E. }
  destruct (CSLFetchNameValue _ _) as [zs|] eqn:Hz.
  2:{ intros Hin. exfalso. destruct (Usage _ _) as [t r] eqn:E. cbn [fst] in Hin.
      apply elem_of_cons in Hin as [->|Hin]; [destruct Hs|].
      apply (HU (Some "Source is not a 3-rd dimension MRF") 2). by rewrite E. }
  cbv zeta. set (L := describe_source of_int fmul fdiv G o src tgt h zs).
  destruct (transpose G L fuel) as [t r] eqn:Et. cbn [fst].
  intros Hin. apply elem_of_cons in Hin as [->|Hin]; [destruct Hs|].
  apply elem_of_app in Hin as [Hin|Hin].
  { exfalso. unfold list_options in Hin. destruct (verbose L).
    - apply list_elem_of_fmap in Hin as (l & -> & _). destruct Hs.
    - by apply elem_of_nil in Hin. }
  apply elem_of_cons in Hin as [->|Hin]; [destruct Hs|].
  replace t with (transpose G L fuel).1 in Hin by (by rewrite Et).
  destruct (slice_call_not_cout ev Hs) as [H1 H2].
  apply event_of_transpose in Hin as [Hm Hin]; [|done|done].
  exists o, src, tgt, h, zs. unfold parsed. rewrite Hg. cbn [fst snd].
  repeat split; try done; lia.
Qed.

Lemma parse_args_keeps_geo args o o' :
  Forall (fun a => EQUAL a "-g" = false) args ->
  parse_args args o = Some o' -> o_geo o' = o_geo o.
Proof.
  revert o. induction args as [|a|a v rest IH1 IH2] using args_ind; intros o.
  - by intros _ [= <-].
  - intros [Ha _]%Forall_cons. rewrite parse_args_cons, Ha.
    destruct (EQUAL a "-z"); [done|].
    destruct (EQUAL a "-v"); by intros [= <-].
  - intros [Ha Hr]%Forall_cons. pose proof Hr as [_ Hr']%Forall_cons.
    rewrite parse_args_cons, Ha.
    destruct (EQUAL a "-z"); [intros H; by rewrite (IH1 _ Hr' H)|].
    destruct (EQUAL a "-v"); intros H; by rewrite (IH2 _ Hr H).
Qed.

Lemma describe_source_fields G o src tgt h zs :
  let L := describe_source of_int fmul fdiv G o src tgt h zs in
  verbose L = o_verbose o /\ geo L = o_geo o
  /\ SourceName L = src /\ TargetName L = tgt
  /\ zsz L = atoi zs /\ csz L = GDALGetRasterCount G h
  /\ xsz L = GDALGetRasterBandXSize G h 1 /\ ysz L = GDALGetRasterBandYSize G h 1
  /\ dt L = GDALGetRasterDataType G h 1
  /\ pszx L = (GDALGetBlockSize G h 1).1 /\ pszy L = (GDALGetBlockSize G h 1).2
  /\ projection L = GDALGetProjectionRef G h
  /\ gt L = scale_gt of_int fmul fdiv (GDALGetGeoTransform G h)
              (GDALGetRasterBandYSize G h 1) (atoi zs).
Proof.
  cbv zeta. unfold describe_source. by destruct (GDALGetBlockSize G h 1).
Qed.

Lemma create_slice_events P G L starty z :
  (forall n xs ys nb t o h, P (Create n xs ys nb t o h)) ->
  (forall h b v, P (SetRasterNoDataValue h b v)) ->
  (forall h b mn mx mean sd, P (SetRasterStatistics h b mn mx mean sd)) ->
  (geo L = true -> forall h, P (SetProjection h (projection L))
                             /\ P (SetGeoTransform h (gt L))) ->
  Forall P (create_slice G L starty z).2.
Proof.
  intros Hc Hn Hs Hg. unfold create_slice. cbn [snd].
  destruct (nodata L), (stats L) as [[[[? ?] ?] ?]|], (geo L);
    repeat constructor; try done; by apply Hg.
Qed.

Lemma x_body_events P L inh outh starty startz dy dz startx :
  (forall l, P (Cout l)) ->
  (forall h rw xoff yoff xs ys buf bx by_ t nb ps ls bs,
      P (DatasetRasterIO h rw xoff yoff xs ys buf bx by_ t nb ps ls bs)) ->
  Forall P (x_body L inh outh starty startz dy dz startx).1.
Proof.
  intros Hc Hio. unfold x_body. cbn [fst]. constructor; [apply Hc|].
  apply Forall_app. split; apply Forall_fmap, Forall_forall; intros z _; apply Hio.
Qed.

Lemma georef_values_run G L fuel :
  Forall (georef_of L) (transpose G L fuel).1.
Proof.
  apply transpose_Forall; [done|done|]. apply z_loop_Forall.
  - intros. repeat constructor.
  - intros. by apply create_slice_events.
  - intros. by apply x_body_events.
  - done.
Qed.

Lemma no_georef_run G L fuel :
  geo L = false -> Forall (fun ev => ~ is_georef ev) (transpose G L fuel).1.
Proof.
  intros Hg.
  apply transpose_Forall; [by intros l []|by intros l []|]. apply z_loop_Forall.
  - intros. repeat constructor. by intros [].
  - intros. apply create_slice_events; try (by intros; intros []).
    intros Hg'. congruence.
  - intros. apply x_body_events; by intros; intros [].
  - by intros h [].
Qed.

(** How a run with two file names can end: with 0, 2 or 3, or with the
    exception of the loops. *)
Lemma convert_ends G fuel o src tgt :
  (forall c, (convert of_int fmul fdiv G fuel o src tgt).2 = Exit c ->
             c = 0 \/ c = 2 \/ c = 3)
  /\ (forall w, (convert of_int fmul fdiv G fuel o src tgt).2 = Fault w ->
                w = "std::length_error").
Proof.
  unfold convert.
  destruct (GDALOpen G src) as [h|]; [|split; [intros c [= <-]; by left|done]].
  destruct (negb _); [split; [intros c [= <-]; right; by left|done]|].
  destruct (CSLFetchNameValue _ _) as [zs|];
    [|split; [intros c [= <-]; right; by left|done]].
  cbv zeta.
  pose proof (transpose_exit G (describe_source of_int fmul fdiv G o src tgt h zs) fuel)
    as Hexit.
  pose proof (transpose_fault G (describe_source of_int fmul fdiv G o src tgt h zs) fuel)
    as Hfault.
  destruct (transpose _ _ _) as [t r]. cbn [snd] in *. split.
  - intros c ->. destruct (Hexit c eq_refl) as [[-> _]|[-> _]]; auto.
  - intros w ->. by apply Hfault.
Qed.

End MainFacts.

(** ** Texts and their prefixes *)

Lemma str_app_assoc (a b c : string) : (a +:+ b) +:+ c = a +:+ (b +:+ c).
Proof.
  induction a as [|x a IH]; [done|].
  change (String x ((a +:+ b) +:+ c) = String x (a +:+ (b +:+ c))). by rewrite IH.
Qed.

Lemma str_app_nonempty (a b : string) : a <> "" -> a +:+ b <> "".
Proof. by destruct a. Qed.

Lemma length_pos_nonempty (a : string) : a <> "" <-> (0 <? String.length a)%nat = true.
Proof. destruct a; cbn; split; done. Qed.

(** Two prefixes of one string, without regard to case, are prefixes of
    one another. *)
Lemma STARTS_WITH_CI_comparable s p q :
  STARTS_WITH_CI s p = true -> STARTS_WITH_CI s q = true ->
  STARTS_WITH_CI p q = true \/ STARTS_WITH_CI q p = true.
Proof.
  revert p q. induction s as [|x s IH]; intros [|y p] [|z q]; cbn; try done; auto.
  destruct (Ascii.eqb (toupper x) (toupper y)) eqn:E1; [|done].
  destruct (Ascii.eqb (toupper x) (toupper z)) eqn:E2; [|done].
  apply Ascii.eqb_eq in E1, E2.
  rewrite <- E1, <- E2, !Ascii.eqb_refl. apply IH.
Qed.

Lemma STARTS_WITH_CI_apart s p q :
  STARTS_WITH_CI p q = false -> STARTS_WITH_CI q p = false ->
  STARTS_WITH_CI s p = true -> STARTS_WITH_CI s q = false.
Proof.
  intros H1 H2 Hp. destruct (STARTS_WITH_CI s q) eqn:Hq; [|done].
  destruct (STARTS_WITH_CI_comparable s p q Hp Hq); congruence.
Qed.

Lemma STARTS_WITH_CI_nonempty s p :
  p <> "" -> STARTS_WITH_CI s p = true -> s <> "".
Proof. intros Hp H ->. by destruct p. Qed.

(** The prefixes of the free form options are apart from those of the
    entries that are renamed or left out. *)
Lemma is_free_apart s :
  is_free s = true ->
  STARTS_WITH_CI s "COMPRESSION=" = false /\ is_dropped s = false.
Proof.
  unfold is_free, is_dropped. rewrite !orb_true_iff.
  intros H.
  assert (forall q, (forall p, p ∈ ["V1="; "GZ="; "ZSTD="; "RAWZ="; "DEFLATE="; "LERC_PREC="] ->
                       STARTS_WITH_CI p q = false /\ STARTS_WITH_CI q p = false) ->
                    STARTS_WITH_CI s q = false) as Hq.
  { intros q Hall.
    assert (exists p, p ∈ ["V1="; "GZ="; "ZSTD="; "RAWZ="; "DEFLATE="; "LERC_PREC="]
                      /\ STARTS_WITH_CI s p = true) as (p & Hp & Hs).
    { destruct H as [[[[[H|H]|H]|H]|H]|H]; eexists; (split; [|exact H]);
        apply list_elem_of_In; cbn; tauto. }
    destruct (Hall p Hp) as [H1 H2]. by apply (STARTS_WITH_CI_apart s p q). }
  assert (forall q, forallb (fun p => negb (STARTS_WITH_CI p q) && negb (STARTS_WITH_CI q p))
                      ["V1="; "GZ="; "ZSTD="; "RAWZ="; "DEFLATE="; "LERC_PREC="] = true ->
                    STARTS_WITH_CI s q = false) as Hq'.
  { intros q Hb. apply Hq. intros p Hp%list_elem_of_In.
    rewrite forallb_forall in Hb. specialize (Hb p Hp).
    apply andb_true_iff in Hb as [H1 H2].
    by rewrite negb_true_iff in H1, H2. }
  rewrite !Hq' by reflexivity. done.
Qed.

(** ** The metadata filter *)

Lemma filter_metadata_cons s md copt freeopt :
  filter_metadata (s :: md) copt freeopt =
  if STARTS_WITH_CI s "COMPRESSION=" then
    filter_metadata md (copt ++ ["COMPRESS=" +:+ after_equal s]) freeopt
  else if is_dropped s then filter_metadata md copt freeopt
  else if is_free s then filter_metadata md copt (freeopt ++ [s])
  else filter_metadata md (copt ++ [s]) freeopt.
Proof. reflexivity. Qed.

(** The free form options are the entries with one of the six prefixes, in
    the order of the source. *)
Lemma filter_metadata_free md copt freeopt :
  (filter_metadata md copt freeopt).2 = freeopt ++ List.filter is_free md.
Proof.
  revert copt freeopt. induction md as [|s md IH]; intros copt freeopt.
  - cbn. by rewrite app_nil_r.
  - rewrite filter_metadata_cons. cbn [List.filter].
    destruct (is_free s) eqn:Hf.
    + destruct (is_free_apart s Hf) as [-> ->]. by rewrite IH, <- app_assoc.
    + destruct (STARTS_WITH_CI s "COMPRESSION="); [apply IH|].
      destruct (is_dropped s); apply IH.
Qed.

(** What is kept as a creation option stays in front of what follows. *)
Lemma filter_metadata_copt md copt freeopt :
  exists more, (filter_metadata md copt freeopt).1 = copt ++ more
    /\ more = (filter_metadata md [] []).1.
Proof.
  revert copt freeopt. induction md as [|s md IH]; intros copt freeopt.
  - exists []. by rewrite app_nil_r.
  - eexists. split; [|reflexivity].
    rewrite !filter_metadata_cons.
    destruct (STARTS_WITH_CI s "COMPRESSION=").
    { destruct (IH (copt ++ ["COMPRESS=" +:+ after_equal s]) freeopt) as (m & -> & ->).
      destruct (IH ([] ++ ["COMPRESS=" +:+ after_equal s]) []) as (m' & -> & ->).
      by rewrite <- !app_assoc. }
    destruct (is_dropped s).
    { destruct (IH copt freeopt) as (m & -> & ->). done. }
    destruct (is_free s).
    { destruct (IH copt (freeopt ++ [s])) as (m & -> & ->).
      destruct (IH [] ([] ++ [s])) as (m' & E & ->). rewrite E. done. }
    destruct (IH (copt ++ [s]) freeopt) as (m & -> & ->).
    destruct (IH ([] ++ [s]) []) as (m' & -> & ->).
    by rewrite <- !app_assoc.
Qed.

Lemma filter_metadata_Forall (Q : string -> Prop) md copt freeopt :
  (forall s, STARTS_WITH_CI s "COMPRESSION=" = true -> Q ("COMPRESS=" +:+ after_equal s)) ->
  (forall s, STARTS_WITH_CI s "COMPRESSION=" = false -> is_dropped s = false ->
             is_free s = false -> Q s) ->
  Forall Q copt -> Forall Q (filter_metadata md copt freeopt).1.
Proof.
  intros Hc Hs. revert copt freeopt.
  induction md as [|s md IH]; intros copt freeopt Hcopt; [done|].
  rewrite filter_metadata_cons.
  destruct (STARTS_WITH_CI s "COMPRESSION=") eqn:E1.
  { apply IH, Forall_app. split; [done|]. repeat constructor. by apply Hc. }
  destruct (is_dropped s) eqn:E2; [by apply IH|].
  destruct (is_free s) eqn:E3; [by apply IH|].
  apply IH, Forall_app. split; [done|]. repeat constructor. by apply Hs.
Qed.

Lemma filter_metadata_keeps md copt freeopt s :
  s ∈ md ->
  (STARTS_WITH_CI s "COMPRESSION=" = true ->
   ("COMPRESS=" +:+ after_equal s) ∈ (filter_metadata md copt freeopt).1)
  /\ (STARTS_WITH_CI s "COMPRESSION=" = false -> is_dropped s = false ->
      is_free s = false -> s ∈ (filter_metadata md copt freeopt).1).
Proof.
  assert (forall md copt freeopt x, x ∈ copt -> x ∈ (filter_metadata md copt freeopt).1)
    as Hkeep.
  { intros md' copt' freeopt' x Hx.
    destruct (filter_metadata_copt md' copt' freeopt') as (m & -> & _).
    apply elem_of_app. by left. }
  revert copt freeopt. induction md as [|a md IH]; intros copt freeopt Hin;
    [by apply elem_of_nil in Hin|].
  apply elem_of_cons in Hin as [->|Hin].
  - rewrite filter_metadata_cons. split.
    + intros ->. apply Hkeep, elem_of_app. right. by apply list_elem_of_singleton.
    + intros -> -> ->. apply Hkeep, elem_of_app. right. by apply list_elem_of_singleton.
  - rewrite filter_metadata_cons.
    destruct (STARTS_WITH_CI a "COMPRESSION="); [by apply IH|].
    destruct (is_dropped a); [by apply IH|].
    destruct (is_free a); by apply IH.
Qed.

(** ** The free form options, joined *)

Lemma join_freeopt_concat fopt freeopt :
  fopt <> "" ->
  join_freeopt fopt freeopt = String.concat " " (fopt :: freeopt).
Proof.
  revert fopt. induction freeopt as [|s l IH]; intros fopt Hne; [done|].
  cbn [join_freeopt].
  apply length_pos_nonempty in Hne as Hlen. rewrite Hlen.
  rewrite IH by (rewrite str_app_assoc; by apply str_app_nonempty).
  destruct l as [|s' l]; cbn [String.concat]; by rewrite !str_app_assoc.
Qed.

Lemma join_freeopt_start freeopt :
  Forall (fun s => s <> "") freeopt ->
  join_freeopt "" freeopt = String.concat " " freeopt.
Proof.
  intros [|s l Hs _]; [done|]. cbn [join_freeopt]. cbn [String.length Nat.ltb Nat.leb].
  change ("" +:+ s) with s. by apply join_freeopt_concat.
Qed.

Lemma is_free_nonempty s : is_free s = true -> s <> "".
Proof. by intros H ->. Qed.

Lemma join_freeopt_nonempty freeopt :
  freeopt <> [] -> Forall (fun s => s <> "") freeopt ->
  join_freeopt "" freeopt <> "".
Proof.
  intros Hne Hall. rewrite join_freeopt_start by done.
  destruct Hall as [|s l Hs _]; [done|].
  destruct l; cbn [String.concat]; [done|]. by apply str_app_nonempty.
Qed.

(** ** The creation options *)

Lemma creation_options_eq md pszx psz ysz :
  creation_options md pszx psz ysz =
  (filter_metadata md [] []).1
  ++ (if (0 <? String.length (join_freeopt "" (List.filter is_free md)))%nat
      then ["OPTIONS=" +:+ join_freeopt "" (List.filter is_free md)] else [])
  ++ ["BLOCKXSIZE=" +:+ dec pszx; "BLOCKYSIZE=" +:+ dec psz; "ZSIZE=" +:+ dec ysz].
Proof.
  unfold creation_options.
  pose proof (filter_metadata_free md [] []) as Hf.
  destruct (filter_metadata md [] []) as [copt freeopt]. cbn [fst snd] in *.
  rewrite Hf. cbn [app].
  destruct (0 <? String.length _)%nat; unfold CSLAddNameValue;
    by rewrite <- ?app_assoc.
Qed.

(** ** Runs of [main] *)

Section MainStatements.

Context {double : Type}.
Variable of_int : Z -> double.
Variables fmul fdiv : double -> double -> double.
Implicit Types (G : @GDAL double) (L : @locals double).

(** X4: the runs that stop before the source is opened.  Without the MRF
    driver the usage text follows the complaint and the run returns 1,
    whatever the arguments.  When the option processing of GDAL leaves [nArgc]
    below 1, the run exits with [-nArgc] and prints nothing.  [-z] in the
    last place reads its value past the arguments.  Any number of file
    names other than two gives the usage text alone and 1.  With the driver
    and arguments, the run returns 1 in no other case, and it reads past its
    arguments in no other case. *)
Theorem early_exits G (fuel : nat) argv :
  let nArgc := (GDALGeneralCmdLineProcessor G argv).1 in
  let args := drop 1 (take (Z.to_nat nArgc) (GDALGeneralCmdLineProcessor G argv).2) in
  (GDALGetDriverByName G "MRF" = false ->
   main of_int fmul fdiv G fuel argv =
   ((Usage (Some "MRF driver not found") 1).1, Exit 1))
  /\ (GDALGetDriverByName G "MRF" = true ->
      (nArgc < 1 -> main of_int fmul fdiv G fuel argv = ([], Exit (- nArgc)))
      /\ (1 <= nArgc -> parse_args args no_options = None ->
          main of_int fmul fdiv G fuel argv = ([], Fault "atoi(NULL)"))
      /\ (forall o, 1 <= nArgc -> parse_args args no_options = Some o ->
            length (o_fnames o) <> 2%nat ->
            main of_int fmul fdiv G fuel argv = ((Usage None 1).1, Exit 1))
      /\ (1 <= nArgc -> (main of_int fmul fdiv G fuel argv).2 = Exit 1 ->
          exists o, parse_args args no_options = Some o
                    /\ length (o_fnames o) <> 2%nat)
      /\ (1 <= nArgc -> (main of_int fmul fdiv G fuel argv).2 = Fault "atoi(NULL)" ->
          parse_args args no_options = None)).
Proof.
  cbv zeta. unfold main.
  destruct (GDALGeneralCmdLineProcessor G argv) as [nArgc argv']. cbn [fst snd].
  split; [by intros ->|]. intros ->. cbn [negb]. split; [|split; [|split; [|split]]].
  - intros H. apply Z.ltb_lt in H. by rewrite H.
  - intros H Hp. apply Z.ltb_ge in H. by rewrite H, Hp.
  - intros o H Hp Hl. apply Z.ltb_ge in H. rewrite H, Hp.
    by destruct (o_fnames o) as [|? [|? [|? ?]]].
  - intros H. apply Z.ltb_ge in H. rewrite H.
    destruct (parse_args _ _) as [o|]; [|done].
    destruct (o_fnames o) as [|src [|tgt [|? ?]]] eqn:Hf;
      try (intros _; exists o; by rewrite Hf).
    intros Hr. destruct (proj1 (convert_ends _ _ _ G fuel o src tgt) 1 Hr) as [?|[?|?]]; lia.
  - intros H. apply Z.ltb_ge in H. rewrite H.
    destruct (parse_args _ _) as [o|]; [|done].
    destruct (o_fnames o) as [|src [|tgt [|? ?]]]; try done.
    intros Hr. by apply (proj2 (convert_ends _ _ _ G fuel o src tgt)) in Hr.
Qed.

(** X5: what the exit code of a run with two file names says.  It is 2
    exactly when the source opens and is not an MRF or has no [ZSIZE]; it
    is 3 exactly when the source passes and the buffer cannot be
    allocated; no other code than 0, 2 and 3 is returned, and the only
    exception is that of the vector with a negative length. *)
Theorem exit_codes G (fuel : nat) argv o src tgt :
  parsed G argv o -> o_fnames o = [src; tgt] ->
  let r := (main of_int fmul fdiv G fuel argv).2 in
  (r = Exit 2 <->
   exists h, GDALOpen G src = Some h
     /\ (EQUAL (GDALGetDriverShortName G h) "MRF" = false
         \/ CSLFetchNameValue (GDALGetMetadata G h "IMAGE_STRUCTURE") "ZSIZE" = None))
  /\ (r = Exit 3 <->
      exists h zs, GDALOpen G src = Some h
        /\ EQUAL (GDALGetDriverShortName G h) "MRF" = true
        /\ CSLFetchNameValue (GDALGetMetadata G h "IMAGE_STRUCTURE") "ZSIZE" = Some zs
        /\ malloc G (BSZ (describe_source of_int fmul fdiv G o src tgt h zs)) = false)
  /\ (forall c, r = Exit c -> c = 0 \/ c = 2 \/ c = 3)
  /\ (forall w, r = Fault w -> w = "std::length_error").
Proof.
  intros Hp Hf. cbv zeta. rewrite (main_parsed _ _ _ _ _ _ _ _ _ Hp Hf).
  unfold convert.
  destruct (GDALOpen G src) as [h|] eqn:Ho.
  2:{ cbn [snd]. repeat split; try done.
      - by intros (h & ? & _).
      - by intros (h & zs & ? & _).
      - intros c [= <-]. by left. }
  destruct (EQUAL (GDALGetDriverShortName G h) "MRF") eqn:He; cbn [negb].
  2:{ cbn [snd]. repeat split; try done.
      - intros _. exists h. split; [done|]. by left.
      - intros (h' & zs & [= <-] & E & _). congruence.
      - intros c [= <-]. right. by left. }
  destruct (CSLFetchNameValue _ _) as [zs|] eqn:Hz.
  2:{ cbn [snd]. repeat split; try done.
      - intros _. exists h. split; [done|]. by right.
      - intros (h' & zs & [= <-] & _ & E & _). congruence.
      - intros c [= <-]. right. by left. }
  cbv zeta. set (L := describe_source of_int fmul fdiv G o src tgt h zs).
  pose proof (transpose_exit G L fuel) as Hexit.
  pose proof (transpose_fault G L fuel) as Hfault.
  pose proof (transpose_ends G L fuel) as Hends.
  destruct (transpose G L fuel) as [t r]. cbn [snd] in *.
  split; [|split; [|split]].
  - split.
    + intros ->. destruct (Hexit 2 eq_refl) as [[? _]|[? _]]; done.
    + intros (h' & [= <-] & [E|E]); congruence.
  - split.
    + intros ->. destruct (Hexit 3 eq_refl) as [[_ Hm]|[? _]]; [|done].
      by exists h, zs.
    + intros (h' & zs' & [= <-] & _ & E & Hm).
      assert (zs' = zs) as -> by congruence. fold L in Hm.
      by rewrite Hm in Hends.
  - intros c ->. destruct (Hexit c eq_refl) as [[-> _]|[-> _]]; auto.
  - intros w ->. by apply Hfault.
Qed.

(** X6: a slice is created only after every check has passed: the
    arguments name two files, the source opens, is an MRF and has a
    [ZSIZE], and the buffer is allocated.  What is created then is a slice
    of the target, numbered by a row of the source, as wide as the source,
    as high as the source is deep, with the band count and the data type of
    the source and the creation options of the run. *)
Theorem creates_of_main G (fuel : nat) argv n xs ys nb t opts h' :
  Create n xs ys nb t opts h' ∈ (main of_int fmul fdiv G fuel argv).1 ->
  exists o src tgt h zs,
    parsed G argv o /\ o_fnames o = [src; tgt]
    /\ GDALOpen G src = Some h
    /\ EQUAL (GDALGetDriverShortName G h) "MRF" = true
    /\ CSLFetchNameValue (GDALGetMetadata G h "IMAGE_STRUCTURE") "ZSIZE" = Some zs
    /\ malloc G (BSZ (describe_source of_int fmul fdiv G o src tgt h zs)) = true
    /\ (exists y, 0 <= y < GDALGetRasterBandYSize G h 1 /\ n = slice_name tgt y)
    /\ xs = GDALGetRasterBandXSize G h 1 /\ ys = atoi zs
    /\ nb = GDALGetRasterCount G h /\ t = GDALGetRasterDataType G h 1
    /\ opts = copt (describe_source of_int fmul fdiv G o src tgt h zs)
    /\ h' = GDALCreate G n xs ys nb t opts.
Proof.
  intros Hin.
  apply loops_of_main in Hin as (o & src & tgt & h & zs & Hp & Hf & Ho & He & Hz & Hm & Hin);
    [|exact I].
  exists o, src, tgt, h, zs. repeat (split; [done|]).
  apply create_in_loops in Hin as (y & Hy & E); [|exact I].
  destruct (describe_source_fields of_int fmul fdiv G o src tgt h zs)
    as (_ & _ & _ & Ht & Hzs & Hc & Hx & Hys & Hd & _).
  cbv zeta in *. injection E as -> -> -> -> -> -> ->.
  rewrite Ht, Hzs, Hc, Hx, Hd. rewrite Hys in Hy.
  split; [by exists y|]. done.
Qed.


End MainStatements.

(** ** Runs of the loops *)

Section RunStatements.

Context {double : Type}.
Variable of_int : Z -> double.
Variables fmul fdiv : double -> double -> double.
Implicit Types (G : @GDAL double) (L : @locals double).

Lemma scale_gt_lookup (g : list double) ysz zsz :
  length (scale_gt of_int fmul fdiv g ysz zsz) = length g
  /\ (forall i, i <> 5%nat -> scale_gt of_int fmul fdiv g ysz zsz !! i = g !! i)
  /\ scale_gt of_int fmul fdiv g ysz zsz !! 5%nat
     = (fun g5 => fmul g5 (fdiv (of_int ysz) (of_int zsz))) <$> g !! 5%nat.
Proof.
  unfold scale_gt. destruct (g !! 5%nat) as [g5|] eqn:E.
  - split; [apply length_insert|]. split.
    + intros i Hi. by apply list_lookup_insert_ne.
    + cbn. apply list_lookup_insert_eq. by apply lookup_lt_Some in E.
  - by rewrite E.
Qed.

(** X8: georeferencing follows [-g].  Without it no slice is given a
    projection or a transform.  With it every slice that is created is
    given both, on the handle the create returned; the projection is that
    of the source, and the transform is that of the source with its sixth
    coefficient, the row height, multiplied by [ysz / zsz] and the others as
    they were. *)
Theorem georeferencing_follows_g G L (fuel : nat) :
  Forall (georef_of L) (transpose G L fuel).1
  /\ (geo L = false -> Forall (fun ev => ~ is_georef ev) (transpose G L fuel).1)
  /\ (geo L = true ->
      forall n xs ys nb t o h,
        Create n xs ys nb t o h ∈ (transpose G L fuel).1 ->
        SetProjection h (projection L) ∈ (transpose G L fuel).1
        /\ SetGeoTransform h (gt L) ∈ (transpose G L fuel).1)
  /\ (forall o src tgt h zs,
        let L' := describe_source of_int fmul fdiv G o src tgt h zs in
        let raw := GDALGetGeoTransform G h in
        geo L' = o_geo o
        /\ projection L' = GDALGetProjectionRef G h
        /\ length (gt L') = length raw
        /\ (forall i, i <> 5%nat -> gt L' !! i = raw !! i)
        /\ gt L' !! 5%nat
           = (fun g5 => fmul g5 (fdiv (of_int (GDALGetRasterBandYSize G h 1))
                                      (of_int (atoi zs)))) <$> raw !! 5%nat).
Proof.
  split; [apply georef_values_run|]. split; [apply no_georef_run|]. split.
  - intros Hg n xs ys nb t o h Hin.
    apply create_in_transpose in Hin as [Hm Hin]; [|exact I].
    apply create_block in Hin as (starty & z & Hin & Hincl); [|exact I].
    assert (h = (create_slice G L starty z).1) as ->.
    { unfold create_slice in Hin. cbn [snd] in Hin.
      apply elem_of_cons in Hin as [Hin|Hin]; [by inversion Hin|].
      exfalso.
      destruct (nodata L), (stats L) as [[[[? ?] ?] ?]|], (geo L);
        cbn in Hin; repeat (apply elem_of_cons in Hin as [Hin|Hin]; [discriminate|]);
        by apply elem_of_nil in Hin. }
    split; apply z_loop_in_transpose; try done; apply Hincl;
      unfold create_slice; cbn [fst snd]; rewrite Hg;
      apply elem_of_cons; right; apply elem_of_app; right;
      apply elem_of_app; right; apply list_elem_of_In; cbn; tauto.
  - intros o src tgt h zs. cbv zeta.
    destruct (describe_source_fields of_int fmul fdiv G o src tgt h zs)
      as (_ & Hg & _ & _ & _ & _ & _ & _ & _ & _ & _ & Hp & Hgt).
    cbv zeta in *. rewrite Hg, Hp, Hgt.
    split; [done|]. split; [done|]. apply scale_gt_lookup.
Qed.

(** X9: when none of the arguments is [-g], in any case of the letter, no
    call of the run gives a slice a projection or a transform. *)
Theorem no_g_no_georeferencing G (fuel : nat) argv :
  Forall (fun a => EQUAL a "-g" = false) (GDALGeneralCmdLineProcessor G argv).2 ->
  Forall (fun ev => ~ is_georef ev) (main of_int fmul fdiv G fuel argv).1.
Proof.
  intros Hall. apply Forall_forall. intros ev Hin Hgeo.
  apply loops_of_main in Hin as (o & src & tgt & h & zs & Hp & _ & _ & _ & _ & Hm & Hin);
    [|by destruct ev].
  destruct Hp as (_ & _ & Hp).
  apply parse_args_keeps_geo in Hp; [|by apply Forall_drop, Forall_take].
  destruct (describe_source_fields of_int fmul fdiv G o src tgt h zs) as (_ & Hg & _).
  cbv zeta in Hg. rewrite Hp in Hg. cbn in Hg.
  pose proof (no_georef_run G _ fuel Hg) as Hno.
  rewrite Forall_forall in Hno.
  apply (Hno ev); [|done]. by apply z_loop_in_transpose.
Qed.

(** X10: with positive chunk sizes, the loops open the slices of the source
    once each, slice 0 to slice [zsz - 1] in this order, under the names
    [<source>:MRF:Z<k>], and nothing else; no two of the names are the
    same. *)
Theorem source_slices_opened_once G L (fuel : nat) :
  positive_chunks L -> enough_fuel L fuel -> malloc G (BSZ L) = true ->
  opened (transpose G L fuel).1 = slice_name (SourceName L) <$> seqZ 0 (zsz L)
  /\ NoDup (opened (transpose G L fuel).1).
Proof.
  intros Hpos Hfuel Hm.
  assert (opened (transpose G L fuel).1
          = slice_name (SourceName L) <$> seqZ 0 (zsz L)) as ->.
  { rewrite transpose_trace, Hm.
    unfold opened. rewrite omap_app.
    assert (omap (fun ev : @event double => match ev with Open n _ => Some n | _ => None end)
              (if verbose L
               then [Cout ("Using an " +:+ dec (BSZ L) +:+ " sized buffer")]
               else []) = []) as -> by (by destruct (verbose L)).
    cbn [app]. unfold z_loop.
    replace (zsz L) with (zsz L - 0) at 2 by lia.
    apply for_loop_chunks; [apply Hpos|destruct Hfuel as (_ & _ & ?); lia|].
    intros s Hs. rewrite z_body_pass; [|done|done|lia]. split; [done|].
    cbn [fst]. rewrite !omap_app.
    fold (opened (y_loop G L fuel (chunk_inh G L s) s (Z.min (psz L) (zsz L - s))).1).
    rewrite opened_y_loop, omap_closes, !app_nil_r by done.
    rewrite (omap_blocks _ _ (fun z => [slice_name (SourceName L) (s + z)])) by done.
    by rewrite bind_singleton, (fmap_shift_seqZ (slice_name (SourceName L))). }
  split; [done|].
  apply (NoDup_fmap_2 (slice_name (SourceName L))), NoDup_seqZ.
Qed.

(** X11: with positive chunk sizes, a run creates the slices of the
    destination, slice 0 to slice [ysz - 1] in this order, once in every
    chunk of the Z loop: each slice is created as many times as there are
    chunks of [psz] slices in the depth of the source. *)
Theorem destination_slices_created_per_chunk G L (fuel : nat) :
  positive_chunks L -> enough_fuel L fuel -> malloc G (BSZ L) = true ->
  created (transpose G L fuel).1
  = concat (replicate (Z.to_nat (passes (zsz L) (psz L)))
              (slice_name (TargetName L) <$> seqZ 0 (ysz L))).
Proof.
  intros Hpos Hfuel Hm. unfold passes. rewrite transpose_trace, Hm.
  pose proof Hpos as (Hz & Hy & Hx). pose proof Hfuel as (Hfx & Hfy & Hfz).
  unfold created. rewrite omap_app.
  assert (omap (fun ev : @event double =>
                  match ev with Create n _ _ _ _ _ _ => Some n | _ => None end)
            (if verbose L
             then [Cout ("Using an " +:+ dec (BSZ L) +:+ " sized buffer")]
             else []) = []) as -> by (by destruct (verbose L)).
  cbn [app]. unfold z_loop.
  replace (zsz L + psz L - 1) with (zsz L - 0 + psz L - 1) by lia.
  apply for_loop_repeat; [done|lia|].
  intros s Hs. rewrite z_body_pass; [|done|done|lia]. split; [done|].
  cbn [fst]. rewrite !omap_app.
  rewrite omap_closes by done.
  rewrite (omap_blocks _ _ (fun _ => [])) by done.
  rewrite bind_nil_const, app_nil_r. cbn [app].
  by apply created_y_loop.
Qed.

(** X12: the handles of a run with two file names whose source opens.
    When the source is turned down, for its driver or for the lack of a
    [ZSIZE], it is left open.  When it passes, and the chunk sizes are
    positive, every handle that an open or a create returned is closed
    once, null handles too, and nothing else is closed; the source is
    among them. *)
Theorem handles_are_closed G (fuel : nat) argv o src tgt h :
  parsed G argv o -> o_fnames o = [src; tgt] -> GDALOpen G src = Some h ->
  (EQUAL (GDALGetDriverShortName G h) "MRF" = false
   \/ CSLFetchNameValue (GDALGetMetadata G h "IMAGE_STRUCTURE") "ZSIZE" = None ->
   obtained (main of_int fmul fdiv G fuel argv).1 = [Some h]
   /\ closed (main of_int fmul fdiv G fuel argv).1 = [])
  /\ (forall zs,
        EQUAL (GDALGetDriverShortName G h) "MRF" = true ->
        CSLFetchNameValue (GDALGetMetadata G h "IMAGE_STRUCTURE") "ZSIZE" = Some zs ->
        positive_chunks (describe_source of_int fmul fdiv G o src tgt h zs) ->
        enough_fuel (describe_source of_int fmul fdiv G o src tgt h zs) fuel ->
        closed (main of_int fmul fdiv G fuel argv).1
          ≡ₚ obtained (main of_int fmul fdiv G fuel argv).1
        /\ Some h ∈ closed (main of_int fmul fdiv G fuel argv).1).
Proof.
  intros Hp Hf Ho. rewrite (main_parsed _ _ _ _ _ _ _ _ _ Hp Hf).
  unfold convert. rewrite Ho. split.
  - intros H.
    assert (forall m c, obtained (Open src (Some h) :: (@Usage double m c).1) = [Some h]
                        /\ closed (Open src (Some h) :: (@Usage double m c).1) = []) as HU.
    { intros m c. destruct (Usage_handles (double := double) m c) as [Hc Hb].
      change (Open src (Some h) :: (Usage m c).1)
        with ([Open src (Some h)] ++ (@Usage double m c).1).
      by rewrite obtained_app, closed_app, Hc, Hb. }
    destruct (EQUAL (GDALGetDriverShortName G h) "MRF"); cbn [negb].
    + destruct H as [H|H]; [done|]. rewrite H.
      specialize (HU (Some "Source is not a 3-rd dimension MRF") 2).
      by destruct (Usage _ _).
    + specialize (HU (Some "Input file is not MRF") 2). by destruct (Usage _ _).
  - intros zs -> -> Hpos Hfuel. cbn [negb]. cbv zeta.
    set (L := describe_source of_int fmul fdiv G o src tgt h zs) in *.
    pose proof (balanced_run G L fuel Hpos Hfuel) as Hb.
    destruct (transpose G L fuel) as [t r]. cbn [fst] in *.
    change (Open src (Some h) :: list_options L ++ Close (Some h) :: t)
      with ([Open src (Some h)] ++ list_options L ++ [Close (Some h)] ++ t).
    rewrite !closed_app, !obtained_app.
    assert (closed (list_options L) = [] /\ obtained (list_options L) = []) as [-> ->].
    { unfold list_options. destruct (verbose L); [|done].
      split; apply omap_none, Forall_fmap, Forall_forall; by intros. }
    cbn. split; [by constructor|]. apply elem_of_cons. by left.
Qed.


(** X14: axes without extent.  A source without depth makes no call at
    all after the allocation of the buffer.  With depth and no rows, the
    slices of the source are opened and closed and nothing is created, read
    or written.  With no columns nothing is read or written. *)
Theorem empty_axes G L (fuel : nat) :
  (zsz L <= 0 ->
   Forall (fun ev => exists l, ev = Cout l \/ ev = Cerr l) (transpose G L fuel).1)
  /\ (ysz L <= 0 -> Forall (fun ev => ~ slice_call ev) (transpose G L fuel).1)
  /\ (xsz L <= 0 -> Forall (fun ev => ~ is_io ev) (transpose G L fuel).1).
Proof.
  split; [|split]; intros H0; apply Forall_forall; intros ev Hin.
  - rewrite transpose_trace in Hin. destruct (malloc G (BSZ L)).
    + apply elem_of_app in Hin as [Hin|Hin].
      * destruct (verbose L); [|by apply elem_of_nil in Hin].
        apply list_elem_of_singleton in Hin. eauto.
      * apply event_of_z_loop in Hin as (k & Hz & _). lia.
    + pose proof (Usage_Forall (fun ev : @event double => exists l, ev = Cout l \/ ev = Cerr l)
        (Some ("Failed to allocate buffer of size " +:+ dec (BSZ L))) 3) as HU.
      rewrite Forall_forall in HU. apply HU; [|done]. eauto.
  - intros Hs. destruct (slice_call_not_cout ev Hs) as [H1 H2].
    apply event_of_transpose in Hin as [_ Hin]; [|done|done].
    apply event_of_z_loop in Hin as (k & _ & _ & _ & [H|[H|H]]).
    + destruct H as (z & _ & H). unfold open_slice in H. cbn in H.
      apply list_elem_of_singleton in H. by subst ev.
    + destruct H as (h & _ & ->). destruct Hs.
    + destruct H as (j & Hy & _). lia.
  - intros Hs.
    assert ((forall l, ev <> Cout l) /\ (forall l, ev <> Cerr l)) as [H1 H2]
      by (split; intros l ->; destruct Hs).
    apply event_of_transpose in Hin as [_ Hin]; [|done|done].
    apply event_of_z_loop in Hin as (k & _ & _ & _ & [H|[H|H]]).
    + destruct H as (z & _ & H). unfold open_slice in H. cbn in H.
      apply list_elem_of_singleton in H. by subst ev.
    + destruct H as (h & _ & ->). destruct Hs.
    + destruct H as (j & _ & _ & _ & [H|[H|H]]).
      * destruct H as (z & _ & H). unfold create_slice in H. cbn [snd] in H.
        destruct (nodata L), (stats L) as [[[[? ?] ?] ?]|], (geo L);
          cbn in H; repeat (apply elem_of_cons in H as [H|H]; [by subst ev|]);
          by apply elem_of_nil in H.
      * destruct H as (h & _ & ->). destruct Hs.
      * destruct H as (i & Hx & _). lia.
Qed.

End RunStatements.

Lemma STARTS_WITH_CI_app p x : STARTS_WITH_CI (p +:+ x) p = true.
Proof.
  induction p as [|c p IH]; [by destruct x|].
  change (STARTS_WITH_CI (String c (p +:+ x)) (String c p) = true).
  cbn [STARTS_WITH_CI]. by rewrite Ascii.eqb_refl.
Qed.

Lemma filter_none {A} (f : A -> bool) (l : list A) :
  Forall (fun x => f x = false) l -> List.filter f l = [].
Proof. induction 1 as [|x l H _ IH]; [done|]. cbn. by rewrite H. Qed.

Lemma is_dropped_false s :
  is_dropped s = false ->
  STARTS_WITH_CI s "ZSLICE=" = false /\ STARTS_WITH_CI s "ZSIZE=" = false
  /\ STARTS_WITH_CI s "V2=" = false.
Proof.
  unfold is_dropped. intros H.
  apply orb_false_iff in H as [H H3]. apply orb_false_iff in H as [H1 H2]. done.
Qed.

(** X15: the depth of the source does not reach the destination.  Among
    the creation options only the last one starts with [ZSIZE=], and it
    gives the number of rows of the source; none starts with [ZSLICE=] or
    [V2=], whatever the metadata of the source holds. *)
Theorem source_depth_is_replaced md pszx psz ysz :
  List.filter (fun s => STARTS_WITH_CI s "ZSIZE=") (creation_options md pszx psz ysz)
  = ["ZSIZE=" +:+ dec ysz]
  /\ last (creation_options md pszx psz ysz) = Some ("ZSIZE=" +:+ dec ysz)
  /\ Forall (fun s => STARTS_WITH_CI s "ZSLICE=" = false
                      /\ STARTS_WITH_CI s "V2=" = false)
            (creation_options md pszx psz ysz).
Proof.
  rewrite creation_options_eq.
  assert (Forall (fun s => STARTS_WITH_CI s "ZSLICE=" = false
                           /\ STARTS_WITH_CI s "ZSIZE=" = false
                           /\ STARTS_WITH_CI s "V2=" = false)
            (filter_metadata md [] []).1) as Hkept.
  { apply filter_metadata_Forall; [done| |done].
    intros s _ Hd _. by apply is_dropped_false. }
  split; [|split].
  - rewrite !List.filter_app.
    rewrite (filter_none _ (filter_metadata md [] []).1)
      by (eapply Forall_impl; [exact Hkept|]; by intros s (_ & ? & _)).
    destruct (0 <? _)%nat; cbn [List.filter app]; rewrite STARTS_WITH_CI_app;
      by known_prefix.
  - rewrite !app_assoc.
    change (?l ++ ["BLOCKXSIZE=" +:+ dec pszx; "BLOCKYSIZE=" +:+ dec psz;
                   "ZSIZE=" +:+ dec ysz])
      with (l ++ ["BLOCKXSIZE=" +:+ dec pszx; "BLOCKYSIZE=" +:+ dec psz]
              ++ ["ZSIZE=" +:+ dec ysz]).
    by rewrite app_assoc, last_snoc.
  - rewrite !Forall_app. split; [|split].
    + eapply Forall_impl; [exact Hkept|]. by intros s (? & _ & ?).
    + destruct (0 <? _)%nat; repeat constructor.
    + repeat constructor.
Qed.

(** X16: the free form options.  The entries of the source metadata that
    start with [V1=], [GZ=], [ZSTD=], [RAWZ=], [DEFLATE=] or [LERC_PREC=] are
    put in one option [OPTIONS=], in their order, with one blank between
    two of them; none of them is a creation option of its own. *)
Theorem free_form_options_are_joined md pszx psz ysz :
  (List.filter is_free md <> [] ->
   ("OPTIONS=" +:+ String.concat " " (List.filter is_free md))
     ∈ creation_options md pszx psz ysz)
  /\ Forall (fun s => is_free s = false) (creation_options md pszx psz ysz).
Proof.
  rewrite creation_options_eq.
  assert (Forall (fun s => s <> "") (List.filter is_free md)) as Hne.
  { apply Forall_forall. intros s Hs%list_elem_of_In%List.filter_In.
    destruct Hs as [_ Hs]. by apply is_free_nonempty. }
  split.
  - intros Hfree.
    pose proof (join_freeopt_nonempty _ Hfree Hne) as Hj.
    apply length_pos_nonempty in Hj. rewrite Hj.
    rewrite join_freeopt_start by done.
    apply elem_of_app. right. apply elem_of_cons. by left.
  - rewrite !Forall_app. split; [|split].
    + by apply filter_metadata_Forall.
    + destruct (0 <? _)%nat; repeat constructor.
    + repeat constructor.
Qed.

Section OptionStatements.

Context {double : Type}.
Variable of_int : Z -> double.
Variables fmul fdiv : double -> double -> double.
Implicit Types (G : @GDAL double) (L : @locals double).

(** X17: the creation options of a run, from its source.  They end with
    the tile width of the source as [BLOCKXSIZE], the page size as
    [BLOCKYSIZE], which is the value of [-z] or, when that is 0 or not
    given, the tile width of the source again, and the number of rows of the
    source as [ZSIZE].  A [COMPRESSION=] entry of the source metadata is
    there as [COMPRESS=] with the same value, and an entry that is neither
    left out nor a free form option is there as it is. *)
Theorem creation_options_of_source G o src tgt h zs :
  let L := describe_source of_int fmul fdiv G o src tgt h zs in
  let md := GDALGetMetadata G h "IMAGE_STRUCTURE" in
  (exists pre,
     copt L = pre ++ ["BLOCKXSIZE=" +:+ dec (GDALGetBlockSize G h 1).1;
                      "BLOCKYSIZE=" +:+ dec (if o_psz o =? 0
                                             then (GDALGetBlockSize G h 1).1
                                             else o_psz o);
                      "ZSIZE=" +:+ dec (GDALGetRasterBandYSize G h 1)])
  /\ (forall s, s ∈ md -> STARTS_WITH_CI s "COMPRESSION=" = true ->
                ("COMPRESS=" +:+ after_equal s) ∈ copt L)
  /\ (forall s, s ∈ md -> STARTS_WITH_CI s "COMPRESSION=" = false ->
                is_dropped s = false -> is_free s = false -> s ∈ copt L).
Proof.
  cbv zeta. unfold describe_source.
  destruct (GDALGetBlockSize G h 1) as [bx by_]. cbn [copt fst].
  rewrite creation_options_eq. split; [|split].
  - eexists. by rewrite app_assoc.
  - intros s Hs Hc. apply elem_of_app. left.
    by apply (filter_metadata_keeps _ [] [] s Hs).
  - intros s Hs H1 H2 H3. apply elem_of_app. left.
    by apply (filter_metadata_keeps _ [] [] s Hs).
Qed.

End OptionStatements.


(** ** The order of the chunks *)

Section PassReadings.

Context {double A : Type} (f : @event double -> option A).
Implicit Types (body : Z -> list (@event double) * option outcome).

(** The readings of a loop are those of its passes, end to end. *)
Lemma for_loop_passes (c : Z -> list A) fuel bound step body start :
  0 < step -> bound - start <= Z.of_nat fuel ->
  (forall s, s < bound -> (body s).2 = None /\ omap f (body s).1 = c s) ->
  omap f (for_loop fuel bound step body start).1
  = seqZ 0 (passes (bound - start) step) ≫= (fun p => c (start + p * step)).
Proof.
  intros Hstep Hf Hb. unfold passes. revert start Hf.
  induction fuel as [|fuel IH]; intros start Hf; simpl;
    (destruct (start <? bound) eqn:Hlt;
     [apply Z.ltb_lt in Hlt
     |apply Z.ltb_ge in Hlt;
      assert ((bound - start + step - 1) / step <= 0) as Hq
        by (apply Z.lt_succ_r, Z.div_lt_upper_bound; lia);
      by rewrite seqZ_nil by exact Hq]);
    [lia|].
  destruct (Hb start Hlt) as [Hr Ho]. specialize (IH (start + step) ltac:(lia)).
  destruct (body start) as [t r]; simpl in *; subst r.
  destruct (for_loop fuel bound step body (start + step)) as [t' r'].
  simpl in *. rewrite omap_app, Ho, IH.
  replace (bound - start + step - 1)
    with (bound - (start + step) + step - 1 + 1 * step) by lia.
  rewrite Z.div_add by lia.
  assert (0 <= (bound - (start + step) + step - 1) / step) as Hq
    by (apply Z.div_pos; lia).
  rewrite (seqZ_cons 0 (_ + 1)) by lia. rewrite bind_cons.
  replace (start + 0 * step) with start by lia. f_equal.
  replace (Z.pred ((bound - (start + step) + step - 1) / step + 1))
    with ((bound - (start + step) + step - 1) / step) by lia.
  rewrite <- (fmap_add_seqZ 1 0), list_fmap_bind.
  apply list_bind_ext; [|done]. intros p. cbn. f_equal. lia.
Qed.

End PassReadings.

Section Order.

Context {double : Type}.
Implicit Types (G : @GDAL double) (L : @locals double).

Lemma printed_x_loop L fuel inh outh starty startz dy dz :
  0 < pszx L -> xsz L <= Z.of_nat fuel ->
  printed (x_loop L fuel inh outh starty startz dy dz).1
  = seqZ 0 (passes (xsz L) (pszx L))
      ≫= (fun i => [progress_line (i * pszx L) starty startz]).
Proof.
  intros Hx Hf. unfold x_loop, printed.
  rewrite (for_loop_passes _ (fun s => [progress_line s starty startz]));
    [by rewrite Z.sub_0_r|done|lia|].
  intros s _. split; [done|]. unfold x_body. cbn [fst].
  rewrite !omap_app.
  rewrite (omap_none _ (read_cublock _ _ _ _ _ _ _))
    by (apply Forall_fmap, Forall_forall; by intros).
  rewrite (omap_none _ (write_cublock _ _ _ _ _ _ _))
    by (apply Forall_fmap, Forall_forall; by intros).
  done.
Qed.

Lemma printed_y_loop G L fuel inh startz dz :
  0 < pszx L -> 0 < pszy L ->
  xsz L <= Z.of_nat fuel -> ysz L <= Z.of_nat fuel ->
  printed (y_loop G L fuel inh startz dz).1
  = seqZ 0 (passes (ysz L) (pszy L)) ≫= (fun j =>
      seqZ 0 (passes (xsz L) (pszx L)) ≫= (fun i =>
        [progress_line (i * pszx L) (j * pszy L) startz])).
Proof.
  intros Hx Hy Hfx Hfy. unfold y_loop, printed.
  rewrite (for_loop_passes _ (fun s =>
             seqZ 0 (passes (xsz L) (pszx L))
               ≫= (fun i => [progress_line (i * pszx L) s startz])));
    [by rewrite Z.sub_0_r|done|lia|].
  intros s Hs. rewrite y_body_pass; [|done|lia|done|lia]. split; [done|].
  cbn [fst]. rewrite !omap_app.
  rewrite omap_closes, app_nil_r by done.
  rewrite (omap_blocks _ _ (fun _ => [])).
  - rewrite bind_nil_const. cbn [app]. by apply printed_x_loop.
  - intros z. unfold create_slice. cbn [snd].
    destruct (nodata L), (stats L) as [[[[? ?] ?] ?]|], (geo L); done.
Qed.

Lemma printed_z_loop G L fuel :
  positive_chunks L -> enough_fuel L fuel ->
  printed (z_loop G L fuel).1
  = seqZ 0 (passes (zsz L) (psz L)) ≫= (fun k =>
      seqZ 0 (passes (ysz L) (pszy L)) ≫= (fun j =>
        seqZ 0 (passes (xsz L) (pszx L)) ≫= (fun i =>
          [progress_line (i * pszx L) (j * pszy L) (k * psz L)]))).
Proof.
  intros Hpos Hfuel.
  pose proof Hpos as (Hz & Hy & Hx). pose proof Hfuel as (Hfx & Hfy & Hfz).
  unfold z_loop, printed.
  rewrite (for_loop_passes _ (fun s =>
             seqZ 0 (passes (ysz L) (pszy L)) ≫= (fun j =>
               seqZ 0 (passes (xsz L) (pszx L)) ≫= (fun i =>
                 [progress_line (i * pszx L) (j * pszy L) s]))));
    [by rewrite Z.sub_0_r|done|lia|].
  intros s Hs. rewrite z_body_pass; [|done|done|lia]. split; [done|].
  cbn [fst]. rewrite !omap_app.
  rewrite omap_closes, app_nil_r by done.
  rewrite (omap_blocks _ _ (fun _ => [])) by done.
  rewrite bind_nil_const. cbn [app]. by apply printed_y_loop.
Qed.

(** X19: what a run prints on [cout], with positive chunk sizes: in
    verbose mode the size of the buffer, and then one line for every chunk,
    each chunk once, the chunks of a row from left to right, the rows of
    chunks of a Z chunk from top to bottom, and the Z chunks from the first
    slices on. *)
Theorem chunks_are_visited_in_order G L (fuel : nat) :
  positive_chunks L -> enough_fuel L fuel -> malloc G (BSZ L) = true ->
  printed (transpose G L fuel).1
  = (if verbose L then ["Using an " +:+ dec (BSZ L) +:+ " sized buffer"] else [])
    ++ (seqZ 0 (passes (zsz L) (psz L)) ≫= (fun k =>
          seqZ 0 (passes (ysz L) (pszy L)) ≫= (fun j =>
            seqZ 0 (passes (xsz L) (pszx L)) ≫= (fun i =>
              [progress_line (i * pszx L) (j * pszy L) (k * psz L)])))).
Proof.
  intros Hpos Hfuel Hm. rewrite transpose_trace, Hm.
  unfold printed. rewrite omap_app.
  fold (printed (z_loop G L fuel).1). rewrite printed_z_loop by done.
  by destruct (verbose L).
Qed.

End Order.

(** ** A step of 0 *)

Section Stuck.

Context {double : Type}.
Implicit Types (G : @GDAL double) (L : @locals double).
Implicit Types (body : Z -> list (@event double) * option outcome).





Variable of_int : Z -> double.
Variables fmul fdiv : double -> double -> double.


End Stuck.

(** ** A chunk in the buffer *)

Section BufferStatements.

Context {double : Type}.


End BufferStatements.

(** ** The statements on samples *)

(** X1 on two runs of arguments. *)
Lemma parse_args_app_witness :
  parse_args ["-v"; "a"] no_options = Some some_flags
  /\ parse_args (["-v"; "a"] ++ ["-z"; "7"; "b"]) no_options
     = parse_args ["-z"; "7"; "b"] some_flags
  /\ parse_args ["-z"; "7"; "b"] some_flags
     = Some {| o_verbose := true; o_geo := false; o_psz := 7; o_fnames := ["a"; "b"] |}.
Proof.
  assert (parse_args ["-v"; "a"] no_options = Some some_flags) as H by reflexivity.
  split; [exact H|]. split; [|reflexivity].
  exact (parse_args_app ["-v"; "a"] ["-z"; "7"; "b"] no_options some_flags H).
Defined.

(** X2 on two file names and a [-Z] without a value. *)
Lemma parse_args_fails_on_trailing_z_witness :
  parse_args ["in.mrf"; "out.mrf"; "-Z"] no_options = None
  /\ exists z, last ["in.mrf"; "out.mrf"; "-Z"] = Some z /\ EQUAL z "-z" = true.
Proof.
  assert (parse_args ["in.mrf"; "out.mrf"; "-Z"] no_options = None) as H by reflexivity.
  split; [exact H|].
  exact (parse_args_fails_on_trailing_z ["in.mrf"; "out.mrf"; "-Z"] no_options H).
Defined.

(** X3 on flags in both cases, before, between and after the file names. *)
Lemma parse_args_without_z_witness :
  Forall (fun a => EQUAL a "-z" = false) ["-V"; "in.mrf"; "-g"; "out.mrf"; "-v"]
  /\ parse_args ["-V"; "in.mrf"; "-g"; "out.mrf"; "-v"] no_options
     = Some {| o_verbose := true; o_geo := true; o_psz := 0;
               o_fnames := ["in.mrf"; "out.mrf"] |}.
Proof.
  assert (Forall (fun a => EQUAL a "-z" = false) ["-V"; "in.mrf"; "-g"; "out.mrf"; "-v"])
    as H by (repeat constructor).
  split; [exact H|].
  exact (parse_args_without_z ["-V"; "in.mrf"; "-g"; "out.mrf"; "-v"] no_options H).
Defined.

(** X5 on a source without depth and on a run that gets no buffer. *)
Lemma exit_codes_witness :
  (parsed (answers no_depth) plain_argv (sample_options 0)
   /\ (run_main no_depth 10 plain_argv).2 = Exit 2)
  /\ (parsed (answers cramped) plain_argv (sample_options 0)
      /\ (run_main cramped 10 plain_argv).2 = Exit 3).
Proof.
  assert (parsed (answers no_depth) plain_argv (sample_options 0)) as H1
    by (repeat split; calc).
  assert (parsed (answers cramped) plain_argv (sample_options 0)) as H2
    by (repeat split; calc).
  split; (split; [done|]).
  - apply (proj1 (exit_codes id Z.mul Z.div (answers no_depth) 10 plain_argv
                    (sample_options 0) "in.mrf" "out.mrf" H1 eq_refl)).
    exists "in.mrf". split; [reflexivity|]. right. reflexivity.
  - apply (proj1 (proj2 (exit_codes id Z.mul Z.div (answers cramped) 10 plain_argv
                           (sample_options 0) "in.mrf" "out.mrf" H2 eq_refl))).
    exists "in.mrf", "1". repeat split; calc.
Defined.

(** X6 in the scenario: the slice 5 of the destination. *)
Lemma creates_of_main_witness :
  let ev := Create "out.mrf:MRF:Z5" 8 4 1 1
              ["COMPRESS=LERC"; "OPTIONS=LERC_PREC=0.5"; "BLOCKXSIZE=4"; "BLOCKYSIZE=4";
               "ZSIZE=6"] (Some "out.mrf:MRF:Z5") in
  ev ∈ (run_main scenario 10 plain_argv).1
  /\ exists o src tgt h zs,
       parsed (answers scenario) plain_argv o /\ o_fnames o = [src; tgt]
       /\ GDALOpen (answers scenario) src = Some h
       /\ EQUAL (GDALGetDriverShortName (answers scenario) h) "MRF" = true
       /\ CSLFetchNameValue (GDALGetMetadata (answers scenario) h "IMAGE_STRUCTURE") "ZSIZE"
          = Some zs
       /\ malloc (answers scenario)
            (BSZ (describe_source id Z.mul Z.div (answers scenario) o src tgt h zs)) = true
       /\ (exists y, 0 <= y < GDALGetRasterBandYSize (answers scenario) h 1
                     /\ "out.mrf:MRF:Z5" = slice_name tgt y)
       /\ 8 = GDALGetRasterBandXSize (answers scenario) h 1 /\ 4 = atoi zs
       /\ 1 = GDALGetRasterCount (answers scenario) h
       /\ 1 = GDALGetRasterDataType (answers scenario) h 1
       /\ ["COMPRESS=LERC"; "OPTIONS=LERC_PREC=0.5"; "BLOCKXSIZE=4"; "BLOCKYSIZE=4";
           "ZSIZE=6"]
          = copt (describe_source id Z.mul Z.div (answers scenario) o src tgt h zs)
       /\ Some "out.mrf:MRF:Z5"
          = GDALCreate (answers scenario) "out.mrf:MRF:Z5" 8 4 1 1
              ["COMPRESS=LERC"; "OPTIONS=LERC_PREC=0.5"; "BLOCKXSIZE=4"; "BLOCKYSIZE=4";
               "ZSIZE=6"].
Proof.
  cbv zeta.
  assert (Create "out.mrf:MRF:Z5" 8 4 1 1
            ["COMPRESS=LERC"; "OPTIONS=LERC_PREC=0.5"; "BLOCKXSIZE=4"; "BLOCKYSIZE=4";
             "ZSIZE=6"] (Some "out.mrf:MRF:Z5")
          ∈ (run_main scenario 10 plain_argv).1) as H by in_list.
  split; [exact H|].
  exact (creates_of_main id Z.mul Z.div (answers scenario) 10 plain_argv _ _ _ _ _ _ _ H).
Defined.

(** X9 in the scenario, run without [-g]. *)
Lemma no_g_no_georeferencing_witness :
  Forall (fun a => EQUAL a "-g" = false)
    (GDALGeneralCmdLineProcessor (answers scenario) plain_argv).2
  /\ Forall (fun ev => ~ is_georef ev) (run_main scenario 10 plain_argv).1.
Proof.
  assert (Forall (fun a => EQUAL a "-g" = false)
            (GDALGeneralCmdLineProcessor (answers scenario) plain_argv).2) as H
    by (repeat constructor).
  split; [exact H|].
  exact (no_g_no_georeferencing id Z.mul Z.div (answers scenario) 10 plain_argv H).
Defined.

(** X10 in the scenario with a page size of 2: two chunks of two slices. *)
Lemma source_slices_opened_once_witness :
  let L := sample_locals scenario 2 "4" in
  (positive_chunks L /\ enough_fuel L 10 /\ malloc (answers scenario) (BSZ L) = true)
  /\ opened (transpose (answers scenario) L 10).1
     = ["in.mrf:MRF:Z0"; "in.mrf:MRF:Z1"; "in.mrf:MRF:Z2"; "in.mrf:MRF:Z3"]
  /\ NoDup (opened (transpose (answers scenario) L 10).1).
Proof.
  cbv zeta.
  assert (positive_chunks (sample_locals scenario 2 "4")) as Hp by (repeat split; calc).
  assert (enough_fuel (sample_locals scenario 2 "4") 10) as Hf by (repeat split; calc).
  assert (malloc (answers scenario) (BSZ (sample_locals scenario 2 "4")) = true) as Hm
    by calc.
  split; [done|].
  exact (source_slices_opened_once (answers scenario) (sample_locals scenario 2 "4") 10
           Hp Hf Hm).
Defined.

(** X11 in the scenario with a page size of 2: every slice is created
    twice. *)
Lemma destination_slices_created_per_chunk_witness :
  let L := sample_locals scenario 2 "4" in
  (positive_chunks L /\ enough_fuel L 10 /\ malloc (answers scenario) (BSZ L) = true)
  /\ created (transpose (answers scenario) L 10).1
     = ["out.mrf:MRF:Z0"; "out.mrf:MRF:Z1"; "out.mrf:MRF:Z2"; "out.mrf:MRF:Z3";
        "out.mrf:MRF:Z4"; "out.mrf:MRF:Z5";
        "out.mrf:MRF:Z0"; "out.mrf:MRF:Z1"; "out.mrf:MRF:Z2"; "out.mrf:MRF:Z3";
        "out.mrf:MRF:Z4"; "out.mrf:MRF:Z5"].
Proof.
  cbv zeta.
  assert (positive_chunks (sample_locals scenario 2 "4")) as Hp by (repeat split; calc).
  assert (enough_fuel (sample_locals scenario 2 "4") 10) as Hf by (repeat split; calc).
  assert (malloc (answers scenario) (BSZ (sample_locals scenario 2 "4")) = true) as Hm
    by calc.
  split; [done|].
  exact (destination_slices_created_per_chunk (answers scenario)
           (sample_locals scenario 2 "4") 10 Hp Hf Hm).
Defined.

(** X12 on a source without depth, and on the scenario when no slice can
    be opened or created. *)
Lemma handles_are_closed_witness :
  (parsed (answers no_depth) plain_argv (sample_options 0)
   /\ obtained (run_main no_depth 10 plain_argv).1 = [Some "in.mrf"]
   /\ closed (run_main no_depth 10 plain_argv).1 = [])
  /\ (parsed (answers broken) plain_argv (sample_options 0)
      /\ positive_chunks (sample_locals broken 0 "4")
      /\ enough_fuel (sample_locals broken 0 "4") 10
      /\ closed (run_main broken 10 plain_argv).1
           ≡ₚ obtained (run_main broken 10 plain_argv).1
      /\ Some "in.mrf" ∈ closed (run_main broken 10 plain_argv).1).
Proof.
  assert (parsed (answers no_depth) plain_argv (sample_options 0)) as H1
    by (repeat split; calc).
  assert (parsed (answers broken) plain_argv (sample_options 0)) as H2
    by (repeat split; calc).
  assert (positive_chunks (sample_locals broken 0 "4")) as Hp by (repeat split; calc).
  assert (enough_fuel (sample_locals broken 0 "4") 10) as Hf by (repeat split; calc).
  split.
  - split; [exact H1|].
    apply (proj1 (handles_are_closed id Z.mul Z.div (answers no_depth) 10 plain_argv
                    (sample_options 0) "in.mrf" "out.mrf" "in.mrf" H1 eq_refl eq_refl)).
    right. reflexivity.
  - split; [exact H2|]. split; [exact Hp|]. split; [exact Hf|].
    exact (proj2 (handles_are_closed id Z.mul Z.div (answers broken) 10 plain_argv
                    (sample_options 0) "in.mrf" "out.mrf" "in.mrf" H2 eq_refl eq_refl)
             "4" eq_refl eq_refl Hp Hf).
Defined.


(** X4 without the driver, with [-z] in the last place, and with one file
    name. *)
Lemma early_exits_witness :
  main id Z.mul Z.div no_driver 10 plain_argv
  = ((Usage (Some "MRF driver not found") 1).1, Exit 1)
  /\ run_main scenario 10 ["mrf_yzzy"; "in.mrf"; "-z"] = ([], Fault "atoi(NULL)")
  /\ run_main scenario 10 ["mrf_yzzy"; "-v"; "in.mrf"] = ((Usage None 1).1, Exit 1).
Proof.
  split; [|split].
  - exact (proj1 (early_exits id Z.mul Z.div no_driver 10 plain_argv) eq_refl).
  - apply (proj1 (proj2 (proj2 (early_exits id Z.mul Z.div (answers scenario) 10
                    ["mrf_yzzy"; "in.mrf"; "-z"]) eq_refl))); [calc|reflexivity].
  - apply (proj1 (proj2 (proj2 (proj2 (early_exits id Z.mul Z.div (answers scenario) 10
                    ["mrf_yzzy"; "-v"; "in.mrf"]) eq_refl)))
             {| o_verbose := true; o_geo := false; o_psz := 0; o_fnames := ["in.mrf"] |});
      [calc|reflexivity|calc].
Defined.

(** X8 in the scenario with [-g]: the slice 5 of the destination. *)
Lemma georeferencing_follows_g_witness :
  let L := geo_locals scenario "4" in
  let T := (transpose (answers scenario) L 10).1 in
  let h := Some "out.mrf:MRF:Z5" in
  geo L = true
  /\ Create "out.mrf:MRF:Z5" 8 4 1 1 (copt L) h ∈ T
  /\ SetProjection h "" ∈ T
  /\ SetGeoTransform h [0; 1; 0; 0; 0; -1] ∈ T.
Proof.
  cbv zeta.
  assert (Create "out.mrf:MRF:Z5" 8 4 1 1 (copt (geo_locals scenario "4"))
            (Some "out.mrf:MRF:Z5")
          ∈ (transpose (answers scenario) (geo_locals scenario "4") 10).1) as H by in_list.
  split; [reflexivity|]. split; [exact H|].
  exact (proj1 (proj2 (proj2 (georeferencing_follows_g id Z.mul Z.div (answers scenario)
                                (geo_locals scenario "4") 10)))
           eq_refl _ _ _ _ _ _ _ H).
Defined.

(** X14 on a source without rows: its two slices are opened and closed. *)
Lemma empty_axes_witness :
  let L := sample_locals rowless 0 "2" in
  ysz L <= 0
  /\ Forall (fun ev => ~ slice_call ev) (transpose (answers rowless) L 10).1
  /\ (transpose (answers rowless) L 10).1
     = [Open "in.mrf:MRF:Z0" (Some "in.mrf:MRF:Z0");
        Open "in.mrf:MRF:Z1" (Some "in.mrf:MRF:Z1");
        Close (Some "in.mrf:MRF:Z0"); Close (Some "in.mrf:MRF:Z1")].
Proof.
  cbv zeta.
  assert (ysz (sample_locals rowless 0 "2") <= 0) as H by calc.
  split; [exact H|]. split; [|reflexivity].
  exact (proj1 (proj2 (empty_axes (answers rowless) (sample_locals rowless 0 "2") 10)) H).
Defined.

(** X16 on metadata with two free form options. *)
Lemma free_form_options_are_joined_witness :
  List.filter is_free (s_md tagged) = ["V1=1"; "GZ=1"]
  /\ "OPTIONS=V1=1 GZ=1" ∈ creation_options (s_md tagged) 4 4 6.
Proof.
  split; [reflexivity|].
  exact (proj1 (free_form_options_are_joined (s_md tagged) 4 4 6)
           ltac:(vm_compute; discriminate)).
Defined.

(** X17 on the same metadata. *)
Lemma creation_options_of_source_witness :
  let L := sample_locals tagged 0 "4" in
  copt L = ["COMPRESS=LERC"; "NOCOPY=true"; "OPTIONS=V1=1 GZ=1";
            "BLOCKXSIZE=4"; "BLOCKYSIZE=4"; "ZSIZE=6"]
  /\ "COMPRESS=LERC" ∈ copt L
  /\ "NOCOPY=true" ∈ copt L.
Proof.
  cbv zeta. split; [reflexivity|].
  pose proof (creation_options_of_source id Z.mul Z.div (answers tagged)
                (sample_options 0) "in.mrf" "out.mrf" "in.mrf" "4") as (_ & H1 & H2).
  split.
  - apply (H1 "compression=LERC"); [in_list|reflexivity].
  - apply (H2 "NOCOPY=true"); [in_list|reflexivity|reflexivity|reflexivity].
Defined.


(** X19 in the scenario: four chunks. *)
Lemma chunks_are_visited_in_order_witness :
  let L := sample_locals scenario 2 "4" in
  (positive_chunks L /\ enough_fuel L 10 /\ malloc (answers scenario) (BSZ L) = true)
  /\ printed (transpose (answers scenario) L 10).1
     = ["Processing 0,0,0"; "Processing 4,0,0"; "Processing 0,4,0"; "Processing 4,4,0";
        "Processing 0,0,2"; "Processing 4,0,2"; "Processing 0,4,2"; "Processing 4,4,2"].
Proof.
  cbv zeta.
  assert (positive_chunks (sample_locals scenario 2 "4")) as Hp by (repeat split; calc).
  assert (enough_fuel (sample_locals scenario 2 "4") 10) as Hf by (repeat split; calc).
  assert (malloc (answers scenario) (BSZ (sample_locals scenario 2 "4")) = true) as Hm
    by calc.
  split; [done|].
  exact (chunks_are_visited_in_order (answers scenario) (sample_locals scenario 2 "4") 10
           Hp Hf Hm).
Defined.


